(** * Heimer: the edge scene item, the serializer and the grid

    A shallow embedding of [src/view/scene_items/edge.cpp] (class
    [SceneItems::Edge]), of [src/editor/serializer.cpp] and of
    [src/grid.cpp].

    Conventions of the embedding.
    - In the parts on the edge and on the grid the C++ [double] and [float]
      are idealised as real numbers: arithmetic is exact, there is no
      rounding, no overflow and no NaN.  The casts [static_cast<float>],
      [QVector2D(QPointF)] and [toPointF()] are therefore identities; they
      are kept as named definitions so that each line of the source can be
      found again.  What is proved there is about the structure of the
      computation: which end an arrowhead sits at, what is shown, what is
      left unchanged.
    - Where a statement turns on rounding, the same lines of the source are
      embedded a second time bit for bit, with binary64 and binary32
      arithmetic (modules [Binary] and [BinaryGrid]): the offsets of
      [updateLine], the comparison of [updateDots], the absence of NaN, and
      the loops of the grid.
    - The [double]s of the serializer are not idealised: they are IEEE 754
      binary64 numbers, see the conventions of that part.
    - Qt value classes ([QPointF], [QLineF], [QVector2D], [QRectF]) are
      records with the operations the source calls; each operation follows
      the behaviour Qt documents for it, with Qt's fuzzy tolerances (rounding
      guards) replaced by exact tests.
    - The member objects of [Edge] are fields of one record; every method is
      a function from the state before the call to the state after it.
    - [Node::getNearestEdgePoints] (node.cpp) is not part of the sources at
      hand; the edge is embedded for any such function.

    The definitions of all parts come first (the edge, the serializer, the
    grid of [src/grid.cpp], the arithmetic of the edge and of the grid bit
    for bit), then the facts about the edge, the serializer, the grid and the
    arithmetic. *)

From Stdlib Require Import Reals Psatz ZArith QArith Bool String List.
From Stdlib Require Import DecimalString DecimalZ.
From Stdlib Require Floats Uint63.
Import ListNotations.

Local Open Scope R_scope.

(** ** Decidable tests on reals, as booleans *)

Definition Rlt_b (x y : R) : bool := if Rlt_dec x y then true else false.
Definition Rle_b (x y : R) : bool := if Rle_dec x y then true else false.
Definition Req_b (x y : R) : bool := if Req_dec_T x y then true else false.

(** ** QPointF *)

Record QPointF : Type := mkPoint { px : R; py : R }.

Definition padd (a b : QPointF) : QPointF := mkPoint (px a + px b) (py a + py b).
Definition psub (a b : QPointF) : QPointF := mkPoint (px a - px b) (py a - py b).
(** [QPointF * qreal] and [qreal * QPointF]. *)
Definition pscale (a : QPointF) (c : R) : QPointF := mkPoint (px a * c) (py a * c).
(** [operator==] and [operator!=] on points, coordinate by coordinate. *)
Definition point_eqb (a b : QPointF) : bool := Req_b (px a) (px b) && Req_b (py a) (py b).
Definition point_neqb (a b : QPointF) : bool := negb (point_eqb a b).

Definition origin : QPointF := mkPoint 0 0.

(** Euclidean distance between two points (used in statements only). *)
Definition dist (a b : QPointF) : R :=
  sqrt ((px b - px a) * (px b - px a) + (py b - py a) * (py b - py a)).

Declare Scope point_scope.
Delimit Scope point_scope with pt.
Bind Scope point_scope with QPointF.
Infix "+" := padd : point_scope.
Infix "-" := psub : point_scope.
Infix "*" := pscale : point_scope.

(** ** QLineF *)

Record QLineF : Type := mkLine { p1 : QPointF; p2 : QPointF }.

(** [QLineF::setP1], [QLineF::setP2]. *)
Definition setP1 (l : QLineF) (p : QPointF) : QLineF := mkLine p (p2 l).
Definition setP2 (l : QLineF) (p : QPointF) : QLineF := mkLine (p1 l) p.
(** A default-constructed [QLineF] is the null line. *)
Definition nullLine : QLineF := mkLine origin origin.
Definition line_dx (l : QLineF) : R := px (p2 l) - px (p1 l).
Definition line_dy (l : QLineF) : R := py (p2 l) - py (p1 l).
(** [QLineF::length]. *)
Definition line_length (l : QLineF) : R := dist (p1 l) (p2 l).
(** [QLineF::center]. *)
Definition line_center (l : QLineF) : QPointF :=
  mkPoint (0.5 * px (p1 l) + 0.5 * px (p2 l)) (0.5 * py (p1 l) + 0.5 * py (p2 l)).

(** [std::atan2 y x], with the C convention [atan2 0 0 = 0]. *)
Definition atan2 (y x : R) : R :=
  if Rlt_dec 0 x then atan (y / x)
  else if Rlt_dec x 0 then
         (if Rle_dec 0 y then atan (y / x) + PI else atan (y / x) - PI)
  else if Rlt_dec 0 y then PI / 2
  else if Rlt_dec y 0 then - (PI / 2)
  else 0.

(** [QLineF::angle]: the angle of the line in degrees, in [0, 360), measured
    counter-clockwise from the positive x axis; the y axis of the scene points
    down, hence the [- dy]. *)
Definition line_angle (l : QLineF) : R :=
  let theta := atan2 (- line_dy l) (line_dx l) * 360 / (2 * PI) in
  if Rlt_dec theta 0 then theta + 360 else theta.

(** [qDegreesToRadians]. *)
Definition qDegreesToRadians (d : R) : R := d * (PI / 180).

(** ** QVector2D *)

Record QVector2D : Type := mkVec { vx : R; vy : R }.

(** [static_cast<float>] of a [double]: the identity on idealised reals. *)
Definition to_float (x : R) : R := x.
(** [QVector2D(const QPointF &)]. *)
Definition QVector2D_of (p : QPointF) : QVector2D := mkVec (to_float (px p)) (to_float (py p)).
(** [QVector2D::toPointF]. *)
Definition toPointF (v : QVector2D) : QPointF := mkPoint (vx v) (vy v).
(** [QVector2D * float]. *)
Definition vscale (v : QVector2D) (c : R) : QVector2D := mkVec (vx v * c) (vy v * c).
Definition lengthSquared (v : QVector2D) : R := vx v * vx v + vy v * vy v.
Definition vlength (v : QVector2D) : R := sqrt (lengthSquared v).

(** [QVector2D::normalize]: nothing happens for the null vector; any other
    vector is divided by its length. *)
Definition normalize (v : QVector2D) : QVector2D :=
  if Req_dec_T (lengthSquared v) 0 then v
  else mkVec (vx v / vlength v) (vy v / vlength v).

(** ** QRectF *)

Record QRectF : Type := mkRect { rx : R; ry : R; rw : R; rh : R }.

(** [QRectF::translated]. *)
Definition translated (r : QRectF) (p : QPointF) : QRectF :=
  mkRect (rx r + px p) (ry r + py p) (rw r) (rh r).

(** One axis of [QRectF::intersects]: the two spans, each normalised for a
    negative extent, are non-empty and overlap in more than a point. *)
Definition span_intersects (a wa b wb : R) : bool :=
  let l1 := if Rlt_dec wa 0 then a + wa else a in
  let r1 := if Rlt_dec wa 0 then a else a + wa in
  let l2 := if Rlt_dec wb 0 then b + wb else b in
  let r2 := if Rlt_dec wb 0 then b else b + wb in
  negb (Req_b l1 r1) && negb (Req_b l2 r2) && Rlt_b l1 r2 && Rlt_b l2 r1.

(** [QRectF::intersects]. *)
Definition intersects (a b : QRectF) : bool :=
  span_intersects (rx a) (rw a) (rx b) (rw b) && span_intersects (ry a) (rh a) (ry b) (rh b).

(** ** Collaborators of the edge *)

(** What the edge reads from a [Node]: [pos()], [cornerRadius()] and
    [sceneBoundingRect()].  The edge never writes to a node. *)
Record Node : Type := mkNode {
  nodePos : QPointF;
  cornerRadius : R;
  nodeSceneBoundingRect : QRectF
}.

(** [EdgePoint]: a connection point relative to the node's position. *)
Record EdgePoint : Type := mkEdgePoint { location : QPointF; isCorner : bool }.

Inductive ArrowMode : Type := Single | Double | Hidden.

(** [EdgeModel::Style] and [EdgeModel]. *)
Record Style : Type := mkStyle {
  arrowMode : ArrowMode;
  arrowSize : R;
  dashedLine : bool;
  edgeWidth : R
}.

Record EdgeModel : Type := mkEdgeModel {
  reversed : bool;
  style : Style;
  text : string
}.

(** [QPen], as far as [buildPen] sets it. *)
Record QPen : Type := mkPen { penWidth : R; penDashed : bool }.

(** A [QGraphicsLineItem]: its line, its pen and whether it is shown. *)
Record LineItem : Type := mkLineItem { line : QLineF; pen : QPen; shown : bool }.

Definition setLine (l : QLineF) (i : LineItem) : LineItem := mkLineItem l (pen i) (shown i).
Definition setPen (p : QPen) (i : LineItem) : LineItem := mkLineItem (line i) p (shown i).
Definition show (i : LineItem) : LineItem := mkLineItem (line i) (pen i) true.
Definition hide (i : LineItem) : LineItem := mkLineItem (line i) (pen i) false.

(** An [EdgeTextEdit]: its text, [isVisible()], [pos()], [boundingRect()],
    whether [scene()] is non-null, [hasFocus()], and whether its parent item
    is still the edge. *)
Record EdgeTextEdit : Type := mkTextEdit {
  labelText : string;
  labelVisible : bool;
  labelPos : QPointF;
  labelBoundingRect : QRectF;
  labelInScene : bool;
  labelHasFocus : bool;
  labelParentIsEdge : bool
}.

Definition setVisible (v : bool) (l : EdgeTextEdit) : EdgeTextEdit :=
  mkTextEdit (labelText l) v (labelPos l) (labelBoundingRect l) (labelInScene l)
             (labelHasFocus l) (labelParentIsEdge l).
Definition setPos (p : QPointF) (l : EdgeTextEdit) : EdgeTextEdit :=
  mkTextEdit (labelText l) (labelVisible l) p (labelBoundingRect l) (labelInScene l)
             (labelHasFocus l) (labelParentIsEdge l).
(** [setParentItem(nullptr)]. *)
Definition detach (l : EdgeTextEdit) : EdgeTextEdit :=
  mkTextEdit (labelText l) (labelVisible l) (labelPos l) (labelBoundingRect l) (labelInScene l)
             (labelHasFocus l) false.
(** [sceneBoundingRect()]: the edge item stays at the scene's origin, so the
    label's rectangle in the scene is its own rectangle moved to its position. *)
Definition sceneBoundingRect (l : EdgeTextEdit) : QRectF :=
  translated (labelBoundingRect l) (labelPos l).
(** [QString::isEmpty]. *)
Definition isEmpty (t : string) : bool := Nat.eqb (String.length t) 0.

(** A [QPropertyAnimation] on a dot's scale.  [animStarts] is a ghost counter
    of the times [start()] has set the animation running from its beginning,
    so that a restart can be observed. *)
Record Animation : Type := mkAnimation {
  animDuration : Z;
  animStartValue : R;
  animEndValue : R;
  animRunning : bool;
  animCurrentTime : Z;
  animStarts : nat
}.

Definition anim_stop (a : Animation) : Animation :=
  mkAnimation (animDuration a) (animStartValue a) (animEndValue a) false
              (animCurrentTime a) (animStarts a).
(** [QAbstractAnimation::start()]: nothing happens when the animation is
    already running; a stopped animation is set running from time 0. *)
Definition anim_start (a : Animation) : Animation :=
  if animRunning a then a
  else mkAnimation (animDuration a) (animStartValue a) (animEndValue a) true 0%Z
                   (S (animStarts a)).

(** A [QTimer] on a clock in milliseconds: [expiry] is the time at which an
    active timer fires. *)
Record QTimer : Type := mkTimer {
  singleShot : bool;
  interval : Z;
  expiry : option Z
}.

Definition timer_start (now : Z) (t : QTimer) : QTimer :=
  mkTimer (singleShot t) (interval t) (Some (now + interval t)%Z).
Definition timer_stop (t : QTimer) : QTimer :=
  mkTimer (singleShot t) (interval t) None.

Inductive VisibilityChangeReason : Type :=
  AvailableSpaceChanged | Explicit | Focused | Timeout.

Inductive LabelUpdateReason : Type := Default | EdgeGeometryChanged.

(** ** The edge *)

Record Edge : Type := mkEdge {
  m_edgeModel : EdgeModel;
  m_sourceNode : Node;
  m_targetNode : Node;
  m_enableAnimations : bool;
  m_enableLabel : bool;
  m_sourceDot : QPointF;
  m_targetDot : QPointF;
  m_label : EdgeTextEdit;
  m_dummyLabel : EdgeTextEdit;
  m_line : LineItem;
  m_arrowheadBeginLeft : LineItem;
  m_arrowheadBeginRight : LineItem;
  m_arrowheadEndLeft : LineItem;
  m_arrowheadEndRight : LineItem;
  m_sourceDotSizeAnimation : Animation;
  m_targetDotSizeAnimation : Animation;
  m_previousRelativeSourcePos : QPointF;
  m_previousRelativeTargetPos : QPointF;
  m_labelVisibilityTimer : QTimer;
  transformOriginPoint : QPointF
}.

Definition with_edgeModel (v : EdgeModel) (e : Edge) : Edge :=
  mkEdge v (m_sourceNode e) (m_targetNode e) (m_enableAnimations e) (m_enableLabel e)
    (m_sourceDot e) (m_targetDot e) (m_label e) (m_dummyLabel e) (m_line e)
    (m_arrowheadBeginLeft e) (m_arrowheadBeginRight e) (m_arrowheadEndLeft e)
    (m_arrowheadEndRight e) (m_sourceDotSizeAnimation e) (m_targetDotSizeAnimation e)
    (m_previousRelativeSourcePos e) (m_previousRelativeTargetPos e)
    (m_labelVisibilityTimer e) (transformOriginPoint e).

Definition with_nodes (src tgt : Node) (e : Edge) : Edge :=
  mkEdge (m_edgeModel e) src tgt (m_enableAnimations e) (m_enableLabel e)
    (m_sourceDot e) (m_targetDot e) (m_label e) (m_dummyLabel e) (m_line e)
    (m_arrowheadBeginLeft e) (m_arrowheadBeginRight e) (m_arrowheadEndLeft e)
    (m_arrowheadEndRight e) (m_sourceDotSizeAnimation e) (m_targetDotSizeAnimation e)
    (m_previousRelativeSourcePos e) (m_previousRelativeTargetPos e)
    (m_labelVisibilityTimer e) (transformOriginPoint e).

Definition with_dots (sd td : QPointF) (sa ta : Animation) (ps pt : QPointF) (e : Edge) : Edge :=
  mkEdge (m_edgeModel e) (m_sourceNode e) (m_targetNode e) (m_enableAnimations e)
    (m_enableLabel e) sd td (m_label e) (m_dummyLabel e) (m_line e)
    (m_arrowheadBeginLeft e) (m_arrowheadBeginRight e) (m_arrowheadEndLeft e)
    (m_arrowheadEndRight e) sa ta ps pt
    (m_labelVisibilityTimer e) (transformOriginPoint e).

Definition with_labels (l d : EdgeTextEdit) (e : Edge) : Edge :=
  mkEdge (m_edgeModel e) (m_sourceNode e) (m_targetNode e) (m_enableAnimations e)
    (m_enableLabel e) (m_sourceDot e) (m_targetDot e) l d (m_line e)
    (m_arrowheadBeginLeft e) (m_arrowheadBeginRight e) (m_arrowheadEndLeft e)
    (m_arrowheadEndRight e) (m_sourceDotSizeAnimation e) (m_targetDotSizeAnimation e)
    (m_previousRelativeSourcePos e) (m_previousRelativeTargetPos e)
    (m_labelVisibilityTimer e) (transformOriginPoint e).

Definition with_line (l : LineItem) (e : Edge) : Edge :=
  mkEdge (m_edgeModel e) (m_sourceNode e) (m_targetNode e) (m_enableAnimations e)
    (m_enableLabel e) (m_sourceDot e) (m_targetDot e) (m_label e) (m_dummyLabel e) l
    (m_arrowheadBeginLeft e) (m_arrowheadBeginRight e) (m_arrowheadEndLeft e)
    (m_arrowheadEndRight e) (m_sourceDotSizeAnimation e) (m_targetDotSizeAnimation e)
    (m_previousRelativeSourcePos e) (m_previousRelativeTargetPos e)
    (m_labelVisibilityTimer e) (transformOriginPoint e).

Definition with_arrowheads (bl br el er : LineItem) (e : Edge) : Edge :=
  mkEdge (m_edgeModel e) (m_sourceNode e) (m_targetNode e) (m_enableAnimations e)
    (m_enableLabel e) (m_sourceDot e) (m_targetDot e) (m_label e) (m_dummyLabel e)
    (m_line e) bl br el er
    (m_sourceDotSizeAnimation e) (m_targetDotSizeAnimation e)
    (m_previousRelativeSourcePos e) (m_previousRelativeTargetPos e)
    (m_labelVisibilityTimer e) (transformOriginPoint e).

Definition with_timer (t : QTimer) (e : Edge) : Edge :=
  mkEdge (m_edgeModel e) (m_sourceNode e) (m_targetNode e) (m_enableAnimations e)
    (m_enableLabel e) (m_sourceDot e) (m_targetDot e) (m_label e) (m_dummyLabel e)
    (m_line e) (m_arrowheadBeginLeft e) (m_arrowheadBeginRight e) (m_arrowheadEndLeft e)
    (m_arrowheadEndRight e) (m_sourceDotSizeAnimation e) (m_targetDotSizeAnimation e)
    (m_previousRelativeSourcePos e) (m_previousRelativeTargetPos e)
    t (transformOriginPoint e).

Definition with_transformOriginPoint (p : QPointF) (e : Edge) : Edge :=
  mkEdge (m_edgeModel e) (m_sourceNode e) (m_targetNode e) (m_enableAnimations e)
    (m_enableLabel e) (m_sourceDot e) (m_targetDot e) (m_label e) (m_dummyLabel e)
    (m_line e) (m_arrowheadBeginLeft e) (m_arrowheadBeginRight e) (m_arrowheadEndLeft e)
    (m_arrowheadEndRight e) (m_sourceDotSizeAnimation e) (m_targetDotSizeAnimation e)
    (m_previousRelativeSourcePos e) (m_previousRelativeTargetPos e)
    (m_labelVisibilityTimer e) p.

(** [Edge::sourceNode], [Edge::targetNode], [Edge::reversed], [Edge::arrowMode]. *)
Definition sourceNode (e : Edge) : Node := m_sourceNode e.
Definition targetNode (e : Edge) : Node := m_targetNode e.

(** [Edge::buildPen]. *)
Definition buildPen (ignoreDashSetting : bool) (e : Edge) : QPen :=
  mkPen (edgeWidth (style (m_edgeModel e)))
        (negb ignoreDashSetting && dashedLine (style (m_edgeModel e))).

(** [Edge::setArrowHeadPen]. *)
Definition setArrowHeadPen (p : QPen) (e : Edge) : Edge :=
  with_arrowheads (setPen p (m_arrowheadBeginLeft e)) (setPen p (m_arrowheadBeginRight e))
                  (setPen p (m_arrowheadEndLeft e)) (setPen p (m_arrowheadEndRight e)) e.

(** ** Label visibility: [Edge::setLabelVisible] *)

Definition isEnoughSpaceFor (l : EdgeTextEdit) (e : Edge) : bool :=
  labelInScene l
  && negb (intersects (sceneBoundingRect l) (nodeSceneBoundingRect (sourceNode e)))
  && negb (intersects (sceneBoundingRect l) (nodeSceneBoundingRect (targetNode e))).

Definition isEnoughSpaceForLabel (e : Edge) : bool := isEnoughSpaceFor (m_label e) e.
Definition isEnoughSpaceForDummyLabel (e : Edge) : bool := isEnoughSpaceFor (m_dummyLabel e) e.

Definition dummyLabelTextIsShoterThanLabelText (e : Edge) : bool :=
  Nat.ltb (String.length (labelText (m_dummyLabel e))) (String.length (labelText (m_label e))).

(** The guard of the [Timeout] case. *)
Definition timeoutHides (e : Edge) : bool :=
  (isEmpty (labelText (m_label e))
   || (negb (isEmpty (labelText (m_label e))) && negb (isEnoughSpaceForLabel e)))
  && negb (labelHasFocus (m_label e)).

Definition setLabelVisible (visible : bool) (vcr : VisibilityChangeReason) (e : Edge) : Edge :=
  if m_enableLabel e then
    match vcr with
    | AvailableSpaceChanged =>
        let isLabelVisible := isEnoughSpaceForLabel e && negb (isEmpty (labelText (m_label e))) in
        with_labels
          (setVisible isLabelVisible (m_label e))
          (setVisible (negb isLabelVisible && isEnoughSpaceForDummyLabel e
                       && dummyLabelTextIsShoterThanLabelText e) (m_dummyLabel e))
          e
    | Explicit =>
        with_labels (setVisible visible (m_label e)) (setVisible visible (m_dummyLabel e)) e
    | Focused =>
        if visible then
          with_labels (detach (setVisible true (m_label e))) (setVisible false (m_dummyLabel e)) e
        else e
    | Timeout =>
        if negb visible then
          if timeoutHides e then
            with_labels
              (setVisible false (m_label e))
              (setVisible (isEnoughSpaceForDummyLabel e && dummyLabelTextIsShoterThanLabelText e)
                          (m_dummyLabel e))
              e
          else e
        else e
    end
  else e.

(** Modelled from the spec: the default argument of [setLabelVisible]'s second
    parameter is declared in edge.hpp, which is not under src/.  The calls
    [setLabelVisible(false)] of the constructor's timer and visibility-timeout
    handlers are, by the spec (4.3), the [Timeout] transition. *)
Definition defaultVisibilityChangeReason : VisibilityChangeReason := Timeout.

(** The interval the constructor gives the label's timer. *)
Definition labelDurationMs : Z := 2000.

(** The constructor's set-up of [m_labelVisibilityTimer]: single shot, 2000 ms. *)
Definition initLabelVisibilityTimer (e : Edge) : Edge :=
  if m_enableLabel e then with_timer (mkTimer true labelDurationMs None) e else e.

(** [Edge::hoverEnterEvent]. *)
Definition hoverEnterEvent (e : Edge) : Edge :=
  setLabelVisible true Focused (with_timer (timer_stop (m_labelVisibilityTimer e)) e).

(** [Edge::hoverLeaveEvent], at time [now]. *)
Definition hoverLeaveEvent (now : Z) (e : Edge) : Edge :=
  with_timer (timer_start now (m_labelVisibilityTimer e)) e.

(** The event loop at time [now]: an active timer whose time has come fires
    its [timeout] signal, whose handler is [setLabelVisible(false)]; a single
    shot timer is then inactive. *)
Definition timerEvent (now : Z) (e : Edge) : Edge :=
  match expiry (m_labelVisibilityTimer e) with
  | Some t =>
      if (t <=? now)%Z then
        let tm := m_labelVisibilityTimer e in
        let tm' := if singleShot tm then timer_stop tm else timer_start t tm in
        setLabelVisible false defaultVisibilityChangeReason (with_timer tm' e)
      else e
  | None => e
  end.

(** ** Arrowheads *)

Definition arrowOpening : R := 150.

(** [pointBegin + QPointF(cos a, sin a) * arrowSize]. *)
Definition wingTip (pointBegin : QPointF) (a : R) (size : R) : QPointF :=
  (pointBegin + mkPoint (cos a) (sin a) * size)%pt.

(** [Edge::updateSingleArrowhead]. *)
Definition updateSingleArrowhead (e : Edge) : Edge :=
  let reversedEdge := reversed (m_edgeModel e) in
  let l := line (m_line e) in
  let pointBegin := if reversedEdge then p1 l else p2 l in
  let lineBeginLeft := setP1 nullLine pointBegin in
  let angleBegin := if reversedEdge then - line_angle l + 180 else - line_angle l in
  let angleLeft := qDegreesToRadians (angleBegin + arrowOpening) in
  let lineBeginLeft :=
    setP2 lineBeginLeft (wingTip pointBegin angleLeft (arrowSize (style (m_edgeModel e)))) in
  let lineBeginRight := setP1 nullLine pointBegin in
  let angleRight := qDegreesToRadians (angleBegin - arrowOpening) in
  let lineBeginRight :=
    setP2 lineBeginRight (wingTip pointBegin angleRight (arrowSize (style (m_edgeModel e)))) in
  with_arrowheads
    (show (setLine lineBeginLeft (m_arrowheadBeginLeft e)))
    (show (setLine lineBeginRight (m_arrowheadBeginRight e)))
    (hide (m_arrowheadEndLeft e))
    (hide (m_arrowheadEndRight e))
    e.

(** [Edge::updateDoubleArrowhead]. *)
Definition updateDoubleArrowhead (e : Edge) : Edge :=
  let reversedEdge := reversed (m_edgeModel e) in
  let l := line (m_line e) in
  let size := arrowSize (style (m_edgeModel e)) in
  let pointBegin := if reversedEdge then p1 l else p2 l in
  let angleBegin := if reversedEdge then - line_angle l + 180 else - line_angle l in
  let angleBeginLeft := qDegreesToRadians (angleBegin + arrowOpening) in
  let lineBeginLeft := setP2 (setP1 nullLine pointBegin) (wingTip pointBegin angleBeginLeft size) in
  let angleBeginRight := qDegreesToRadians (angleBegin - arrowOpening) in
  let lineBeginRight := setP2 (setP1 nullLine pointBegin) (wingTip pointBegin angleBeginRight size) in
  let pointEnd := if reversedEdge then p2 l else p1 l in
  let angleEnd := if reversedEdge then - line_angle l else - line_angle l + 180 in
  let angleEndLeft := qDegreesToRadians (angleEnd + arrowOpening) in
  let lineEndLeft := setP2 (setP1 nullLine pointEnd) (wingTip pointEnd angleEndLeft size) in
  let angleEndRight := qDegreesToRadians (angleEnd - arrowOpening) in
  let lineEndRight := setP2 (setP1 nullLine pointEnd) (wingTip pointEnd angleEndRight size) in
  with_arrowheads
    (show (setLine lineBeginLeft (m_arrowheadBeginLeft e)))
    (show (setLine lineBeginRight (m_arrowheadBeginRight e)))
    (show (setLine lineEndLeft (m_arrowheadEndLeft e)))
    (show (setLine lineEndRight (m_arrowheadEndRight e)))
    e.

(** [Edge::updateHiddenArrowhead]. *)
Definition updateHiddenArrowhead (e : Edge) : Edge :=
  with_arrowheads (hide (m_arrowheadBeginLeft e)) (hide (m_arrowheadBeginRight e))
                  (hide (m_arrowheadEndLeft e)) (hide (m_arrowheadEndRight e)) e.

(** [Edge::updateArrowhead]. *)
Definition updateArrowhead (e : Edge) : Edge :=
  let e := setArrowHeadPen (buildPen true e) e in
  match arrowMode (style (m_edgeModel e)) with
  | Single => updateSingleArrowhead e
  | Double => updateDoubleArrowhead e
  | Hidden => updateHiddenArrowhead e
  end.

(** ** Connection dots: [Edge::updateDots] *)

Definition updateDots (e : Edge) : Edge :=
  if m_enableAnimations e then
    let l := line (m_line e) in
    let newRelativeSourcePos := (p1 l - nodePos (sourceNode e))%pt in
    let srcChanged := point_neqb (m_previousRelativeSourcePos e) newRelativeSourcePos in
    let newRelativeTargetPos := (p2 l - nodePos (targetNode e))%pt in
    let tgtChanged := point_neqb (m_previousRelativeTargetPos e) newRelativeTargetPos in
    with_dots
      (p1 l) (p2 l)
      (if srcChanged then anim_start (anim_stop (m_sourceDotSizeAnimation e))
       else m_sourceDotSizeAnimation e)
      (if tgtChanged then anim_start (anim_stop (m_targetDotSizeAnimation e))
       else m_targetDotSizeAnimation e)
      (if srcChanged then newRelativeSourcePos else m_previousRelativeSourcePos e)
      (if tgtChanged then newRelativeTargetPos else m_previousRelativeTargetPos e)
      e
  else e.

(** ** Label placement: [Edge::updateLabel] *)

Definition labelPosFor (l : QLineF) (t : EdgeTextEdit) : QPointF :=
  ((p1 l + p2 l) * 0.5
   - mkPoint (rw (labelBoundingRect t)) (rh (labelBoundingRect t)) * 0.5)%pt.

Definition updateLabel (lur : LabelUpdateReason) (e : Edge) : Edge :=
  if m_enableLabel e then
    let l := line (m_line e) in
    let e := with_labels (setPos (labelPosFor l (m_label e)) (m_label e))
                         (setPos (labelPosFor l (m_dummyLabel e)) (m_dummyLabel e)) e in
    match lur with
    | EdgeGeometryChanged =>
        setLabelVisible (labelVisible (m_label e)) AvailableSpaceChanged e
    | Default => e
    end
  else e.

(** ** Line construction: [Edge::updateLine] *)

Definition widthScale : R := 0.5.
Definition cornerRadiusScale : R := 0.3.

Section WithNearestEdgePoints.

(** [Node::getNearestEdgePoints] is defined in node.cpp, which is not under
    src/; the edge is embedded for any such function. *)
Variable getNearestEdgePoints : Node -> Node -> EdgePoint * EdgePoint.

(** The anchor of a node in scene coordinates: [location + pos()]. *)
Definition sourceAnchor (e : Edge) : QPointF :=
  (location (fst (getNearestEdgePoints (sourceNode e) (targetNode e)))
   + nodePos (sourceNode e))%pt.
Definition targetAnchor (e : Edge) : QPointF :=
  (location (snd (getNearestEdgePoints (sourceNode e) (targetNode e)))
   + nodePos (targetNode e))%pt.

(** [direction1] and [direction2]: from the anchor towards the node's position. *)
Definition sourceDirection (e : Edge) : QVector2D :=
  normalize (QVector2D_of (nodePos (sourceNode e) - sourceAnchor e)%pt).
Definition targetDirection (e : Edge) : QVector2D :=
  normalize (QVector2D_of (nodePos (targetNode e) - targetAnchor e)%pt).

(** The line [updateLine] hands to [m_line->setLine]. *)
Definition computeLine (e : Edge) : QLineF :=
  let nearestPoints := getNearestEdgePoints (sourceNode e) (targetNode e) in
  let p1 := sourceAnchor e in
  let direction1 := sourceDirection e in
  let p2 := targetAnchor e in
  let direction2 := targetDirection e in
  mkLine
    (p1 + (if isCorner (fst nearestPoints)
           then toPointF (vscale direction1 (to_float (cornerRadius (sourceNode e))))
                * cornerRadiusScale
           else mkPoint 0 0))%pt
    (p2 + (if isCorner (snd nearestPoints)
           then toPointF (vscale direction2 (to_float (cornerRadius (targetNode e))))
                * cornerRadiusScale
           else mkPoint 0 0)
     - toPointF (vscale direction2 (to_float (edgeWidth (style (m_edgeModel e)))))
       * widthScale)%pt.

Definition updateLine (e : Edge) : Edge :=
  (* [buildPen()]: the dash setting is not ignored for the body line *)
  let e := with_line (setPen (buildPen false e) (m_line e)) e in
  let e := with_line (setLine (computeLine e) (m_line e)) e in
  let e := updateDots e in
  let e := updateLabel EdgeGeometryChanged e in
  let e := updateArrowhead e in
  with_transformOriginPoint (line_center (line (m_line e))) e.

(** The state [updateLine] has reached when it calls [updateDots]. *)
Definition lineSet (e : Edge) : Edge :=
  let e1 := with_line (setPen (buildPen false e) (m_line e)) e in
  with_line (setLine (computeLine e1) (m_line e1)) e1.

(** The state [updateLine] has reached when it calls [updateArrowhead]. *)
Definition labelSet (e : Edge) : Edge :=
  updateLabel EdgeGeometryChanged (updateDots (lineSet e)).

(** [Edge::setEdgeWidth], [Edge::setArrowSize], [Edge::setReversed]. *)
Definition setEdgeWidth (w : R) (e : Edge) : Edge :=
  let m := m_edgeModel e in
  let st := style m in
  updateLine
    (with_edgeModel
       (mkEdgeModel (reversed m) (mkStyle (arrowMode st) (arrowSize st) (dashedLine st) w) (text m))
       e).

Definition setArrowSize (a : R) (e : Edge) : Edge :=
  let m := m_edgeModel e in
  let st := style m in
  updateLine
    (with_edgeModel
       (mkEdgeModel (reversed m) (mkStyle (arrowMode st) a (dashedLine st) (edgeWidth st)) (text m))
       e).

End WithNearestEdgePoints.

Definition setReversed (r : bool) (e : Edge) : Edge :=
  let m := m_edgeModel e in
  updateArrowhead (with_edgeModel (mkEdgeModel r (style m) (text m)) e).

(** ** Construction: [Edge::Edge] and [Edge::initDots] *)

Definition dotDurationMs : Z := 2000.

(** Qt's defaults for freshly created items: a line item holds the null line
    and is visible; a text item is visible, has no scene and no focus. *)
Definition newLineItem : LineItem := mkLineItem nullLine (mkPen 1 false) true.

Definition newTextEdit : EdgeTextEdit :=
  mkTextEdit EmptyString true origin (mkRect 0 0 0 0) false false true.

Definition newAnimation : Animation := mkAnimation 250 0 0 false 0 0.

(** [Edge::initDots]. *)
Definition initDots (e : Edge) : Edge :=
  if m_enableAnimations e then
    let init a := mkAnimation dotDurationMs 1 0 (animRunning a) (animCurrentTime a) (animStarts a) in
    with_dots (m_sourceDot e) (m_targetDot e)
              (init (m_sourceDotSizeAnimation e)) (init (m_targetDotSizeAnimation e))
              (m_previousRelativeSourcePos e) (m_previousRelativeTargetPos e) e
  else e.

(** [Edge::Edge(NodeP, NodeP, bool, bool)].  The settings proxy supplies
    [reversedEdgeDirection]; the initial style stands for
    [EdgeModel::Style { edgeArrowMode() }], whose other defaults are declared
    in a header that is not under src/. *)
Definition Edge_new (reversedEdgeDirection : bool) (initialStyle : Style)
    (source target : Node) (enableAnimations enableLabel : bool) : Edge :=
  let e :=
    mkEdge (mkEdgeModel reversedEdgeDirection initialStyle EmptyString)
           source target enableAnimations enableLabel
           origin origin newTextEdit newTextEdit
           newLineItem newLineItem newLineItem newLineItem newLineItem
           newAnimation newAnimation origin origin
           (mkTimer false 0 None) origin in
  let e := initDots e in
  if enableLabel then
    let d := m_dummyLabel e in
    let e :=
      with_labels (m_label e)
        (mkTextEdit "..." (labelVisible d) (labelPos d) (labelBoundingRect d)
                    (labelInScene d) (labelHasFocus d) (labelParentIsEdge d)) e in
    initLabelVisibilityTimer e
  else e.

(** ** Observations used in the statements *)

(** The four arrowhead wing items. *)
Definition arrowheads (e : Edge) : LineItem * LineItem * LineItem * LineItem :=
  (m_arrowheadBeginLeft e, m_arrowheadBeginRight e, m_arrowheadEndLeft e, m_arrowheadEndRight e).

(** The wing item [updateArrowhead] builds at [pointBegin] for the angle
    [a] (in degrees): the new line, the solid pen, shown. *)
Definition wingItem (p : QPen) (pointBegin : QPointF) (a size : R) : LineItem :=
  mkLineItem (mkLine pointBegin (wingTip pointBegin (qDegreesToRadians a) size)) p true.

(** The wing items after [updateArrowhead], from the model, the line and the
    wing items before. *)
Definition arrowheadsFor (m : EdgeModel) (l : QLineF)
    (old : LineItem * LineItem * LineItem * LineItem) :
    LineItem * LineItem * LineItem * LineItem :=
  let '(bl, br, el, er) := old in
  let p := mkPen (edgeWidth (style m)) false in
  let size := arrowSize (style m) in
  let pointBegin := if reversed m then p1 l else p2 l in
  let pointEnd := if reversed m then p2 l else p1 l in
  let angleBegin := if reversed m then - line_angle l + 180 else - line_angle l in
  let angleEnd := if reversed m then - line_angle l else - line_angle l + 180 in
  match arrowMode (style m) with
  | Single =>
      (wingItem p pointBegin (angleBegin + arrowOpening) size,
       wingItem p pointBegin (angleBegin - arrowOpening) size,
       mkLineItem (line el) p false, mkLineItem (line er) p false)
  | Double =>
      (wingItem p pointBegin (angleBegin + arrowOpening) size,
       wingItem p pointBegin (angleBegin - arrowOpening) size,
       wingItem p pointEnd (angleEnd + arrowOpening) size,
       wingItem p pointEnd (angleEnd - arrowOpening) size)
  | Hidden =>
      (mkLineItem (line bl) p false, mkLineItem (line br) p false,
       mkLineItem (line el) p false, mkLineItem (line er) p false)
  end.

(** The geometry a recompute finds: the nodes where they now are and the
    segment as it now is; everything else as it was left. *)
Definition withGeometry (source target : Node) (l : QLineF) (e : Edge) : Edge :=
  with_line (setLine l (m_line e)) (with_nodes source target e).

(** A node moved by the vector [v]. *)
Definition movedBy (v : QPointF) (n : Node) : Node :=
  mkNode (nodePos n + v)%pt (cornerRadius n) (translated (nodeSceneBoundingRect n) v).

Definition relativeSourcePos (e : Edge) : QPointF :=
  (p1 (line (m_line e)) - nodePos (sourceNode e))%pt.

Definition relativeTargetPos (e : Edge) : QPointF :=
  (p2 (line (m_line e)) - nodePos (targetNode e))%pt.

(** The three states of the spec (4.3), read off the two text items; no state
    is assigned when both items are visible. *)
Inductive LabelVisibilityState : Type := StateHidden | StateVisible | StateDummyVisible.

Definition labelVisibilityState (e : Edge) : option LabelVisibilityState :=
  match labelVisible (m_label e), labelVisible (m_dummyLabel e) with
  | true, false => Some StateVisible
  | false, true => Some StateDummyVisible
  | false, false => Some StateHidden
  | true, true => None
  end.

(** A text item overlaps one of the two nodes. *)
Definition overlapsNodes (l : EdgeTextEdit) (e : Edge) : bool :=
  intersects (sceneBoundingRect l) (nodeSceneBoundingRect (sourceNode e))
  || intersects (sceneBoundingRect l) (nodeSceneBoundingRect (targetNode e)).

(** Whether the dummy label may stand in for the label. *)
Definition dummyEligible (e : Edge) : bool :=
  isEnoughSpaceForDummyLabel e && dummyLabelTextIsShoterThanLabelText e.

Definition bothVisible (e : Edge) : bool :=
  labelVisible (m_label e) && labelVisible (m_dummyLabel e).

(** A call of [setLabelVisible]: its two arguments. *)
Definition Transition : Type := (bool * VisibilityChangeReason)%type.

Definition step (t : Transition) (e : Edge) : Edge := setLabelVisible (fst t) (snd t) e.

Fixpoint run (ts : list Transition) (e : Edge) : Edge :=
  match ts with
  | [] => e
  | t :: ts' => run ts' (step t e)
  end.

(** The call [setLabelVisible(true, Explicit)]. *)
Definition showsExplicitly (t : Transition) : bool :=
  match t with
  | (true, Explicit) => true
  | _ => false
  end.

(** ** Scenarios

    The scenario of the spec (section 8): two nodes at (0,0) and (100,0)
    with corner radius 0, edge width 2, arrow mode [Single], not reversed.
    The nodes are 20 wide and 10 high; the nearest edge points are the mid
    points of the facing sides. *)

Definition scenarioSource : Node := mkNode (mkPoint 0 0) 0 (mkRect (-10) (-5) 20 10).

Definition scenarioTarget : Node := mkNode (mkPoint 100 0) 0 (mkRect 90 (-5) 20 10).

Definition scenarioNearest (_ _ : Node) : EdgePoint * EdgePoint :=
  (mkEdgePoint (mkPoint 10 0) false, mkEdgePoint (mkPoint (-10) 0) false).

Definition scenarioEdge : Edge :=
  Edge_new false (mkStyle Single 10 false 2) scenarioSource scenarioTarget true true.

(** The scenario edge with a given edge width. *)
Definition scenarioEdgeOfWidth (w : R) : Edge :=
  Edge_new false (mkStyle Single 10 false w) scenarioSource scenarioTarget true true.

(** A corner scenario: the source node has corner radius 2 and its nearest
    edge point is its corner (10,5); the target is as before. *)
Definition cornerSource : Node := mkNode (mkPoint 0 0) 2 (mkRect (-10) (-5) 20 10).

Definition cornerNearest (_ _ : Node) : EdgePoint * EdgePoint :=
  (mkEdgePoint (mkPoint 10 5) true, mkEdgePoint (mkPoint (-10) 0) false).

Definition cornerEdge : Edge :=
  Edge_new false (mkStyle Single 10 false 2) cornerSource scenarioTarget true true.

(** The labelled scenario: the scenario edge with its segment from (10,0) to
    (89,0); the label reads "hello" and is 30 by 10, the dummy label reads
    "..." and is 12 by 10; both are in the scene and have been placed by
    [updateLabel].  In the wide scenario the label is 90 wide, so that it
    reaches into both nodes, and the dummy label fits. *)

(** A text item once it has a text and a size and is in the scene. *)
Definition laidOut (t : string) (r : QRectF) (l : EdgeTextEdit) : EdgeTextEdit :=
  mkTextEdit t (labelVisible l) (labelPos l) r true (labelHasFocus l) (labelParentIsEdge l).

(** The labelled edge when [updateLabel] has placed the two text items. *)
Definition labelledEdgePlaced : Edge :=
  let l := mkLine (mkPoint 10 0) (mkPoint 89 0) in
  let lbl := laidOut "hello" (mkRect 0 0 30 10) newTextEdit in
  let dummy := laidOut "..." (mkRect 0 0 12 10) newTextEdit in
  with_labels (setPos (labelPosFor l lbl) lbl) (setPos (labelPosFor l dummy) dummy)
    (with_line (setLine l newLineItem) scenarioEdge).

Definition labelledEdge : Edge :=
  updateLabel EdgeGeometryChanged
    (with_labels
       (laidOut "hello" (mkRect 0 0 30 10) newTextEdit)
       (laidOut "..." (mkRect 0 0 12 10) newTextEdit)
       (with_line (setLine (mkLine (mkPoint 10 0) (mkPoint 89 0)) newLineItem) scenarioEdge)).

(** The labelled scenario with the text deleted. *)
Definition emptiedEdge : Edge :=
  let l := m_label labelledEdge in
  with_labels
    (mkTextEdit EmptyString (labelVisible l) (labelPos l) (labelBoundingRect l)
                (labelInScene l) (labelHasFocus l) (labelParentIsEdge l))
    (m_dummyLabel labelledEdge) labelledEdge.

Definition wideEdgePlaced : Edge :=
  let l := mkLine (mkPoint 10 0) (mkPoint 89 0) in
  let lbl := laidOut "a label that is too wide" (mkRect 0 0 90 10) newTextEdit in
  let dummy := laidOut "..." (mkRect 0 0 12 10) newTextEdit in
  with_labels (setPos (labelPosFor l lbl) lbl) (setPos (labelPosFor l dummy) dummy)
    (with_line (setLine l newLineItem) scenarioEdge).

Definition wideEdge : Edge :=
  updateLabel EdgeGeometryChanged
    (with_labels
       (laidOut "a label that is too wide" (mkRect 0 0 90 10) newTextEdit)
       (laidOut "..." (mkRect 0 0 12 10) newTextEdit)
       (with_line (setLine (mkLine (mkPoint 10 0) (mkPoint 89 0)) newLineItem) scenarioEdge)).

(** The scenario edge when its two text items have a text and a size and
    are in the scene, but have not been placed: both are still visible, as
    new items are.  The label reads "hello" and is 30 wide, or is too wide
    with 90. *)
Definition labelledInput : Edge :=
  with_labels (laidOut "hello" (mkRect 0 0 30 10) newTextEdit)
              (laidOut "..." (mkRect 0 0 12 10) newTextEdit) scenarioEdge.

Definition wideInput : Edge :=
  with_labels (laidOut "a label that is too wide" (mkRect 0 0 90 10) newTextEdit)
              (laidOut "..." (mkRect 0 0 12 10) newTextEdit) scenarioEdge.

(** A text item that has the input focus ([QGraphicsItem::hasFocus]), as
    when the user has put the cursor into it. *)
Definition focusIn (l : EdgeTextEdit) : EdgeTextEdit :=
  mkTextEdit (labelText l) (labelVisible l) (labelPos l) (labelBoundingRect l) (labelInScene l)
             true (labelParentIsEdge l).

(** The wide scenario while its label is edited: the pointer has entered the
    edge, which shows the label, and the label has the input focus. *)
Definition editedWideEdge : Edge :=
  let e := hoverEnterEvent wideEdge in
  with_labels (focusIn (m_label e)) (m_dummyLabel e) e.

(** ** More setters: [Edge::setArrowMode] and [Edge::setDashedLine] *)

Section WithTestMode.

Variable getNearestEdgePoints : Node -> Node -> EdgePoint * EdgePoint.

(** [TestMode::enabled()] is declared in common/test_mode.hpp, which is not
    under src/; the two setters are embedded for either answer.  What
    [TestMode::logDisabledCode] writes to the log is not part of the state. *)
Variable testModeEnabled : bool.

Definition setArrowMode (mode : ArrowMode) (e : Edge) : Edge :=
  let m := m_edgeModel e in
  let st := style m in
  let e :=
    with_edgeModel
      (mkEdgeModel (reversed m) (mkStyle mode (arrowSize st) (dashedLine st) (edgeWidth st)) (text m))
      e in
  if negb testModeEnabled then updateLine getNearestEdgePoints e else e.

Definition setDashedLine (enable : bool) (e : Edge) : Edge :=
  let m := m_edgeModel e in
  let st := style m in
  let e :=
    with_edgeModel
      (mkEdgeModel (reversed m) (mkStyle (arrowMode st) (arrowSize st) enable (edgeWidth st)) (text m))
      e in
  if negb testModeEnabled then updateLine getNearestEdgePoints e else e.

End WithTestMode.

(** ** More observations *)

(** Which of the four wing items are shown, and their pens. *)
Definition shownWings (e : Edge) : bool * bool * bool * bool :=
  (shown (m_arrowheadBeginLeft e), shown (m_arrowheadBeginRight e),
   shown (m_arrowheadEndLeft e), shown (m_arrowheadEndRight e)).

Definition wingPens (e : Edge) : QPen * QPen * QPen * QPen :=
  (pen (m_arrowheadBeginLeft e), pen (m_arrowheadBeginRight e),
   pen (m_arrowheadEndLeft e), pen (m_arrowheadEndRight e)).

Definition wingLines (e : Edge) : QLineF * QLineF * QLineF * QLineF :=
  (line (m_arrowheadBeginLeft e), line (m_arrowheadBeginRight e),
   line (m_arrowheadEndLeft e), line (m_arrowheadEndRight e)).

(** The position of a text item plus half its size: the point [updateLabel]
    puts on the midpoint of the segment. *)
Definition labelCentre (t : EdgeTextEdit) : QPointF :=
  (labelPos t + mkPoint (rw (labelBoundingRect t)) (rh (labelBoundingRect t)) * 0.5)%pt.

(** A scenario in which the target's nearest edge point is the target's own
    position. *)
Definition centreNearest (_ _ : Node) : EdgePoint * EdgePoint :=
  (mkEdgePoint (mkPoint 10 0) false, mkEdgePoint (mkPoint 0 0) false).

(** The scenario edge in arrow mode [Double]. *)
Definition doubleEdge : Edge :=
  with_line (setLine (mkLine (mkPoint 10 0) (mkPoint 89 0)) newLineItem)
    (Edge_new false (mkStyle Double 10 false 2) scenarioSource scenarioTarget true true).

(** Whether a text item, once [updateLabel] has put it on the midpoint of the
    segment [l], is in the scene and keeps clear of the two nodes. *)
Definition fitsOn (l : QLineF) (t : EdgeTextEdit) (source target : Node) : bool :=
  let r := translated (labelBoundingRect t) (labelPosFor l t) in
  labelInScene t
  && negb (intersects r (nodeSceneBoundingRect source))
  && negb (intersects r (nodeSceneBoundingRect target)).

(** * The serializer

    [src/editor/serializer.cpp].  Conventions of this part.
    - A node location is a pair of [double]s.  The serializer only
      multiplies, truncates and divides them, so they are embedded as they
      are: IEEE 754 binary64 numbers (primitive floats) with correctly
      rounded multiplication and division.  [static_cast<int>] truncates
      toward zero and is undefined when its operand is not finite or the
      truncated value is not an [int], which the embedding renders as [None].
    - A [QDomDocument] is a tree of elements (tag, attributes, children) and
      text nodes, built and read in memory.
    - The keywords of [Serializer::DataKeywords] and the application version
      are declared in headers that are not under src/; they are parameters.
    - [MindMapData::graph()] is taken as the sequence of its nodes in the
      order in which [writeNodes] iterates over them, and [Graph::addNode]
      appends to that sequence (graph.cpp is not under src/). *)

Module Serializer.

Import Floats.

Local Close Scope R_scope.
Local Open Scope string_scope.
Local Open Scope list_scope.
Local Open Scope Z_scope.

Definition INT_MIN : Z := - 2147483648.
Definition INT_MAX : Z := 2147483647.
Definition is_int (z : Z) : bool := (INT_MIN <=? z) && (z <=? INT_MAX).

(** [static const double SCALE = 1000]. *)
Definition SCALE : float := 1000%float.

(** A double is finite when it is neither an infinity nor a NaN. *)
Definition is_finite (f : float) : bool :=
  match Prim2SF f with
  | S754_zero _ | S754_finite _ _ _ => true
  | S754_infinity _ | S754_nan => false
  end.

(** The integral part of a finite double, toward zero: the double is
    [m * 2 ^ e] up to its sign. *)
Definition truncate (f : float) : Z :=
  match Prim2SF f with
  | S754_finite s m e =>
      let magnitude := if 0 <=? e then Zpos m * 2 ^ e else Z.quot (Zpos m) (2 ^ (- e)) in
      if s then - magnitude else magnitude
  | _ => 0
  end.

(** [static_cast<int>(double)]. *)
Definition double_to_int (f : float) : option Z :=
  if is_finite f && is_int (truncate f) then Some (truncate f) else None.

(** The conversion of an [int] to [double], which is exact. *)
Definition int_to_double (z : Z) : float :=
  if z <? 0 then (- of_uint63 (Uint63.of_Z (- z)))%float else of_uint63 (Uint63.of_Z z).

(** [QString::number(int)]: the decimal numeral, with a minus sign for a
    negative number. *)
Definition number (z : Z) : string := DecimalString.NilZero.string_of_int (Z.to_int z).

(** [QString::toInt]: the value of a decimal numeral that is an [int], and 0
    when the conversion fails.  Qt also accepts white space around the numeral
    and a leading plus sign, which this embedding reads as 0; the facts below
    rely on [toInt] only for the numerals that [number] writes. *)
Definition toInt (s : string) : Z :=
  match DecimalString.NilZero.int_of_string s with
  | Some d => if is_int (Z.of_int d) then Z.of_int d else 0
  | None => 0
  end.

(** ** The document *)

Inductive QDomNode : Type :=
| ElementNode (tag : string) (attributes : list (string * string)) (children : list QDomNode)
| TextNode (data : string).

(** A document holds its document element, if it has one. *)
Definition QDomDocument : Type := option QDomNode.

(** [QDomElement::setAttribute]: the value of an attribute of that name is
    replaced, otherwise the attribute is added. *)
Fixpoint setAttr (name value : string) (attrs : list (string * string)) : list (string * string) :=
  match attrs with
  | [] => [(name, value)]
  | (k, v) :: rest =>
      if String.eqb k name then (k, value) :: rest else (k, v) :: setAttr name value rest
  end.

Definition setAttribute (name value : string) (n : QDomNode) : QDomNode :=
  match n with
  | ElementNode t attrs cs => ElementNode t (setAttr name value attrs) cs
  | TextNode d => TextNode d
  end.

Fixpoint getAttr (name : string) (attrs : list (string * string)) : option string :=
  match attrs with
  | [] => None
  | (k, v) :: rest => if String.eqb k name then Some v else getAttr name rest
  end.

(** [QDomElement::attribute(name, defValue)]. *)
Definition attribute (name defValue : string) (n : QDomNode) : string :=
  match n with
  | ElementNode _ attrs _ =>
      match getAttr name attrs with
      | Some v => v
      | None => defValue
      end
  | TextNode _ => defValue
  end.

(** [QDomNode::appendChild]. *)
Definition appendChild (c : QDomNode) (n : QDomNode) : QDomNode :=
  match n with
  | ElementNode t attrs cs => ElementNode t attrs (cs ++ [c])
  | TextNode d => TextNode d
  end.

Definition childNodes (n : QDomNode) : list QDomNode :=
  match n with
  | ElementNode _ _ cs => cs
  | TextNode _ => []
  end.

Definition isElement (n : QDomNode) : bool :=
  match n with ElementNode _ _ _ => true | TextNode _ => false end.

Definition nodeName (n : QDomNode) : string :=
  match n with ElementNode t _ _ => t | TextNode _ => "#text" end.

(** [doc.createElement(tag)]. *)
Definition createElement (tag : string) : QDomNode := ElementNode tag [] [].

(** ** The mind map *)

(** [NodeBase]: index, location and text. *)
Record NodeBase : Type := mkNodeBase {
  index : Z;
  location_x : float;
  location_y : float;
  nodeText : string
}.

(** A default-constructed node, before [readNode] fills it in. *)
Definition newNodeBase : NodeBase := mkNodeBase (-1) 0%float 0%float "".

Record MindMapData : Type := mkMindMapData {
  version : string;
  graph : list NodeBase
}.

Section Keywords.

Variables DESIGN APPLICATION_VERSION NODE INDEX X Y TEXT : string.
(** [Config::APPLICATION_VERSION]. *)
Variable CONFIG_APPLICATION_VERSION : string.

(** The element [writeNodes] appends to the root for one node; undefined
    when a scaled coordinate is not an [int]. *)
Definition writeNode (n : NodeBase) : option QDomNode :=
  match double_to_int (location_x n * SCALE)%float,
        double_to_int (location_y n * SCALE)%float with
  | Some xi, Some yi =>
      let nodeElement := createElement NODE in
      let nodeElement := setAttribute INDEX (number (index n)) nodeElement in
      let nodeElement := setAttribute X (number xi) nodeElement in
      let nodeElement := setAttribute Y (number yi) nodeElement in
      let textElement := createElement TEXT in
      let textElement := appendChild (TextNode (nodeText n)) textElement in
      Some (appendChild textElement nodeElement)
  | _, _ => None
  end.

(** [writeNodes]. *)
Fixpoint writeNodes (nodes : list NodeBase) (root : QDomNode) : option QDomNode :=
  match nodes with
  | [] => Some root
  | n :: rest =>
      match writeNode n with
      | Some nodeElement => writeNodes rest (appendChild nodeElement root)
      | None => None
      end
  end.

(** [readFirstTextNodeContent]. *)
Fixpoint firstText (cs : list QDomNode) : string :=
  match cs with
  | [] => ""
  | TextNode d :: _ => d
  | ElementNode _ _ _ :: rest => firstText rest
  end.

Definition readFirstTextNodeContent (element : QDomNode) : string :=
  firstText (childNodes element).

(** The loop of [readNode] over the children of the node element. *)
Fixpoint readText (cs : list QDomNode) (current : string) : string :=
  match cs with
  | [] => current
  | child :: rest =>
      if isElement child && String.eqb (nodeName child) TEXT
      then readText rest (readFirstTextNodeContent child)
      else readText rest current
  end.

(** [readNode]. *)
Definition readNode (element : QDomNode) : NodeBase :=
  mkNodeBase
    (toInt (attribute INDEX "-1" element))
    (int_to_double (toInt (attribute X "0" element)) / SCALE)%float
    (int_to_double (toInt (attribute Y "0" element)) / SCALE)%float
    (readText (childNodes element) (nodeText newNodeBase)).

(** The loop of [Serializer::fromXml] over the children of the root. *)
Fixpoint readNodes (cs : list QDomNode) (g : list NodeBase) : list NodeBase :=
  match cs with
  | [] => g
  | domNode :: rest =>
      if isElement domNode && String.eqb (nodeName domNode) NODE
      then readNodes rest (g ++ [readNode domNode])
      else readNodes rest g
  end.

(** [Serializer::fromXml]. *)
Definition fromXml (document : QDomDocument) : MindMapData :=
  match document with
  | Some root =>
      mkMindMapData (attribute APPLICATION_VERSION "UNDEFINED" root)
                    (readNodes (childNodes root) [])
  | None => mkMindMapData "UNDEFINED" []
  end.

(** [Serializer::toXml]. *)
Definition toXml (m_mindMapData : MindMapData) : option QDomDocument :=
  let root := createElement DESIGN in
  let root := setAttribute APPLICATION_VERSION CONFIG_APPLICATION_VERSION root in
  match writeNodes (graph m_mindMapData) root with
  | Some root' => Some (Some root')
  | None => None
  end.

End Keywords.

(** ** What a round trip restores *)

(** A coordinate after [toXml] and [fromXml]. *)
Definition restored (x : float) : float :=
  (int_to_double (truncate (x * SCALE)) / SCALE)%float.

(** A node after [toXml] and [fromXml]. *)
Definition restoredNode (n : NodeBase) : NodeBase :=
  mkNodeBase (index n) (restored (location_x n)) (restored (location_y n)) (nodeText n).

(** The casts of both scaled coordinates of the node are defined. *)
Definition castable (n : NodeBase) : bool :=
  match double_to_int (location_x n * SCALE)%float,
        double_to_int (location_y n * SCALE)%float with
  | Some _, Some _ => true
  | _, _ => false
  end.

(** The double for [k] thousandths, as [readNode] computes it. *)
Definition thousandths (k : Z) : float := (int_to_double k / SCALE)%float.

(** ** The same computation in exact arithmetic

    For comparison: the number a finite double stands for, and the
    coordinate that scaling, truncating and dividing would give without
    rounding. *)

Definition value (f : float) : Q :=
  match Prim2SF f with
  | S754_finite s m e =>
      let magnitude := if 0 <=? e then inject_Z (Zpos m * 2 ^ e)
                       else Qmake (Zpos m) (Z.to_pos (2 ^ (- e))) in
      if s then (- magnitude)%Q else magnitude
  | _ => 0%Q
  end.

Definition exact_truncate (q : Q) : Z := Z.quot (Qnum q) (Zpos (Qden q)).

Definition exact_restored (q : Q) : Q := (inject_Z (exact_truncate (q * (1000 # 1))) / (1000 # 1))%Q.

(** A mind map of four nodes; 1.2345 and -2.0009 are not multiples of
    1/1000, the other coordinates are decimal multiples of 1/1000. *)
Definition sampleMindMap : MindMapData :=
  mkMindMapData "0.0.0"
    [ mkNodeBase 0 (int_to_double 12345 / 10000)%float (int_to_double (- 20009) / 10000)%float
                 "Root";
      mkNodeBase 1 3%float (thousandths 1) "";
      mkNodeBase 7 (-2.5)%float 0%float "Idea";
      mkNodeBase 8 (thousandths 1001) 0.5%float "Drift" ].

(** ** What [fromXml] looks at *)

(** The test of [fromXml] and [readNode] on a child: an element of the given
    name. *)
Definition isElementNamed (name : string) (c : QDomNode) : bool :=
  isElement c && String.eqb (nodeName c) name.

(** A node element as [toXml] writes it, followed by a comment-like text node
    and an element of another name. *)
Definition sampleChildren : list QDomNode :=
  [ ElementNode "node" [("index", "4"); ("x", "1500"); ("y", "-250")]
      [ ElementNode "text" [] [TextNode "first"];
        ElementNode "text" [] [ElementNode "b" [] []; TextNode "second"; TextNode "third"];
        ElementNode "image" [] [] ];
    TextNode "stray";
    ElementNode "edge" [] [] ].

(** The element [writeNodes] appends for a node, when both casts are defined
    and the three attribute names differ (used in statements). *)
Definition nodeElement (NODE INDEX X Y TEXT : string) (n : NodeBase) : QDomNode :=
  ElementNode NODE
    [(INDEX, number (index n));
     (X, number (truncate (location_x n * SCALE)%float));
     (Y, number (truncate (location_y n * SCALE)%float))]
    [ElementNode TEXT [] [TextNode (nodeText n)]].

End Serializer.

(** * The grid

    [src/grid.cpp].  Conventions of this part.
    - As for the edge, a [double] is idealised as a real number; [m_size] is
      an [int].  The facts of this part are those that do not turn on
      rounding: the symmetry of the snapping and the loops for a negative
      size.  [QRectF::left], [top], [right] and [bottom] are [x()], [y()],
      [x() + width()] and [y() + height()].
    - [m_lines] is a [mutable] member that [calculateLines] rebuilds and
      returns; the grid is passed from state to state.
    - A [while] loop is a recursion on [fuel], a bound on the number of its
      iterations; [None] stands for a loop that has not come to its end
      within that bound. *)

Module Grid.

(** [std::round]: the nearest integer, halfway cases away from zero. *)
Definition round (x : R) : R :=
  if Rle_dec 0 x then IZR (Int_part (x + / 2)) else - IZR (Int_part (- x + / 2)).

Definition rect_left (r : QRectF) : R := rx r.
Definition rect_top (r : QRectF) : R := ry r.
Definition rect_right (r : QRectF) : R := rx r + rw r.
Definition rect_bottom (r : QRectF) : R := ry r + rh r.

(** [QLineF { x1, y1, x2, y2 }]. *)
Definition lineOf (x1 y1 x2 y2 : R) : QLineF := mkLine (mkPoint x1 y1) (mkPoint x2 y2).

Record Grid : Type := mkGrid { m_size : Z; m_lines : list QLineF }.

(** [Grid::setSize], [Grid::size]. *)
Definition setSize (size : Z) (g : Grid) : Grid := mkGrid size (m_lines g).
Definition size (g : Grid) : Z := m_size g.

(** [Grid::snapToGrid]. *)
Definition snapToGrid (g : Grid) (p : QPointF) : QPointF :=
  if Z.eqb (m_size g) 0 then p
  else mkPoint (round (px p / IZR (m_size g)) * IZR (m_size g))
               (round (py p / IZR (m_size g)) * IZR (m_size g)).

(** The loop of [calculateLines] for the vertical lines, from [x] on. *)
Fixpoint verticalLines (fuel : nat) (m_size : Z) (sceneRect : QRectF) (x : R)
    (m_lines : list QLineF) {struct fuel} : option (list QLineF) :=
  if Rlt_b x (rect_right sceneRect) then
    match fuel with
    | O => None
    | S fuel' =>
        verticalLines fuel' m_size sceneRect (x + IZR m_size)
          (m_lines ++ [lineOf x (rect_top sceneRect) x (rect_bottom sceneRect)])
    end
  else Some m_lines.

(** The loop for the horizontal lines, from [y] on. *)
Fixpoint horizontalLines (fuel : nat) (m_size : Z) (sceneRect : QRectF) (y : R)
    (m_lines : list QLineF) {struct fuel} : option (list QLineF) :=
  if Rlt_b y (rect_bottom sceneRect) then
    match fuel with
    | O => None
    | S fuel' =>
        horizontalLines fuel' m_size sceneRect (y + IZR m_size)
          (m_lines ++ [lineOf (rect_left sceneRect) y (rect_right sceneRect) y])
    end
  else Some m_lines.

(** [Grid::calculateLines]: the grid with the lines it returns in [m_lines]. *)
Definition calculateLines (fuel : nat) (sceneRect : QRectF) (g : Grid) : option Grid :=
  let lines : list QLineF := [] in
  if negb (Z.eqb (m_size g) 0) then
    let x := px (snapToGrid g (mkPoint (rect_left sceneRect) (rect_top sceneRect))) in
    match verticalLines fuel (m_size g) sceneRect x lines with
    | Some lines =>
        let y := py (snapToGrid g (mkPoint (rect_left sceneRect) (rect_top sceneRect))) in
        match horizontalLines fuel (m_size g) sceneRect y lines with
        | Some lines => Some (mkGrid (m_size g) lines)
        | None => None
        end
    | None => None
    end
  else Some (mkGrid (m_size g) lines).

End Grid.


(** * The arithmetic of the edge, bit for bit

    The real numbers of the edge part idealise rounding.  Where a statement
    turns on rounding (the length of the offsets of [updateLine], the
    comparison of [updateDots], the absence of NaN), the arithmetic of the
    source is embedded as it is.  Conventions of this part.
    - A [double] ([qreal]) is an IEEE 754 binary64 number (a primitive
      float).  A [float] is a binary32 number, kept as the binary64 number
      of the same value; [to_float] is the conversion to the nearest
      binary32 number, ties to even, and an operation on [float]s is the
      binary64 operation followed by [to_float] (expressions are evaluated
      in the precision of their type).
    - The Qt value classes follow Qt 5: [QVector2D] holds two [float]s and
      [QVector2D::normalize] computes the squared length in [double], does
      nothing when it is fuzzily 1 or fuzzily 0, and otherwise divides in
      [double] and converts back to [float].
    - [Node::getNearestEdgePoints], [Node::pos] and [Node::cornerRadius] are
      not under src/: [computeLine] takes the pair of edge points and two
      nodes with a position and a corner radius (a [double]; an [int] of
      less than 25 bits is one).
    - Qt's [operator!=] on [QPointF] is a fuzzy comparison whose
      implementation changed between versions; [updateDots] is embedded for
      any such comparison, and both of Qt's are given. *)

Module Binary.

Import Floats.

Local Close Scope R_scope.
Local Open Scope float_scope.

(** [static_cast<float>] of a [double]. *)
Definition to_float (d : float) : float :=
  match Prim2SF d with
  | S754_finite s m e => SF2Prim (binary_round 24 128 s m e)
  | _ => d
  end.

(** Neither an infinity nor NaN. *)
Definition is_finite (d : float) : bool :=
  match Prim2SF d with
  | S754_zero _ | S754_finite _ _ _ => true
  | S754_infinity _ | S754_nan => false
  end.


(** [qFuzzyIsNull(double)], [qMin] and [qFuzzyCompare(double, double)]. *)
Definition qFuzzyIsNull (d : float) : bool := abs d <=? 0.000000000001.



(** ** QPointF, QLineF and QVector2D *)

Record QPointF : Type := mkPoint { px : float; py : float }.

Definition padd (a b : QPointF) : QPointF := mkPoint (px a + px b) (py a + py b).
Definition psub (a b : QPointF) : QPointF := mkPoint (px a - px b) (py a - py b).
(** [QPointF * qreal] and [qreal * QPointF]. *)
Definition pscale (a : QPointF) (c : float) : QPointF := mkPoint (px a * c) (py a * c).

Record QLineF : Type := mkLine { p1 : QPointF; p2 : QPointF }.

(** [QLineF::dx], [QLineF::dy]. *)
Definition line_dx (l : QLineF) : float := px (p2 l) - px (p1 l).
Definition line_dy (l : QLineF) : float := py (p2 l) - py (p1 l).

(** The two components of a [QVector2D] are [float]s. *)
Record QVector2D : Type := mkVec { vx : float; vy : float }.

(** [QVector2D(const QPointF &)]. *)
Definition QVector2D_of (p : QPointF) : QVector2D := mkVec (to_float (px p)) (to_float (py p)).
(** [QVector2D::toPointF]. *)
Definition toPointF (v : QVector2D) : QPointF := mkPoint (vx v) (vy v).
(** [QVector2D * float]: two products of [float]s. *)
Definition vscale (v : QVector2D) (factor : float) : QVector2D :=
  mkVec (to_float (vx v * factor)) (to_float (vy v * factor)).

(** The squared length as [QVector2D::normalize] computes it, in [double]. *)
Definition lengthSquared (v : QVector2D) : float := vx v * vx v + vy v * vy v.

(** [QVector2D::normalize]. *)
Definition normalize (v : QVector2D) : QVector2D :=
  let len := lengthSquared v in
  if qFuzzyIsNull (len - 1) || qFuzzyIsNull len then v
  else
    let len := sqrt len in
    mkVec (to_float (vx v / len)) (to_float (vy v / len)).

(** ** The segment of [Edge::updateLine] *)

Record Node : Type := mkNode { pos : QPointF; cornerRadius : float }.

Record EdgePoint : Type := mkEdgePoint { location : QPointF; isCorner : bool }.

Definition widthScale : float := 0.5.
Definition cornerRadiusScale : float := 0.3.

(** [nearestPoints.second.location + targetNode().pos()] and the like. *)
Definition anchor (point : EdgePoint) (node : Node) : QPointF :=
  padd (location point) (pos node).

(** [direction1], [direction2]. *)
Definition direction (point : EdgePoint) (node : Node) : QVector2D :=
  normalize (QVector2D_of (psub (pos node) (anchor point node))).

(** The term added to an anchor for its corner. *)
Definition cornerNudge (point : EdgePoint) (node : Node) : QPointF :=
  if isCorner point
  then pscale (toPointF (vscale (direction point node) (to_float (cornerRadius node))))
              cornerRadiusScale
  else mkPoint 0 0.

(** The line [updateLine] hands to [m_line->setLine]. *)
Definition computeLine (nearestPoints : EdgePoint * EdgePoint) (sourceNode targetNode : Node)
    (edgeWidth : float) : QLineF :=
  let p1 := anchor (fst nearestPoints) sourceNode in
  let direction1 := direction (fst nearestPoints) sourceNode in
  let p2 := anchor (snd nearestPoints) targetNode in
  let direction2 := direction (snd nearestPoints) targetNode in
  mkLine
    (padd p1 (cornerNudge (fst nearestPoints) sourceNode))
    (psub (padd p2 (cornerNudge (snd nearestPoints) targetNode))
          (pscale (toPointF (vscale direction2 (to_float edgeWidth))) widthScale)).

(** ** The dots of [Edge::updateDots] *)




(** What [updateDots] reads and writes. *)
Record Dots : Type := mkDots {
  m_sourceDot : QPointF;
  m_targetDot : QPointF;
  m_sourceDotSizeAnimation : Animation;
  m_targetDotSizeAnimation : Animation;
  m_previousRelativeSourcePos : QPointF;
  m_previousRelativeTargetPos : QPointF
}.

Section Dots.

(** [operator!=] of [QPointF]. *)
Variable differ : QPointF -> QPointF -> bool.

(** [Edge::updateDots] for the segment [l] and the positions of the nodes. *)
Definition updateDots (m_enableAnimations : bool) (l : QLineF) (sourcePos targetPos : QPointF)
    (d : Dots) : Dots :=
  if m_enableAnimations then
    let newRelativeSourcePos := psub (p1 l) sourcePos in
    let srcChanged := differ (m_previousRelativeSourcePos d) newRelativeSourcePos in
    let newRelativeTargetPos := psub (p2 l) targetPos in
    let tgtChanged := differ (m_previousRelativeTargetPos d) newRelativeTargetPos in
    mkDots
      (p1 l) (p2 l)
      (if srcChanged then anim_start (anim_stop (m_sourceDotSizeAnimation d))
       else m_sourceDotSizeAnimation d)
      (if tgtChanged then anim_start (anim_stop (m_targetDotSizeAnimation d))
       else m_targetDotSizeAnimation d)
      (if srcChanged then newRelativeSourcePos else m_previousRelativeSourcePos d)
      (if tgtChanged then newRelativeTargetPos else m_previousRelativeTargetPos d)
  else d.

End Dots.

(** ** Exact values *)



(** ** Scenarios *)

(** The scenario of the spec (section 8): nodes at (0,0) and (100,0) with
    corner radius 0, the nearest edge points 10 beside the positions. *)
Definition scenarioSource : Node := mkNode (mkPoint 0 0) 0.
Definition scenarioTarget : Node := mkNode (mkPoint 100 0) 0.
Definition scenarioNearest : EdgePoint * EdgePoint :=
  (mkEdgePoint (mkPoint 10 0) false, mkEdgePoint (mkPoint (-10) 0) false).



(** Corner scenarios: the source has corner radius 2 and its nearest edge
    point is its corner (10,5); or it has corner radius 3 and the corner flag
    is set for the point (10,0). *)
Definition cornerSource : Node := mkNode (mkPoint 0 0) 2.
Definition cornerNearest : EdgePoint * EdgePoint :=
  (mkEdgePoint (mkPoint 10 5) true, mkEdgePoint (mkPoint (-10) 0) false).




(** The target's nearest edge point at the target's own position. *)
Definition centreNearest : EdgePoint * EdgePoint :=
  (mkEdgePoint (mkPoint 10 0) false, mkEdgePoint (mkPoint 0 0) true).




End Binary.

(** * The grid, bit for bit

    [src/grid.cpp] once more, with the [double]s as binary64 numbers, for
    what turns on rounding.  [m_size] is an [int], converted to [double]
    where the source divides, multiplies and adds; [std::round] rounds to the
    nearest integer, halfway cases away from zero. *)

Module BinaryGrid.

Import Floats.

Local Close Scope R_scope.
Local Open Scope float_scope.

(** [std::round(double)].  A finite number with a negative exponent [e] has
    its integer part in the bits of the mantissa from [-e] on and its first
    fractional bit at [-e - 1]; other numbers are integers, infinite or
    NaN. *)
Definition round (x : float) : float :=
  match Prim2SF x with
  | S754_finite s m e =>
      if (0 <=? e)%Z then x
      else
        let q := Z.shiftr (Zpos m) (- e) in
        let n := if Z.testbit (Zpos m) (- e - 1) then (q + 1)%Z else q in
        let r := of_uint63 (Uint63.of_Z n) in
        if s then - r else r
  | _ => x
  end.

Record QRectF : Type := mkRect { rx : float; ry : float; rw : float; rh : float }.

Definition rect_left (r : QRectF) : float := rx r.
Definition rect_top (r : QRectF) : float := ry r.
Definition rect_right (r : QRectF) : float := rx r + rw r.
Definition rect_bottom (r : QRectF) : float := ry r + rh r.

(** [QLineF { x1, y1, x2, y2 }]. *)
Definition lineOf (x1 y1 x2 y2 : float) : Binary.QLineF :=
  Binary.mkLine (Binary.mkPoint x1 y1) (Binary.mkPoint x2 y2).

Record Grid : Type := mkGrid { m_size : Z; m_lines : list Binary.QLineF }.

(** [Grid::snapToGrid]. *)
Definition snapToGrid (g : Grid) (p : Binary.QPointF) : Binary.QPointF :=
  if Z.eqb (m_size g) 0 then p
  else
    let s := Serializer.int_to_double (m_size g) in
    Binary.mkPoint (round (Binary.px p / s) * s) (round (Binary.py p / s) * s).

(** The loop of [calculateLines] for the vertical lines, from [x] on; [None]
    stands for a loop that has not come to its end within [fuel]
    iterations. *)
Fixpoint verticalLines (fuel : nat) (m_size : Z) (sceneRect : QRectF) (x : float)
    (m_lines : list Binary.QLineF) {struct fuel} : option (list Binary.QLineF) :=
  if x <? rect_right sceneRect then
    match fuel with
    | O => None
    | S fuel' =>
        verticalLines fuel' m_size sceneRect (x + Serializer.int_to_double m_size)
          (m_lines ++ [lineOf x (rect_top sceneRect) x (rect_bottom sceneRect)])
    end
  else Some m_lines.

(** The loop for the horizontal lines, from [y] on. *)
Fixpoint horizontalLines (fuel : nat) (m_size : Z) (sceneRect : QRectF) (y : float)
    (m_lines : list Binary.QLineF) {struct fuel} : option (list Binary.QLineF) :=
  if y <? rect_bottom sceneRect then
    match fuel with
    | O => None
    | S fuel' =>
        horizontalLines fuel' m_size sceneRect (y + Serializer.int_to_double m_size)
          (m_lines ++ [lineOf (rect_left sceneRect) y (rect_right sceneRect) y])
    end
  else Some m_lines.

(** [Grid::calculateLines]: the grid with the lines it returns in [m_lines]. *)
Definition calculateLines (fuel : nat) (sceneRect : QRectF) (g : Grid) : option Grid :=
  let lines : list Binary.QLineF := [] in
  if negb (Z.eqb (m_size g) 0) then
    let x := Binary.px (snapToGrid g (Binary.mkPoint (rect_left sceneRect) (rect_top sceneRect))) in
    match verticalLines fuel (m_size g) sceneRect x lines with
    | Some lines =>
        let y :=
          Binary.py (snapToGrid g (Binary.mkPoint (rect_left sceneRect) (rect_top sceneRect))) in
        match horizontalLines fuel (m_size g) sceneRect y lines with
        | Some lines => Some (mkGrid (m_size g) lines)
        | None => None
        end
    | None => None
    end
  else Some (mkGrid (m_size g) lines).

End BinaryGrid.


(** * Facts and claims: the edge *)

(** ** Facts about the tests on reals and about points *)

Lemma Rlt_b_true x y : Rlt_b x y = true <-> x < y.
Proof. unfold Rlt_b; destruct (Rlt_dec x y); split; intros; try easy. Qed.

Lemma Rlt_b_false x y : Rlt_b x y = false <-> y <= x.
Proof.
  unfold Rlt_b; destruct (Rlt_dec x y); split; intros; try easy; lra.
Qed.

Lemma Rle_b_true x y : Rle_b x y = true <-> x <= y.
Proof. unfold Rle_b; destruct (Rle_dec x y); split; intros; try easy. Qed.

Lemma Rle_b_false x y : Rle_b x y = false <-> y < x.
Proof.
  unfold Rle_b; destruct (Rle_dec x y); split; intros; try easy; lra.
Qed.

Lemma Req_b_true x y : Req_b x y = true <-> x = y.
Proof. unfold Req_b; destruct (Req_dec_T x y); split; intros; try easy. Qed.

Lemma Req_b_false x y : Req_b x y = false <-> x <> y.
Proof. unfold Req_b; destruct (Req_dec_T x y); split; intros; try easy. Qed.

Lemma Req_b_refl x : Req_b x x = true.
Proof. now apply Req_b_true. Qed.

Lemma point_ext (a b : QPointF) : px a = px b -> py a = py b -> a = b.
Proof. destruct a, b; simpl; intros -> ->; reflexivity. Qed.

Lemma point_eqb_true a b : point_eqb a b = true <-> a = b.
Proof.
  unfold point_eqb; rewrite andb_true_iff, !Req_b_true; split.
  - intros [Hx Hy]; now apply point_ext.
  - intros ->; split; reflexivity.
Qed.

Lemma point_neqb_true a b : point_neqb a b = true <-> a <> b.
Proof.
  unfold point_neqb; rewrite negb_true_iff, <- not_true_iff_false, point_eqb_true.
  reflexivity.
Qed.

Lemma point_neqb_false a b : point_neqb a b = false <-> a = b.
Proof. unfold point_neqb; rewrite negb_false_iff; apply point_eqb_true. Qed.

(** ** Facts about the Qt value classes *)

Lemma hyp_scaled (x y : R) :
  0 < x -> sqrt (x * x + y * y) = x * sqrt (1 + (y / x)²).
Proof.
  intros Hx.
  replace (x * x + y * y) with ((x * x) * (1 + (y / x)²))
    by (unfold Rsqr; field; lra).
  rewrite sqrt_mult; [ | nra | unfold Rsqr; nra ].
  rewrite sqrt_square by lra.
  reflexivity.
Qed.

Lemma sqrt_one_plus_sqr_pos (t : R) : 0 < sqrt (1 + t²).
Proof. apply sqrt_lt_R0; unfold Rsqr; nra. Qed.

Lemma atan_quotient_pos (y x : R) :
  0 < x ->
  cos (atan (y / x)) = x / sqrt (x * x + y * y) /\
  sin (atan (y / x)) = y / sqrt (x * x + y * y).
Proof.
  intros Hx.
  pose proof (sqrt_one_plus_sqr_pos (y / x)) as Hs.
  rewrite cos_atan, sin_atan, (hyp_scaled x y Hx).
  split; field; lra.
Qed.

Lemma atan_quotient_neg (y x : R) :
  x < 0 ->
  cos (atan (y / x)) = - x / sqrt (x * x + y * y) /\
  sin (atan (y / x)) = - y / sqrt (x * x + y * y).
Proof.
  intros Hx.
  destruct (atan_quotient_pos (- y) (- x) ltac:(lra)) as [Hc Hs].
  replace (- y / - x) with (y / x) in Hc, Hs by (field; lra).
  replace (- x * - x + - y * - y) with (x * x + y * y) in Hc, Hs by ring.
  split; assumption.
Qed.

(** [atan2 y x] is the polar angle of the point [(x, y)]. *)
Lemma atan2_polar (y x : R) :
  x <> 0 \/ y <> 0 ->
  cos (atan2 y x) = x / sqrt (x * x + y * y) /\
  sin (atan2 y x) = y / sqrt (x * x + y * y).
Proof.
  intros Hnz. unfold atan2.
  destruct (Rlt_dec 0 x) as [Hx | Hx].
  - now apply atan_quotient_pos.
  - destruct (Rlt_dec x 0) as [Hx' | Hx'].
    + destruct (atan_quotient_neg y x Hx') as [Hc Hs].
      assert (Hr : 0 < sqrt (x * x + y * y)) by (apply sqrt_lt_R0; nra).
      destruct (Rle_dec 0 y).
      * rewrite neg_cos, neg_sin, Hc, Hs; split; field; lra.
      * unfold Rminus. rewrite cos_plus, sin_plus, cos_neg, sin_neg, cos_PI, sin_PI, Hc, Hs.
        split; field; lra.
    + assert (x = 0) by lra; subst x.
      replace (0 * 0 + y * y) with (y * y) by ring.
      destruct (Rlt_dec 0 y) as [Hy | Hy].
      * rewrite cos_PI2, sin_PI2, sqrt_square by lra. split; field; lra.
      * destruct (Rlt_dec y 0) as [Hy' | Hy'].
        -- rewrite cos_neg, sin_neg, cos_PI2, sin_PI2.
           replace (y * y) with (- y * - y) by ring.
           rewrite sqrt_square by lra. split; field; lra.
        -- exfalso; destruct Hnz; lra.
Qed.


(** In radians, [- angle()] is the polar angle of [p2 - p1] in scene coordinates,
    up to a full turn. *)
Lemma line_angle_radians (l : QLineF) :
  qDegreesToRadians (- line_angle l) = - atan2 (- line_dy l) (line_dx l) \/
  qDegreesToRadians (- line_angle l) = - atan2 (- line_dy l) (line_dx l) - 2 * PI.
Proof.
  unfold line_angle, qDegreesToRadians.
  pose proof PI_RGT_0 as Hpi.
  destruct (Rlt_dec _ 0); [ right | left ]; field; lra.
Qed.

Lemma cos_minus_2PI (x : R) : cos (x - 2 * PI) = cos x.
Proof.
  unfold Rminus. rewrite cos_plus, cos_neg, sin_neg, cos_2PI, sin_2PI. ring.
Qed.

Lemma sin_minus_2PI (x : R) : sin (x - 2 * PI) = sin x.
Proof.
  unfold Rminus. rewrite sin_plus, cos_neg, sin_neg, cos_2PI, sin_2PI. ring.
Qed.

(** The unit vector along a line of non-zero length is
    [(cos a, sin a)] for [a = qDegreesToRadians (- angle())]. *)
Lemma line_direction (l : QLineF) :
  p1 l <> p2 l ->
  cos (qDegreesToRadians (- line_angle l)) = line_dx l / line_length l /\
  sin (qDegreesToRadians (- line_angle l)) = line_dy l / line_length l.
Proof.
  intros Hne.
  assert (Hnz : line_dx l <> 0 \/ - line_dy l <> 0).
  { destruct (Req_dec (line_dx l) 0) as [Hx | Hx]; [ | now left ].
    destruct (Req_dec (line_dy l) 0) as [Hy | Hy]; [ | right; lra ].
    exfalso; apply Hne; unfold line_dx, line_dy in *; apply point_ext; lra. }
  destruct (atan2_polar _ _ Hnz) as [Hc Hs].
  replace (line_dx l * line_dx l + - line_dy l * - line_dy l)
    with (line_dx l * line_dx l + line_dy l * line_dy l) in Hc, Hs by ring.
  fold (line_dx l) (line_dy l) in Hc, Hs.
  unfold line_length, dist. fold (line_dx l) (line_dy l).
  destruct (line_angle_radians l) as [-> | ->];
    rewrite ?cos_minus_2PI, ?sin_minus_2PI, cos_neg, sin_neg, Hc, Hs;
    split; unfold Rdiv; ring.
Qed.


(** The vector [(cos a, sin a) * size] has length [|size|]. *)
Lemma wingTip_dist (b : QPointF) (a size : R) : dist b (wingTip b a size) = Rabs size.
Proof.
  unfold dist, wingTip; simpl.
  replace ((px b + cos a * size - px b) * (px b + cos a * size - px b)
           + (py b + sin a * size - py b) * (py b + sin a * size - py b))
    with (((sin a)² + (cos a)²) * (size * size)) by (unfold Rsqr; ring).
  rewrite sin2_cos2, Rmult_1_l.
  apply sqrt_Rsqr_abs.
Qed.

(** Normalisation. *)
Lemma normalize_null (v : QVector2D) : lengthSquared v = 0 -> normalize v = v.
Proof. intros H; unfold normalize; destruct (Req_dec_T _ _); [ reflexivity | contradiction ]. Qed.

Lemma lengthSquared_null (v : QVector2D) : lengthSquared v = 0 -> v = mkVec 0 0.
Proof.
  destruct v as [a b]; unfold lengthSquared; simpl; intros H.
  assert (a = 0) by nra. assert (b = 0) by nra. subst; reflexivity.
Qed.

Lemma normalize_unit (v : QVector2D) : lengthSquared v <> 0 -> vlength (normalize v) = 1.
Proof.
  intros H; unfold normalize; destruct (Req_dec_T _ _); [ contradiction | ].
  assert (Hpos : 0 < lengthSquared v).
  { unfold lengthSquared in *. nra. }
  assert (Hl : 0 < vlength v) by (apply sqrt_lt_R0; exact Hpos).
  unfold vlength at 1, lengthSquared at 1; simpl.
  replace (vx v / vlength v * (vx v / vlength v) + vy v / vlength v * (vy v / vlength v))
    with (lengthSquared v / (vlength v * vlength v))
    by (unfold lengthSquared; field; lra).
  unfold vlength. rewrite sqrt_sqrt by lra.
  replace (lengthSquared v / lengthSquared v) with 1 by (field; lra).
  apply sqrt_1.
Qed.

Lemma normalize_x_pos (a : R) : 0 < a -> normalize (mkVec a 0) = mkVec 1 0.
Proof.
  intros Ha. unfold normalize, vlength, lengthSquared; simpl.
  destruct (Req_dec_T _ _) as [H | _]; [ nra | ].
  replace (a * a + 0 * 0) with (a * a) by ring.
  rewrite sqrt_square by lra.
  f_equal; field; lra.
Qed.

Lemma normalize_x_neg (a : R) : a < 0 -> normalize (mkVec a 0) = mkVec (-1) 0.
Proof.
  intros Ha. unfold normalize, vlength, lengthSquared; simpl.
  destruct (Req_dec_T _ _) as [H | _]; [ nra | ].
  replace (a * a + 0 * 0) with (- a * - a) by ring.
  rewrite sqrt_square by lra.
  f_equal; field; lra.
Qed.

(** ** Frame lemmas: what each step leaves alone *)

Lemma setLabelVisible_frame v r e :
  let e' := setLabelVisible v r e in
  m_edgeModel e' = m_edgeModel e /\ m_sourceNode e' = m_sourceNode e /\
  m_targetNode e' = m_targetNode e /\ m_line e' = m_line e /\
  m_enableLabel e' = m_enableLabel e /\ m_enableAnimations e' = m_enableAnimations e /\
  m_arrowheadBeginLeft e' = m_arrowheadBeginLeft e /\
  m_arrowheadBeginRight e' = m_arrowheadBeginRight e /\
  m_arrowheadEndLeft e' = m_arrowheadEndLeft e /\
  m_arrowheadEndRight e' = m_arrowheadEndRight e /\
  m_previousRelativeSourcePos e' = m_previousRelativeSourcePos e /\
  m_previousRelativeTargetPos e' = m_previousRelativeTargetPos e /\
  m_sourceDotSizeAnimation e' = m_sourceDotSizeAnimation e /\
  m_targetDotSizeAnimation e' = m_targetDotSizeAnimation e /\
  m_labelVisibilityTimer e' = m_labelVisibilityTimer e.
Proof.
  unfold setLabelVisible.
  destruct (m_enableLabel e) eqn:?, r, v; simpl;
    try destruct (timeoutHides e); simpl; repeat split; auto.
Qed.

Lemma updateLabel_frame r e :
  let e' := updateLabel r e in
  m_edgeModel e' = m_edgeModel e /\ m_sourceNode e' = m_sourceNode e /\
  m_targetNode e' = m_targetNode e /\ m_line e' = m_line e /\
  m_enableLabel e' = m_enableLabel e /\ m_enableAnimations e' = m_enableAnimations e /\
  m_arrowheadBeginLeft e' = m_arrowheadBeginLeft e /\
  m_arrowheadBeginRight e' = m_arrowheadBeginRight e /\
  m_arrowheadEndLeft e' = m_arrowheadEndLeft e /\
  m_arrowheadEndRight e' = m_arrowheadEndRight e /\
  m_previousRelativeSourcePos e' = m_previousRelativeSourcePos e /\
  m_previousRelativeTargetPos e' = m_previousRelativeTargetPos e /\
  m_sourceDotSizeAnimation e' = m_sourceDotSizeAnimation e /\
  m_targetDotSizeAnimation e' = m_targetDotSizeAnimation e.
Proof.
  unfold updateLabel.
  destruct (m_enableLabel e) eqn:He; [ | simpl; rewrite ?He; repeat split; auto ].
  destruct r; simpl; [ rewrite ?He; repeat split; auto | ].
  match goal with
  | |- context [ setLabelVisible ?v ?r ?x ] =>
      pose proof (setLabelVisible_frame v r x) as H; simpl in H
  end.
  repeat match goal with H : _ /\ _ |- _ => destruct H end.
  repeat split; congruence.
Qed.

Lemma updateDots_frame e :
  let e' := updateDots e in
  m_edgeModel e' = m_edgeModel e /\ m_sourceNode e' = m_sourceNode e /\
  m_targetNode e' = m_targetNode e /\ m_line e' = m_line e /\
  m_enableLabel e' = m_enableLabel e /\ m_enableAnimations e' = m_enableAnimations e /\
  m_label e' = m_label e /\ m_dummyLabel e' = m_dummyLabel e /\
  m_arrowheadBeginLeft e' = m_arrowheadBeginLeft e /\
  m_arrowheadBeginRight e' = m_arrowheadBeginRight e /\
  m_arrowheadEndLeft e' = m_arrowheadEndLeft e /\
  m_arrowheadEndRight e' = m_arrowheadEndRight e.
Proof.
  unfold updateDots. destruct (m_enableAnimations e) eqn:He; simpl; rewrite ?He; repeat split; auto.
Qed.

Lemma updateArrowhead_frame e :
  let e' := updateArrowhead e in
  m_edgeModel e' = m_edgeModel e /\ m_sourceNode e' = m_sourceNode e /\
  m_targetNode e' = m_targetNode e /\ m_line e' = m_line e /\
  m_enableLabel e' = m_enableLabel e /\ m_enableAnimations e' = m_enableAnimations e /\
  m_label e' = m_label e /\ m_dummyLabel e' = m_dummyLabel e /\
  m_previousRelativeSourcePos e' = m_previousRelativeSourcePos e /\
  m_previousRelativeTargetPos e' = m_previousRelativeTargetPos e /\
  m_sourceDotSizeAnimation e' = m_sourceDotSizeAnimation e /\
  m_targetDotSizeAnimation e' = m_targetDotSizeAnimation e.
Proof.
  unfold updateArrowhead; simpl.
  destruct (arrowMode (style (m_edgeModel e))); simpl; repeat split; auto.
Qed.

Lemma with_transformOriginPoint_frame p e :
  let e' := with_transformOriginPoint p e in
  m_edgeModel e' = m_edgeModel e /\ m_sourceNode e' = m_sourceNode e /\
  m_targetNode e' = m_targetNode e /\ m_line e' = m_line e /\
  m_enableLabel e' = m_enableLabel e /\ m_enableAnimations e' = m_enableAnimations e /\
  m_label e' = m_label e /\ m_dummyLabel e' = m_dummyLabel e /\
  m_arrowheadBeginLeft e' = m_arrowheadBeginLeft e /\
  m_arrowheadBeginRight e' = m_arrowheadBeginRight e /\
  m_arrowheadEndLeft e' = m_arrowheadEndLeft e /\
  m_arrowheadEndRight e' = m_arrowheadEndRight e /\
  m_previousRelativeSourcePos e' = m_previousRelativeSourcePos e /\
  m_previousRelativeTargetPos e' = m_previousRelativeTargetPos e /\
  m_sourceDotSizeAnimation e' = m_sourceDotSizeAnimation e /\
  m_targetDotSizeAnimation e' = m_targetDotSizeAnimation e.
Proof. repeat split. Qed.

Section LineFacts.

Variable getNearestEdgePoints : Node -> Node -> EdgePoint * EdgePoint.

Lemma computeLine_inputs (e e' : Edge) :
  m_edgeModel e' = m_edgeModel e -> m_sourceNode e' = m_sourceNode e ->
  m_targetNode e' = m_targetNode e ->
  computeLine getNearestEdgePoints e' = computeLine getNearestEdgePoints e.
Proof.
  intros Hm Hs Ht.
  unfold computeLine, sourceAnchor, targetAnchor, sourceDirection,
    targetDirection, sourceAnchor, targetAnchor, sourceNode, targetNode.
  rewrite Hm, Hs, Ht. reflexivity.
Qed.

Lemma lineSet_line (e : Edge) : line (m_line (lineSet getNearestEdgePoints e)) = computeLine getNearestEdgePoints e.
Proof. unfold lineSet; cbv zeta. apply computeLine_inputs; reflexivity. Qed.

Lemma lineSet_frame (e : Edge) :
  m_edgeModel (lineSet getNearestEdgePoints e) = m_edgeModel e /\ m_sourceNode (lineSet getNearestEdgePoints e) = m_sourceNode e /\
  m_targetNode (lineSet getNearestEdgePoints e) = m_targetNode e /\
  m_enableLabel (lineSet getNearestEdgePoints e) = m_enableLabel e /\
  m_enableAnimations (lineSet getNearestEdgePoints e) = m_enableAnimations e /\
  m_arrowheadBeginLeft (lineSet getNearestEdgePoints e) = m_arrowheadBeginLeft e /\
  m_arrowheadBeginRight (lineSet getNearestEdgePoints e) = m_arrowheadBeginRight e /\
  m_arrowheadEndLeft (lineSet getNearestEdgePoints e) = m_arrowheadEndLeft e /\
  m_arrowheadEndRight (lineSet getNearestEdgePoints e) = m_arrowheadEndRight e.
Proof. repeat split. Qed.

Lemma labelSet_frame (e : Edge) :
  m_edgeModel (labelSet getNearestEdgePoints e) = m_edgeModel e /\ m_sourceNode (labelSet getNearestEdgePoints e) = m_sourceNode e /\
  m_targetNode (labelSet getNearestEdgePoints e) = m_targetNode e /\
  m_line (labelSet getNearestEdgePoints e) = m_line (lineSet getNearestEdgePoints e) /\
  m_enableLabel (labelSet getNearestEdgePoints e) = m_enableLabel e /\
  m_enableAnimations (labelSet getNearestEdgePoints e) = m_enableAnimations e /\
  m_arrowheadBeginLeft (labelSet getNearestEdgePoints e) = m_arrowheadBeginLeft e /\
  m_arrowheadBeginRight (labelSet getNearestEdgePoints e) = m_arrowheadBeginRight e /\
  m_arrowheadEndLeft (labelSet getNearestEdgePoints e) = m_arrowheadEndLeft e /\
  m_arrowheadEndRight (labelSet getNearestEdgePoints e) = m_arrowheadEndRight e.
Proof.
  unfold labelSet.
  destruct (updateLabel_frame EdgeGeometryChanged (updateDots (lineSet getNearestEdgePoints e)))
    as (-> & -> & -> & -> & -> & -> & -> & -> & -> & -> & _).
  destruct (updateDots_frame (lineSet getNearestEdgePoints e))
    as (-> & -> & -> & -> & -> & -> & _ & _ & -> & -> & -> & ->).
  destruct (lineSet_frame e) as (-> & -> & -> & -> & -> & -> & -> & -> & ->).
  repeat split.
Qed.

Lemma updateLine_unfold (e : Edge) :
  updateLine getNearestEdgePoints e =
  with_transformOriginPoint
    (line_center (line (m_line (updateArrowhead (labelSet getNearestEdgePoints e)))))
    (updateArrowhead (labelSet getNearestEdgePoints e)).
Proof. reflexivity. Qed.

Lemma updateLine_m_line (e : Edge) :
  m_line (updateLine getNearestEdgePoints e) = m_line (lineSet getNearestEdgePoints e).
Proof.
  rewrite updateLine_unfold.
  destruct (with_transformOriginPoint_frame
              (line_center (line (m_line (updateArrowhead (labelSet getNearestEdgePoints e)))))
              (updateArrowhead (labelSet getNearestEdgePoints e))) as (_ & _ & _ & -> & _).
  destruct (updateArrowhead_frame (labelSet getNearestEdgePoints e)) as (_ & _ & _ & -> & _).
  apply labelSet_frame.
Qed.

Lemma updateLine_line (e : Edge) :
  line (m_line (updateLine getNearestEdgePoints e)) = computeLine getNearestEdgePoints e.
Proof. rewrite updateLine_m_line. apply lineSet_line. Qed.

Lemma updateLine_inputs (e : Edge) :
  m_edgeModel (updateLine getNearestEdgePoints e) = m_edgeModel e /\
  m_sourceNode (updateLine getNearestEdgePoints e) = m_sourceNode e /\
  m_targetNode (updateLine getNearestEdgePoints e) = m_targetNode e /\
  m_enableLabel (updateLine getNearestEdgePoints e) = m_enableLabel e /\
  m_enableAnimations (updateLine getNearestEdgePoints e) = m_enableAnimations e.
Proof.
  rewrite updateLine_unfold.
  destruct (with_transformOriginPoint_frame
              (line_center (line (m_line (updateArrowhead (labelSet getNearestEdgePoints e)))))
              (updateArrowhead (labelSet getNearestEdgePoints e))) as (-> & -> & -> & _ & -> & -> & _).
  destruct (updateArrowhead_frame (labelSet getNearestEdgePoints e)) as (-> & -> & -> & _ & -> & -> & _).
  destruct (labelSet_frame e) as (-> & -> & -> & _ & -> & -> & _).
  repeat split.
Qed.

(** The arrowheads after [updateLine] are those [updateArrowhead] builds on
    the state that holds the new line. *)
Lemma updateLine_arrowheads (e : Edge) :
  let e' := updateLine getNearestEdgePoints e in
  let a := updateArrowhead (labelSet getNearestEdgePoints e) in
  m_arrowheadBeginLeft e' = m_arrowheadBeginLeft a /\
  m_arrowheadBeginRight e' = m_arrowheadBeginRight a /\
  m_arrowheadEndLeft e' = m_arrowheadEndLeft a /\
  m_arrowheadEndRight e' = m_arrowheadEndRight a.
Proof.
  cbv zeta. rewrite updateLine_unfold.
  destruct (with_transformOriginPoint_frame
              (line_center (line (m_line (updateArrowhead (labelSet getNearestEdgePoints e)))))
              (updateArrowhead (labelSet getNearestEdgePoints e)))
    as (_ & _ & _ & _ & _ & _ & _ & _ & -> & -> & -> & -> & _).
  repeat split.
Qed.


End LineFacts.

(** ** The scenario of the spec *)

Lemma scenario_line :
  computeLine scenarioNearest scenarioEdge = mkLine (mkPoint 10 0) (mkPoint 89 0).
Proof.
  unfold computeLine, sourceDirection, targetDirection, sourceAnchor, targetAnchor; simpl.
  unfold QVector2D_of, to_float; simpl.
  replace (0 - (10 + 0)) with (-10) by ring.
  replace (0 - (0 + 0)) with 0 by ring.
  replace (100 - (-10 + 100)) with 10 by ring.
  rewrite normalize_x_pos by lra.
  unfold widthScale; simpl.
  f_equal; apply point_ext; simpl; lra.
Qed.

(** ** Arrowheads: the claims *)

(** What [updateArrowhead] leaves in arrow mode [Single]. *)
Lemma updateArrowhead_single (e : Edge) :
  arrowMode (style (m_edgeModel e)) = Single ->
  let l := line (m_line e) in
  let rev := reversed (m_edgeModel e) in
  let size := arrowSize (style (m_edgeModel e)) in
  let pointBegin := if rev then p1 l else p2 l in
  let theta := if rev then - line_angle l + 180 else - line_angle l in
  let e' := updateArrowhead e in
  line (m_arrowheadBeginLeft e')
  = mkLine pointBegin (wingTip pointBegin (qDegreesToRadians (theta + 150)) size) /\
  line (m_arrowheadBeginRight e')
  = mkLine pointBegin (wingTip pointBegin (qDegreesToRadians (theta - 150)) size) /\
  shown (m_arrowheadBeginLeft e') = true /\
  shown (m_arrowheadBeginRight e') = true /\
  shown (m_arrowheadEndLeft e') = false /\
  shown (m_arrowheadEndRight e') = false.
Proof.
  intros Hmode l rev size pointBegin theta e'.
  assert (He' : e' = updateSingleArrowhead (setArrowHeadPen (buildPen true e) e)).
  { unfold e', updateArrowhead; simpl. rewrite Hmode. reflexivity. }
  rewrite He'. unfold updateSingleArrowhead; simpl.
  repeat split.
Qed.

(** The claim C1 (as amended): in arrow mode [Single] the two "begin" wings
    are shown and the two "end" wings are hidden; the begin end is the
    target-side end [p2] of the segment unless the edge is reversed, in which
    case it is the source-side end [p1]; each wing runs from that end to the
    end plus a vector of length [|arrowSize|] at angle [theta + 150] and
    [theta - 150] degrees, where [theta] is [- angle()] (plus 180 when
    reversed), that is, the direction in the scene from the other end of the
    segment towards the begin end. *)
Theorem single_arrowhead_wings (e : Edge) :
  arrowMode (style (m_edgeModel e)) = Single ->
  let l := line (m_line e) in
  let rev := reversed (m_edgeModel e) in
  let size := arrowSize (style (m_edgeModel e)) in
  let pointBegin := if rev then p1 l else p2 l in
  let pointOther := if rev then p2 l else p1 l in
  let theta := if rev then - line_angle l + 180 else - line_angle l in
  let left := wingTip pointBegin (qDegreesToRadians (theta + 150)) size in
  let right := wingTip pointBegin (qDegreesToRadians (theta - 150)) size in
  let e' := updateArrowhead e in
  line (m_arrowheadBeginLeft e') = mkLine pointBegin left /\
  line (m_arrowheadBeginRight e') = mkLine pointBegin right /\
  shown (m_arrowheadBeginLeft e') = true /\
  shown (m_arrowheadBeginRight e') = true /\
  shown (m_arrowheadEndLeft e') = false /\
  shown (m_arrowheadEndRight e') = false /\
  dist pointBegin left = Rabs size /\
  dist pointBegin right = Rabs size /\
  (p1 l <> p2 l ->
   cos (qDegreesToRadians theta) = (px pointBegin - px pointOther) / line_length l /\
   sin (qDegreesToRadians theta) = (py pointBegin - py pointOther) / line_length l).
Proof.
  intros Hmode l rev size pointBegin pointOther theta left right e'.
  destruct (updateArrowhead_single e Hmode) as (HL & HR & H1 & H2 & H3 & H4).
  refine (conj HL (conj HR (conj H1 (conj H2 (conj H3 (conj H4 (conj _ (conj _ _)))))))).
  - apply wingTip_dist.
  - apply wingTip_dist.
  - intros Hne. destruct (line_direction l Hne) as [Hc Hs].
    unfold theta, pointBegin, pointOther. destruct rev.
    + replace (qDegreesToRadians (- line_angle l + 180))
        with (qDegreesToRadians (- line_angle l) + PI)
        by (unfold qDegreesToRadians; field).
      rewrite neg_cos, neg_sin, Hc, Hs. unfold line_dx, line_dy, Rdiv. split; ring.
    + rewrite Hc, Hs. split; reflexivity.
Qed.

(** The scenario edge after [updateLine]: the segment runs from the source
    side (10,0) to the target side (89,0), and the edge is not reversed. *)
Lemma scenario_updated :
  let e' := updateLine scenarioNearest scenarioEdge in
  line (m_line e') = mkLine (mkPoint 10 0) (mkPoint 89 0) /\
  m_edgeModel e' = m_edgeModel scenarioEdge.
Proof.
  cbv zeta. rewrite updateLine_line, scenario_line.
  split; [ reflexivity | apply updateLine_inputs ].
Qed.

(** Applying [single_arrowhead_wings] to a [Single] edge whose segment runs
    from (10,0) to (89,0). *)
Lemma single_arrowhead_wings_witness :
  let e := with_line (setLine (mkLine (mkPoint 10 0) (mkPoint 89 0)) newLineItem) scenarioEdge in
  arrowMode (style (m_edgeModel e)) = Single /\
  line (m_arrowheadBeginLeft (updateArrowhead e))
  = mkLine (mkPoint 89 0)
      (wingTip (mkPoint 89 0) (qDegreesToRadians (- line_angle (line (m_line e)) + 150)) 10) /\
  shown (m_arrowheadEndLeft (updateArrowhead e)) = false.
Proof.
  cbv zeta.
  split; [ reflexivity | ].
  pose proof (single_arrowhead_wings
                (with_line (setLine (mkLine (mkPoint 10 0) (mkPoint 89 0)) newLineItem)
                           scenarioEdge) eq_refl) as H.
  cbv zeta in H.
  destruct H as (HL & _ & _ & _ & HE & _).
  split; [ exact HL | exact HE ].
Defined.

(** C1 as stated fails on the scenario: the edge is not reversed, and the
    wings that are shown start at (89,0), the target-side end of the segment,
    not at (10,0), the end at the source node. *)
Lemma single_arrowhead_begin_is_target_end :
  let e' := updateLine scenarioNearest scenarioEdge in
  arrowMode (style (m_edgeModel e')) = Single /\
  reversed (m_edgeModel e') = false /\
  p1 (line (m_line e')) = sourceAnchor scenarioNearest scenarioEdge /\
  shown (m_arrowheadBeginLeft e') = true /\
  shown (m_arrowheadBeginRight e') = true /\
  p1 (line (m_arrowheadBeginLeft e')) = p2 (line (m_line e')) /\
  p1 (line (m_arrowheadBeginRight e')) = p2 (line (m_line e')) /\
  p1 (line (m_arrowheadBeginLeft e')) <> p1 (line (m_line e')) /\
  p1 (line (m_arrowheadBeginRight e')) <> p1 (line (m_line e')).
Proof.
  cbv zeta.
  destruct scenario_updated as [Hl Hm]. cbv zeta in Hl, Hm.
  destruct (updateLine_arrowheads scenarioNearest scenarioEdge) as (Ha & Hb & _).
  rewrite Hl, Hm, Ha, Hb.
  set (e2 := labelSet scenarioNearest scenarioEdge).
  assert (Hm2 : m_edgeModel e2 = m_edgeModel scenarioEdge) by apply labelSet_frame.
  assert (Hl2 : line (m_line e2) = mkLine (mkPoint 10 0) (mkPoint 89 0)).
  { unfold e2. destruct (labelSet_frame scenarioNearest scenarioEdge) as (_ & _ & _ & -> & _).
    rewrite lineSet_line. apply scenario_line. }
  assert (Hmode : arrowMode (style (m_edgeModel e2)) = Single) by (rewrite Hm2; reflexivity).
  pose proof (updateArrowhead_single e2 Hmode) as H. cbv zeta in H.
  rewrite Hm2, Hl2 in H.
  destruct H as (HL & HR & HsL & HsR & _).
  rewrite HL, HR, HsL, HsR.
  change (reversed (m_edgeModel scenarioEdge)) with false.
  cbv iota. cbn [p1 p2].
  repeat split.
  - unfold sourceAnchor. cbn. apply point_ext; cbn; lra.
  - intros Heq. apply (f_equal px) in Heq. cbn in Heq. lra.
  - intros Heq. apply (f_equal px) in Heq. cbn in Heq. lra.
Qed.

(** ** Line construction: the claims *)

Lemma direction_nonzero (pos a : QPointF) :
  pos <> a -> lengthSquared (QVector2D_of (pos - a)%pt) <> 0.
Proof.
  intros Hne H. apply Hne.
  apply lengthSquared_null in H.
  unfold QVector2D_of, to_float in H; simpl in H.
  injection H as Hx Hy. apply point_ext; lra.
Qed.

Lemma normalize_lengthSquared (v : QVector2D) :
  lengthSquared v <> 0 -> lengthSquared (normalize v) = 1.
Proof.
  intros H. pose proof (normalize_unit v H) as Hu. unfold vlength in Hu.
  assert (Hnn : 0 <= lengthSquared (normalize v)).
  { unfold lengthSquared. nra. }
  rewrite <- (sqrt_sqrt _ Hnn), Hu. ring.
Qed.

(** The distance covered by a step of [c] along a vector of squared length 1. *)
Lemma dist_along (a : QPointF) (d : QVector2D) (c : R) :
  lengthSquared d = 1 -> dist a (a + toPointF d * c)%pt = Rabs c.
Proof.
  intros Hd. unfold dist; simpl.
  replace ((px a + vx d * c - px a) * (px a + vx d * c - px a)
           + (py a + vy d * c - py a) * (py a + vy d * c - py a))
    with (lengthSquared d * (c * c)) by (unfold lengthSquared; ring).
  rewrite Hd, Rmult_1_l. apply sqrt_Rsqr_abs.
Qed.

Section LineClaims.

Variable getNearestEdgePoints : Node -> Node -> EdgePoint * EdgePoint.

(** In exact arithmetic: when the target's direction vector is not the null
    vector (the target's position differs from its anchor) and the target
    anchor is not a corner, the target-side end of the rendered segment is
    the anchor moved by [0.5 * edgeWidth] against the unit direction vector
    (which points from the anchor to the target's position), so its distance
    from the anchor is [0.5 * |edgeWidth|].  What rounding makes of this is
    in [BinaryFacts]. *)
Theorem target_end_shrunk_by_half_width (e : Edge) :
  nodePos (targetNode e) <> targetAnchor getNearestEdgePoints e ->
  isCorner (snd (getNearestEdgePoints (sourceNode e) (targetNode e))) = false ->
  let a := targetAnchor getNearestEdgePoints e in
  let d := targetDirection getNearestEdgePoints e in
  let w := edgeWidth (style (m_edgeModel e)) in
  let q := p2 (line (m_line (updateLine getNearestEdgePoints e))) in
  vlength d = 1 /\
  q = (a - toPointF d * (0.5 * w))%pt /\
  dist a q = 0.5 * Rabs w /\
  (0 <= w -> dist a q = 0.5 * w).
Proof.
  intros Hne Hcorner a d w q.
  pose proof (direction_nonzero _ _ Hne) as Hnz.
  assert (Hq : q = (a - toPointF d * (0.5 * w))%pt).
  { unfold q. rewrite updateLine_line. unfold computeLine. rewrite Hcorner.
    cbn [p2]. fold a d w. unfold widthScale, to_float.
    apply point_ext; simpl; lra. }
  assert (Hd : dist a q = 0.5 * Rabs w).
  { rewrite Hq.
    replace (a - toPointF d * (0.5 * w))%pt with (a + toPointF d * (- (0.5 * w)))%pt
      by (apply point_ext; simpl; lra).
    rewrite dist_along by (apply normalize_lengthSquared; exact Hnz).
    rewrite Rabs_Ropp, Rabs_mult, (Rabs_pos_eq 0.5) by lra. reflexivity. }
  repeat split.
  - apply normalize_unit; exact Hnz.
  - exact Hq.
  - exact Hd.
  - intros Hw. rewrite Hd, Rabs_pos_eq by exact Hw. reflexivity.
Qed.

End LineClaims.

Lemma scenario_target_anchor (w : R) :
  targetAnchor scenarioNearest (scenarioEdgeOfWidth w) = mkPoint 90 0.
Proof. unfold targetAnchor; cbn. apply point_ext; cbn; lra. Qed.

Lemma scenario_preconditions (w : R) :
  nodePos (targetNode (scenarioEdgeOfWidth w))
  <> targetAnchor scenarioNearest (scenarioEdgeOfWidth w) /\
  isCorner (snd (scenarioNearest (sourceNode (scenarioEdgeOfWidth w))
                                 (targetNode (scenarioEdgeOfWidth w)))) = false.
Proof.
  split; [ | reflexivity ].
  rewrite scenario_target_anchor. intros H. apply (f_equal px) in H. cbn in H. lra.
Qed.

(** [target_end_shrunk_by_half_width] at the widths 1, 5 and 20 on the
    scenario: the rendered end is 0.5, 2.5 and 10 away from the target anchor
    (90,0). *)
Lemma target_end_shrunk_by_half_width_witness :
  dist (mkPoint 90 0) (p2 (line (m_line (updateLine scenarioNearest (scenarioEdgeOfWidth 1)))))
  = 0.5 * 1 /\
  dist (mkPoint 90 0) (p2 (line (m_line (updateLine scenarioNearest (scenarioEdgeOfWidth 5)))))
  = 0.5 * 5 /\
  dist (mkPoint 90 0) (p2 (line (m_line (updateLine scenarioNearest (scenarioEdgeOfWidth 20)))))
  = 0.5 * 20.
Proof.
  rewrite <- (scenario_target_anchor 1) at 1.
  rewrite <- (scenario_target_anchor 5) at 1.
  rewrite <- (scenario_target_anchor 20) at 1.
  repeat split.
  - refine (proj2 (proj2 (proj2
      (target_end_shrunk_by_half_width scenarioNearest (scenarioEdgeOfWidth 1)
         (proj1 (scenario_preconditions 1)) (proj2 (scenario_preconditions 1))))) _).
    cbn; lra.
  - refine (proj2 (proj2 (proj2
      (target_end_shrunk_by_half_width scenarioNearest (scenarioEdgeOfWidth 5)
         (proj1 (scenario_preconditions 5)) (proj2 (scenario_preconditions 5))))) _).
    cbn; lra.
  - refine (proj2 (proj2 (proj2
      (target_end_shrunk_by_half_width scenarioNearest (scenarioEdgeOfWidth 20)
         (proj1 (scenario_preconditions 20)) (proj2 (scenario_preconditions 20))))) _).
    cbn; lra.
Defined.

(** ** Corner anchors *)

Section CornerClaims.

Variable getNearestEdgePoints : Node -> Node -> EdgePoint * EdgePoint.

(** The two ends of the segment [updateLine] sets, by cases on the corner flags. *)
Lemma updateLine_ends (e : Edge) :
  let np := getNearestEdgePoints (sourceNode e) (targetNode e) in
  let l := line (m_line (updateLine getNearestEdgePoints e)) in
  let a1 := sourceAnchor getNearestEdgePoints e in
  let d1 := sourceDirection getNearestEdgePoints e in
  let a2 := targetAnchor getNearestEdgePoints e in
  let d2 := targetDirection getNearestEdgePoints e in
  let w := edgeWidth (style (m_edgeModel e)) in
  p1 l = (a1 + toPointF d1
               * (if isCorner (fst np) then 0.3 * cornerRadius (sourceNode e) else 0))%pt /\
  p2 l = (a2 + toPointF d2
               * (if isCorner (snd np) then 0.3 * cornerRadius (targetNode e) else 0)
          - toPointF d2 * (0.5 * w))%pt.
Proof.
  cbv zeta. rewrite updateLine_line. unfold computeLine. cbn [p1 p2].
  unfold cornerRadiusScale, widthScale, to_float.
  split.
  - destruct (isCorner (fst _)); apply point_ext; simpl; lra.
  - destruct (isCorner (snd _)); apply point_ext; simpl; lra.
Qed.

End CornerClaims.

(** In exact arithmetic, whatever [getNearestEdgePoints] is: an anchor whose
    [isCorner] flag is set is moved along its direction vector by
    [0.3 * cornerRadius] (the target end then also by the half width against
    it), a distance of [0.3 * |cornerRadius|] when the direction is a unit
    vector; and with a corner radius of 0 the nudge moves nothing, whatever
    the flag.  What rounding makes of this is in [BinaryFacts]. *)
Theorem corner_nudge (getNearestEdgePoints : Node -> Node -> EdgePoint * EdgePoint)
    (e : Edge) :
  let np := getNearestEdgePoints (sourceNode e) (targetNode e) in
  let l := line (m_line (updateLine getNearestEdgePoints e)) in
  let a1 := sourceAnchor getNearestEdgePoints e in
  let d1 := sourceDirection getNearestEdgePoints e in
  let a2 := targetAnchor getNearestEdgePoints e in
  let d2 := targetDirection getNearestEdgePoints e in
  let w := edgeWidth (style (m_edgeModel e)) in
  let r1 := cornerRadius (sourceNode e) in
  let r2 := cornerRadius (targetNode e) in
  (isCorner (fst np) = true ->
   p1 l = (a1 + toPointF d1 * (0.3 * r1))%pt /\
   (nodePos (sourceNode e) <> a1 -> vlength d1 = 1 /\ dist a1 (p1 l) = 0.3 * Rabs r1)) /\
  (isCorner (snd np) = true ->
   p2 l = (a2 + toPointF d2 * (0.3 * r2) - toPointF d2 * (0.5 * w))%pt /\
   (nodePos (targetNode e) <> a2 ->
    vlength d2 = 1 /\ dist a2 (a2 + toPointF d2 * (0.3 * r2))%pt = 0.3 * Rabs r2)) /\
  (r1 = 0 -> p1 l = a1) /\
  (r2 = 0 -> p2 l = (a2 - toPointF d2 * (0.5 * w))%pt).
Proof.
  intros np l a1 d1 a2 d2 w r1 r2.
  destruct (updateLine_ends getNearestEdgePoints e) as [H1 H2].
  fold np l a1 d1 a2 d2 w r1 r2 in H1, H2.
  repeat split.
  - rewrite H1, H. reflexivity.
  - apply normalize_unit, direction_nonzero; assumption.
  - rewrite H1, H, dist_along.
    + rewrite Rabs_mult, (Rabs_pos_eq 0.3) by lra. reflexivity.
    + apply normalize_lengthSquared, direction_nonzero; assumption.
  - rewrite H2, H. reflexivity.
  - apply normalize_unit, direction_nonzero; assumption.
  - rewrite dist_along.
    + rewrite Rabs_mult, (Rabs_pos_eq 0.3) by lra. reflexivity.
    + apply normalize_lengthSquared, direction_nonzero; assumption.
  - intros Hr. rewrite H1, Hr. destruct (isCorner (fst np)); apply point_ext; simpl; lra.
  - intros Hr. rewrite H2, Hr. destruct (isCorner (snd np)); apply point_ext; simpl; lra.
Qed.

(** [corner_nudge] on the corner scenario: the source end of the segment is
    0.3 * 2 away from the corner anchor (10,5). *)
Lemma corner_nudge_witness :
  isCorner (fst (cornerNearest (sourceNode cornerEdge) (targetNode cornerEdge))) = true /\
  dist (mkPoint 10 5) (p1 (line (m_line (updateLine cornerNearest cornerEdge)))) = 0.3 * 2.
Proof.
  split; [ reflexivity | ].
  assert (Ha : sourceAnchor cornerNearest cornerEdge = mkPoint 10 5).
  { unfold sourceAnchor; cbn. apply point_ext; cbn; lra. }
  assert (Hne : nodePos (sourceNode cornerEdge) <> sourceAnchor cornerNearest cornerEdge).
  { rewrite Ha. intros H. apply (f_equal px) in H. cbn in H. lra. }
  destruct (corner_nudge cornerNearest cornerEdge) as (Hsrc & _).
  destruct (Hsrc eq_refl) as (_ & Hdist).
  destruct (Hdist Hne) as (_ & Hd).
  rewrite Ha in Hd. rewrite Hd.
  change (cornerRadius (sourceNode cornerEdge)) with 2.
  rewrite Rabs_pos_eq by lra. reflexivity.
Defined.

(** ** Recomputing twice *)

Lemma updateArrowhead_arrowheads (e : Edge) :
  arrowheads (updateArrowhead e)
  = arrowheadsFor (m_edgeModel e) (line (m_line e)) (arrowheads e).
Proof.
  unfold updateArrowhead, arrowheadsFor, arrowheads.
  change (m_edgeModel (setArrowHeadPen (buildPen true e) e)) with (m_edgeModel e).
  destruct (arrowMode (style (m_edgeModel e))); reflexivity.
Qed.

Lemma arrowheadsFor_twice m l old :
  arrowheadsFor m l (arrowheadsFor m l old) = arrowheadsFor m l old.
Proof.
  destruct old as [[[bl br] el] er]. unfold arrowheadsFor.
  destruct (arrowMode (style m)); reflexivity.
Qed.

Section Idempotence.

Variable getNearestEdgePoints : Node -> Node -> EdgePoint * EdgePoint.

Lemma lineSet_m_line (e : Edge) :
  m_line (lineSet getNearestEdgePoints e)
  = mkLineItem (computeLine getNearestEdgePoints e) (buildPen false e) (shown (m_line e)).
Proof.
  unfold lineSet; cbv zeta. cbn [m_line with_line]. unfold setLine, setPen.
  cbn [line pen shown]. reflexivity.
Qed.

(** The claim C8: running [updateLine] a second time, with the nodes, the
    style, the reversed flag and the text as the first run left them (it does
    not change them), gives the same segment item and the same four arrowhead
    wing items (line, pen and visibility) as the first run. *)
Theorem updateLine_idempotent (e : Edge) :
  let once := updateLine getNearestEdgePoints e in
  let twice := updateLine getNearestEdgePoints once in
  m_edgeModel once = m_edgeModel e /\
  m_sourceNode once = m_sourceNode e /\
  m_targetNode once = m_targetNode e /\
  m_line twice = m_line once /\
  m_arrowheadBeginLeft twice = m_arrowheadBeginLeft once /\
  m_arrowheadBeginRight twice = m_arrowheadBeginRight once /\
  m_arrowheadEndLeft twice = m_arrowheadEndLeft once /\
  m_arrowheadEndRight twice = m_arrowheadEndRight once.
Proof.
  intros once twice.
  destruct (updateLine_inputs getNearestEdgePoints e) as (Hm & Hs & Ht & _).
  fold once in Hm, Hs, Ht.
  assert (Hline : m_line twice = m_line once).
  { unfold twice. rewrite (updateLine_m_line getNearestEdgePoints once).
    unfold once at 2. rewrite (updateLine_m_line getNearestEdgePoints e).
    rewrite !lineSet_m_line.
    rewrite (computeLine_inputs getNearestEdgePoints e once Hm Hs Ht).
    unfold buildPen. rewrite Hm.
    unfold once. rewrite (updateLine_m_line getNearestEdgePoints e), lineSet_m_line.
    reflexivity. }
  assert (Harrow : arrowheads twice = arrowheads once).
  { destruct (updateLine_arrowheads getNearestEdgePoints once) as (A1 & A2 & A3 & A4).
    destruct (updateLine_arrowheads getNearestEdgePoints e) as (B1 & B2 & B3 & B4).
    fold once in B1, B2, B3, B4. fold twice in A1, A2, A3, A4.
    transitivity (arrowheads (updateArrowhead (labelSet getNearestEdgePoints once))).
    { unfold arrowheads. rewrite A1, A2, A3, A4. reflexivity. }
    assert (Hold : arrowheads (labelSet getNearestEdgePoints once) = arrowheads once).
    { destruct (labelSet_frame getNearestEdgePoints once)
        as (_ & _ & _ & _ & _ & _ & C1 & C2 & C3 & C4).
      unfold arrowheads. rewrite C1, C2, C3, C4. reflexivity. }
    assert (Hold0 : arrowheads (labelSet getNearestEdgePoints e) = arrowheads e).
    { destruct (labelSet_frame getNearestEdgePoints e)
        as (_ & _ & _ & _ & _ & _ & C1 & C2 & C3 & C4).
      unfold arrowheads. rewrite C1, C2, C3, C4. reflexivity. }
    assert (Honce : arrowheads once
                    = arrowheadsFor (m_edgeModel e) (computeLine getNearestEdgePoints e)
                                    (arrowheads e)).
    { transitivity (arrowheads (updateArrowhead (labelSet getNearestEdgePoints e))).
      { unfold arrowheads. rewrite B1, B2, B3, B4. reflexivity. }
      rewrite updateArrowhead_arrowheads, Hold0.
      destruct (labelSet_frame getNearestEdgePoints e) as (-> & _ & _ & -> & _).
      rewrite lineSet_line. reflexivity. }
    rewrite updateArrowhead_arrowheads, Hold.
    destruct (labelSet_frame getNearestEdgePoints once) as (-> & _ & _ & -> & _).
    rewrite lineSet_line, Hm, (computeLine_inputs getNearestEdgePoints e once Hm Hs Ht).
    rewrite Honce. apply arrowheadsFor_twice. }
  clearbody twice. clearbody once.
  unfold arrowheads in Harrow. injection Harrow as H1 H2 H3 H4.
  repeat split; assumption.
Qed.

End Idempotence.

(** ** Connection dots: the claims *)

(** What [updateDots] does to the source dot's animation. *)
Lemma updateDots_source (e : Edge) :
  m_enableAnimations e = true ->
  (m_previousRelativeSourcePos e <> relativeSourcePos e ->
   m_sourceDotSizeAnimation (updateDots e)
   = anim_start (anim_stop (m_sourceDotSizeAnimation e))) /\
  (m_previousRelativeSourcePos e = relativeSourcePos e ->
   m_sourceDotSizeAnimation (updateDots e) = m_sourceDotSizeAnimation e) /\
  m_previousRelativeSourcePos (updateDots e) = relativeSourcePos e.
Proof.
  intros Hen. unfold updateDots. rewrite Hen. cbv zeta.
  fold (relativeSourcePos e) (relativeTargetPos e).
  cbn [m_sourceDotSizeAnimation m_previousRelativeSourcePos with_dots].
  destruct (point_neqb (m_previousRelativeSourcePos e) (relativeSourcePos e)) eqn:Hc.
  - apply point_neqb_true in Hc.
    split; [ intros _; reflexivity | split; [ intros Heq; contradiction | reflexivity ] ].
  - apply point_neqb_false in Hc.
    split; [ intros Hne; contradiction | split; [ intros _; reflexivity | exact Hc ] ].
Qed.

Lemma updateDots_target (e : Edge) :
  m_enableAnimations e = true ->
  (m_previousRelativeTargetPos e <> relativeTargetPos e ->
   m_targetDotSizeAnimation (updateDots e)
   = anim_start (anim_stop (m_targetDotSizeAnimation e))) /\
  (m_previousRelativeTargetPos e = relativeTargetPos e ->
   m_targetDotSizeAnimation (updateDots e) = m_targetDotSizeAnimation e) /\
  m_previousRelativeTargetPos (updateDots e) = relativeTargetPos e.
Proof.
  intros Hen. unfold updateDots. rewrite Hen. cbv zeta.
  fold (relativeSourcePos e) (relativeTargetPos e).
  cbn [m_targetDotSizeAnimation m_previousRelativeTargetPos with_dots].
  destruct (point_neqb (m_previousRelativeTargetPos e) (relativeTargetPos e)) eqn:Hc.
  - apply point_neqb_true in Hc.
    split; [ intros _; reflexivity | split; [ intros Heq; contradiction | reflexivity ] ].
  - apply point_neqb_false in Hc.
    split; [ intros Hne; contradiction | split; [ intros _; reflexivity | exact Hc ] ].
Qed.

Lemma anim_restart_counts (a : Animation) :
  animStarts (anim_start (anim_stop a)) = S (animStarts a) /\
  animRunning (anim_start (anim_stop a)) = true /\
  animCurrentTime (anim_start (anim_stop a)) = 0%Z.
Proof. repeat split. Qed.

(** In exact arithmetic and with an exact comparison of points, for an edge
    with animations enabled.  On a recompute the decay animation of an end
    point is restarted (stopped, then started from time 0, which the ghost
    counter [animStarts] records) exactly when the end point's position
    relative to its node differs from the recorded one, and the new relative
    position is recorded.  Hence, after a recompute, moving a node and its
    end point by the same vector does not restart the animation at the next
    recompute, and moving only the end point does.  What rounding and Qt's
    fuzzy comparison make of this is in [BinaryFacts]. *)
Theorem pulse_restart_iff_relative_position_changed (e : Edge) :
  m_enableAnimations e = true ->
  let e' := updateDots e in
  (m_previousRelativeSourcePos e <> relativeSourcePos e <->
   animStarts (m_sourceDotSizeAnimation e') = S (animStarts (m_sourceDotSizeAnimation e))) /\
  (m_previousRelativeSourcePos e = relativeSourcePos e <->
   m_sourceDotSizeAnimation e' = m_sourceDotSizeAnimation e) /\
  (m_previousRelativeTargetPos e <> relativeTargetPos e <->
   animStarts (m_targetDotSizeAnimation e') = S (animStarts (m_targetDotSizeAnimation e))) /\
  (m_previousRelativeTargetPos e = relativeTargetPos e <->
   m_targetDotSizeAnimation e' = m_targetDotSizeAnimation e) /\
  (forall (v : QPointF) (target : Node) (q : QPointF),
      let moved :=
        withGeometry (movedBy v (sourceNode e')) target
                     (mkLine (p1 (line (m_line e')) + v)%pt q) e' in
      m_sourceDotSizeAnimation (updateDots moved) = m_sourceDotSizeAnimation e') /\
  (forall (v : QPointF) (source : Node) (q : QPointF),
      let moved :=
        withGeometry source (movedBy v (targetNode e'))
                     (mkLine q (p2 (line (m_line e')) + v)%pt) e' in
      m_targetDotSizeAnimation (updateDots moved) = m_targetDotSizeAnimation e') /\
  (forall (target : Node) (p q : QPointF),
      p <> p1 (line (m_line e')) ->
      let moved := withGeometry (sourceNode e') target (mkLine p q) e' in
      m_sourceDotSizeAnimation (updateDots moved)
      = anim_start (anim_stop (m_sourceDotSizeAnimation e'))) /\
  (forall (source : Node) (p q : QPointF),
      q <> p2 (line (m_line e')) ->
      let moved := withGeometry source (targetNode e') (mkLine p q) e' in
      m_targetDotSizeAnimation (updateDots moved)
      = anim_start (anim_stop (m_targetDotSizeAnimation e'))).
Proof.
  intros Hen e'.
  destruct (updateDots_source e Hen) as (Sne & Seq & Srec).
  destruct (updateDots_target e Hen) as (Tne & Teq & Trec).
  fold e' in Sne, Seq, Srec, Tne, Teq, Trec.
  assert (Hen' : m_enableAnimations e' = true).
  { unfold e'. destruct (updateDots_frame e) as (_ & _ & _ & _ & _ & -> & _). exact Hen. }
  assert (Hline : m_line e' = m_line e) by apply updateDots_frame.
  assert (Hsrc : m_sourceNode e' = m_sourceNode e) by apply updateDots_frame.
  assert (Htgt : m_targetNode e' = m_targetNode e) by apply updateDots_frame.
  clearbody e'.
  refine (conj _ (conj _ (conj _ (conj _ (conj _ (conj _ (conj _ _))))))).
  - split.
    + intros H. rewrite (Sne H). apply anim_restart_counts.
    + intros H Heq. rewrite (Seq Heq) in H. lia.
  - split.
    + exact Seq.
    + intros H.
      destruct (point_eqb (m_previousRelativeSourcePos e) (relativeSourcePos e)) eqn:Hc.
      * apply point_eqb_true in Hc. exact Hc.
      * exfalso. assert (Hne : m_previousRelativeSourcePos e <> relativeSourcePos e).
        { intros Heq. apply point_eqb_true in Heq. congruence. }
        pose proof (Sne Hne) as Hs. rewrite H in Hs.
        apply (f_equal animStarts) in Hs. simpl in Hs. lia.
  - split.
    + intros H. rewrite (Tne H). apply anim_restart_counts.
    + intros H Heq. rewrite (Teq Heq) in H. lia.
  - split.
    + exact Teq.
    + intros H.
      destruct (point_eqb (m_previousRelativeTargetPos e) (relativeTargetPos e)) eqn:Hc.
      * apply point_eqb_true in Hc. exact Hc.
      * exfalso. assert (Hne : m_previousRelativeTargetPos e <> relativeTargetPos e).
        { intros Heq. apply point_eqb_true in Heq. congruence. }
        pose proof (Tne Hne) as Hs. rewrite H in Hs.
        apply (f_equal animStarts) in Hs. simpl in Hs. lia.
  - intros v target q moved.
    assert (Hm : m_enableAnimations moved = true) by exact Hen'.
    destruct (updateDots_source moved Hm) as (_ & Heq & _).
    rewrite Heq; [ reflexivity | ].
    change (m_previousRelativeSourcePos moved) with (m_previousRelativeSourcePos e').
    rewrite Srec. unfold relativeSourcePos, moved, withGeometry, movedBy, sourceNode.
    cbn. rewrite Hline, Hsrc. apply point_ext; cbn; lra.
  - intros v source q moved.
    assert (Hm : m_enableAnimations moved = true) by exact Hen'.
    destruct (updateDots_target moved Hm) as (_ & Heq & _).
    rewrite Heq; [ reflexivity | ].
    change (m_previousRelativeTargetPos moved) with (m_previousRelativeTargetPos e').
    rewrite Trec. unfold relativeTargetPos, moved, withGeometry, movedBy, targetNode.
    cbn. rewrite Hline, Htgt. apply point_ext; cbn; lra.
  - intros target p q Hp moved.
    assert (Hm : m_enableAnimations moved = true) by exact Hen'.
    destruct (updateDots_source moved Hm) as (Hne & _ & _).
    rewrite Hne; [ reflexivity | ].
    change (m_previousRelativeSourcePos moved) with (m_previousRelativeSourcePos e').
    rewrite Srec. unfold relativeSourcePos, moved, withGeometry, sourceNode.
    cbn. rewrite <- Hline, Hsrc. intros Heq. apply Hp.
    apply (f_equal px) in Heq as Hx. apply (f_equal py) in Heq as Hy. cbn in Hx, Hy.
    apply point_ext; lra.
  - intros source p q Hq moved.
    assert (Hm : m_enableAnimations moved = true) by exact Hen'.
    destruct (updateDots_target moved Hm) as (Hne & _ & _).
    rewrite Hne; [ reflexivity | ].
    change (m_previousRelativeTargetPos moved) with (m_previousRelativeTargetPos e').
    rewrite Trec. unfold relativeTargetPos, moved, withGeometry, targetNode.
    cbn. rewrite <- Hline, Htgt. intros Heq. apply Hq.
    apply (f_equal px) in Heq as Hx. apply (f_equal py) in Heq as Hy. cbn in Hx, Hy.
    apply point_ext; lra.
Qed.

(** ** Label visibility: the claims *)

Lemma isEnoughSpaceFor_in_scene (l : EdgeTextEdit) (e : Edge) :
  labelInScene l = true -> isEnoughSpaceFor l e = negb (overlapsNodes l e).
Proof.
  intros H. unfold isEnoughSpaceFor, overlapsNodes. rewrite H, negb_orb. reflexivity.
Qed.

(** The claim C3, for an edge with a label whose two text items are in a
    scene: [AvailableSpaceChanged] leads to [Visible] when the label overlaps
    neither node and its text is not empty; otherwise to [DummyVisible] when
    the dummy label overlaps neither node and its text is strictly shorter
    than the label's; otherwise to [Hidden]. *)
Theorem available_space_changed_state (visible : bool) (e : Edge) :
  m_enableLabel e = true ->
  labelInScene (m_label e) = true ->
  labelInScene (m_dummyLabel e) = true ->
  let e' := setLabelVisible visible AvailableSpaceChanged e in
  labelVisibilityState e' =
  Some (if negb (overlapsNodes (m_label e) e) && negb (isEmpty (labelText (m_label e)))
        then StateVisible
        else if negb (overlapsNodes (m_dummyLabel e) e)
                && Nat.ltb (String.length (labelText (m_dummyLabel e)))
                           (String.length (labelText (m_label e)))
             then StateDummyVisible
             else StateHidden).
Proof.
  intros Hen Hl Hd e'. unfold e', setLabelVisible. rewrite Hen.
  unfold labelVisibilityState. cbn [m_label m_dummyLabel with_labels setVisible labelVisible].
  unfold isEnoughSpaceForLabel, isEnoughSpaceForDummyLabel, dummyLabelTextIsShoterThanLabelText.
  rewrite (isEnoughSpaceFor_in_scene _ _ Hl), (isEnoughSpaceFor_in_scene _ _ Hd).
  destruct (negb (overlapsNodes (m_label e) e) && negb (isEmpty (labelText (m_label e))));
    cbn [negb andb]; [ reflexivity | ].
  destruct (negb (overlapsNodes (m_dummyLabel e) e)
            && Nat.ltb (String.length (labelText (m_dummyLabel e)))
                       (String.length (labelText (m_label e)))); reflexivity.
Qed.

Lemma timeoutHides_iff (e : Edge) :
  timeoutHides e = true <->
  (labelText (m_label e) = EmptyString \/
   (labelText (m_label e) <> EmptyString /\ isEnoughSpaceForLabel e = false)) /\
  labelHasFocus (m_label e) = false.
Proof.
  unfold timeoutHides, isEmpty.
  destruct (labelText (m_label e)) as [ | c s ]; cbn [String.length Nat.eqb negb orb andb];
    destruct (isEnoughSpaceForLabel e), (labelHasFocus (m_label e));
    cbn [negb orb andb]; intuition (try discriminate; try congruence).
Qed.

(** The claim C4 (as amended), for an edge with a label whose two text items
    are in a scene.  The constructor's timer is single shot, and a hover-leave
    at time [now] sets it to expire at [now + 2000].  The [Timeout] transition
    [setLabelVisible(false, Timeout)] acts only when the text is empty, or not
    empty while the label overlaps a node, and the label has no input focus:
    the label is then hidden, and the dummy label is shown if it overlaps no
    node and its text is shorter (state [DummyVisible]) and hidden if not
    (state [Hidden]).  In every other case, so whenever the label has the
    focus, or has a text and room, nothing changes: a visible label stays
    visible, a shown dummy label stays shown.  A [Timeout] request to show
    changes nothing either. *)
Theorem timeout_transition (e : Edge) :
  m_enableLabel e = true ->
  labelInScene (m_label e) = true ->
  labelInScene (m_dummyLabel e) = true ->
  let text := labelText (m_label e) in
  let guard :=
    (text = EmptyString \/ (text <> EmptyString /\ overlapsNodes (m_label e) e = true))
    /\ labelHasFocus (m_label e) = false in
  let eligible :=
    negb (overlapsNodes (m_dummyLabel e) e)
    && Nat.ltb (String.length (labelText (m_dummyLabel e))) (String.length text) in
  let e' := setLabelVisible false Timeout e in
  (forall now : Z,
      singleShot (m_labelVisibilityTimer (initLabelVisibilityTimer e)) = true /\
      expiry (m_labelVisibilityTimer (hoverLeaveEvent now (initLabelVisibilityTimer e)))
      = Some (now + 2000)%Z) /\
  (guard -> eligible = true -> labelVisibilityState e' = Some StateDummyVisible) /\
  (guard -> eligible = false -> labelVisibilityState e' = Some StateHidden) /\
  (~ guard -> e' = e) /\
  (labelHasFocus (m_label e) = true -> e' = e) /\
  (text <> EmptyString -> overlapsNodes (m_label e) e = false -> e' = e) /\
  setLabelVisible true Timeout e = e.
Proof.
  intros Hen Hl Hd text guard eligible e'.
  assert (Hg : timeoutHides e = true <-> guard).
  { rewrite timeoutHides_iff. unfold guard, text, isEnoughSpaceForLabel.
    rewrite (isEnoughSpaceFor_in_scene _ _ Hl), negb_false_iff. reflexivity. }
  assert (He : dummyEligible e = eligible).
  { unfold dummyEligible, eligible, text, isEnoughSpaceForDummyLabel,
      dummyLabelTextIsShoterThanLabelText.
    rewrite (isEnoughSpaceFor_in_scene _ _ Hd). reflexivity. }
  assert (He' : e' = if timeoutHides e
                     then with_labels (setVisible false (m_label e))
                                      (setVisible (dummyEligible e) (m_dummyLabel e)) e
                     else e).
  { unfold e', setLabelVisible. rewrite Hen. reflexivity. }
  assert (Hno : ~ guard -> e' = e).
  { intros Hn. rewrite He'. destruct (timeoutHides e) eqn:E; [ | reflexivity ].
    exfalso. apply Hn, Hg. reflexivity. }
  clearbody e'.
  refine (conj _ (conj _ (conj _ (conj Hno (conj _ (conj _ _)))))).
  - intros now. unfold initLabelVisibilityTimer, hoverLeaveEvent. rewrite Hen.
    split; reflexivity.
  - intros G E. apply Hg in G. rewrite He', G, He, E. unfold labelVisibilityState.
    reflexivity.
  - intros G E. apply Hg in G. rewrite He', G, He, E. unfold labelVisibilityState.
    reflexivity.
  - intros Hf. apply Hno. intros [_ G]. rewrite Hf in G. discriminate.
  - intros Ht Ho. apply Hno. intros [[G | [_ G]] _].
    + exact (Ht G).
    + rewrite Ho in G. discriminate.
  - unfold setLabelVisible. rewrite Hen. reflexivity.
Qed.

(** *** Mutual exclusion of the label and the dummy label *)

Lemma step_keeps_exclusion (t : Transition) (e : Edge) :
  showsExplicitly t = false -> bothVisible e = false -> bothVisible (step t e) = false.
Proof.
  destruct t as [v r]. unfold step, setLabelVisible, bothVisible. cbn [fst snd].
  intros Ht He.
  destruct (m_enableLabel e); [ | exact He ].
  destruct r, v; try discriminate Ht; try exact He;
    cbn [m_label m_dummyLabel with_labels setVisible detach labelVisible negb].
  - destruct (isEnoughSpaceForLabel e && negb (isEmpty (labelText (m_label e)))); reflexivity.
  - destruct (isEnoughSpaceForLabel e && negb (isEmpty (labelText (m_label e)))); reflexivity.
  - reflexivity.
  - reflexivity.
  - destruct (timeoutHides e); [ reflexivity | exact He ].
Qed.

Lemma step_establishes_exclusion (t : Transition) (e : Edge) :
  m_enableLabel e = true ->
  match t with
  | (_, AvailableSpaceChanged) | (true, Focused) | (false, Explicit) => True
  | _ => False
  end ->
  bothVisible (step t e) = false.
Proof.
  destruct t as [v r]. unfold step, setLabelVisible, bothVisible. cbn [fst snd].
  intros -> Ht.
  destruct r, v; try contradiction;
    cbn [m_label m_dummyLabel with_labels setVisible detach labelVisible negb];
    try reflexivity;
    destruct (isEnoughSpaceForLabel e && negb (isEmpty (labelText (m_label e)))); reflexivity.
Qed.

(** The claim C2 (as amended): from a state in which the label and the dummy
    label are not both visible, no sequence of [setLabelVisible] calls without
    a call [setLabelVisible(true, Explicit)] leads to a state in which both
    are visible. *)
Theorem label_and_dummy_exclusive (ts : list Transition) (e : Edge) :
  bothVisible e = false ->
  forallb (fun t => negb (showsExplicitly t)) ts = true ->
  bothVisible (run ts e) = false.
Proof.
  revert e. induction ts as [ | t ts IH ]; intros e He Hts.
  - exact He.
  - cbn [forallb] in Hts. apply andb_true_iff in Hts as [Ht Hts].
    apply negb_true_iff in Ht.
    cbn [run]. apply IH; [ | exact Hts ].
    apply step_keeps_exclusion; assumption.
Qed.

(** ** The labelled scenario *)

Lemma span_disjoint (a wa b wb : R) :
  0 <= wa -> 0 <= wb -> a + wa <= b \/ b + wb <= a -> span_intersects a wa b wb = false.
Proof.
  intros Ha Hb H. unfold span_intersects.
  destruct (Rlt_dec wa 0); [ lra | ]. destruct (Rlt_dec wb 0); [ lra | ].
  apply andb_false_iff. destruct H as [H | H].
  - right. apply Rlt_b_false. exact H.
  - left. apply andb_false_iff. right. apply Rlt_b_false. exact H.
Qed.

Lemma intersects_disjoint_x (a b : QRectF) :
  0 <= rw a -> 0 <= rw b -> rx a + rw a <= rx b \/ rx b + rw b <= rx a ->
  intersects a b = false.
Proof.
  intros Ha Hb H. unfold intersects. rewrite (span_disjoint _ _ _ _ Ha Hb H). reflexivity.
Qed.

Lemma labelledEdge_unfold :
  labelledEdge = setLabelVisible true AvailableSpaceChanged labelledEdgePlaced.
Proof. reflexivity. Qed.

Lemma labelledEdgePlaced_space :
  overlapsNodes (m_label labelledEdgePlaced) labelledEdgePlaced = false /\
  overlapsNodes (m_dummyLabel labelledEdgePlaced) labelledEdgePlaced = false.
Proof.
  split; unfold overlapsNodes; apply orb_false_iff; split;
    apply intersects_disjoint_x; cbn; lra.
Qed.

Lemma labelledEdgePlaced_enough :
  isEnoughSpaceForLabel labelledEdgePlaced = true /\
  isEnoughSpaceForDummyLabel labelledEdgePlaced = true.
Proof.
  destruct labelledEdgePlaced_space as [Hl Hd].
  unfold isEnoughSpaceForLabel, isEnoughSpaceForDummyLabel.
  rewrite !isEnoughSpaceFor_in_scene by reflexivity.
  rewrite Hl, Hd. split; reflexivity.
Qed.

Lemma labelledEdge_labels :
  m_label labelledEdge = setVisible true (m_label labelledEdgePlaced) /\
  m_dummyLabel labelledEdge = setVisible false (m_dummyLabel labelledEdgePlaced) /\
  m_sourceNode labelledEdge = scenarioSource /\
  m_targetNode labelledEdge = scenarioTarget /\
  m_enableLabel labelledEdge = true.
Proof.
  destruct labelledEdgePlaced_enough as [Hl Hd].
  rewrite labelledEdge_unfold. unfold setLabelVisible.
  change (m_enableLabel labelledEdgePlaced) with true. cbv iota.
  rewrite Hl, Hd.
  repeat split.
Qed.

Lemma labelledEdge_facts :
  m_enableLabel labelledEdge = true /\
  labelInScene (m_label labelledEdge) = true /\
  labelInScene (m_dummyLabel labelledEdge) = true /\
  labelText (m_label labelledEdge) = "hello"%string /\
  labelText (m_dummyLabel labelledEdge) = "..."%string /\
  labelHasFocus (m_label labelledEdge) = false /\
  overlapsNodes (m_label labelledEdge) labelledEdge = false /\
  overlapsNodes (m_dummyLabel labelledEdge) labelledEdge = false /\
  labelVisible (m_label labelledEdge) = true /\
  labelVisible (m_dummyLabel labelledEdge) = false.
Proof.
  destruct labelledEdge_labels as (Hl & Hd & Hs & Ht & Hen).
  destruct labelledEdgePlaced_space as [Hol Hod].
  unfold overlapsNodes, sourceNode, targetNode in *.
  rewrite Hl, Hd, Hs, Ht, Hen.
  repeat split; assumption.
Qed.

Lemma labelledEdge_enough :
  isEnoughSpaceForLabel labelledEdge = true /\
  isEnoughSpaceForDummyLabel labelledEdge = true /\
  dummyEligible labelledEdge = true /\
  timeoutHides labelledEdge = false.
Proof.
  destruct labelledEdge_facts as (Hen & Hsl & Hsd & Htl & Htd & Hf & Hol & Hod & Hvl & Hvd).
  assert (Hl : isEnoughSpaceForLabel labelledEdge = true).
  { unfold isEnoughSpaceForLabel. rewrite isEnoughSpaceFor_in_scene, Hol by exact Hsl.
    reflexivity. }
  assert (Hd : isEnoughSpaceForDummyLabel labelledEdge = true).
  { unfold isEnoughSpaceForDummyLabel. rewrite isEnoughSpaceFor_in_scene, Hod by exact Hsd.
    reflexivity. }
  repeat split.
  - exact Hl.
  - exact Hd.
  - unfold dummyEligible, dummyLabelTextIsShoterThanLabelText. rewrite Hd, Htl, Htd. reflexivity.
  - unfold timeoutHides. rewrite Hl, Htl, Hf. reflexivity.
Qed.

(** ** The scenario with a label that does not fit *)

Lemma span_overlap (a wa b wb : R) :
  0 < wa -> 0 < wb -> a < b + wb -> b < a + wa -> span_intersects a wa b wb = true.
Proof.
  intros Ha Hb H1 H2. unfold span_intersects.
  destruct (Rlt_dec wa 0); [ lra | ]. destruct (Rlt_dec wb 0); [ lra | ].
  repeat (apply andb_true_iff; split).
  - apply negb_true_iff, Req_b_false. lra.
  - apply negb_true_iff, Req_b_false. lra.
  - apply Rlt_b_true. exact H1.
  - apply Rlt_b_true. exact H2.
Qed.

Lemma wideEdge_unfold :
  wideEdge = setLabelVisible true AvailableSpaceChanged wideEdgePlaced.
Proof. reflexivity. Qed.

Lemma wideEdgePlaced_space :
  overlapsNodes (m_label wideEdgePlaced) wideEdgePlaced = true /\
  overlapsNodes (m_dummyLabel wideEdgePlaced) wideEdgePlaced = false.
Proof.
  split; unfold overlapsNodes.
  - apply orb_true_iff. left. unfold intersects. apply andb_true_iff.
    split; apply span_overlap; cbn; lra.
  - apply orb_false_iff; split; apply intersects_disjoint_x; cbn; lra.
Qed.

Lemma wideEdge_facts :
  m_enableLabel wideEdge = true /\
  labelInScene (m_label wideEdge) = true /\
  labelInScene (m_dummyLabel wideEdge) = true /\
  labelText (m_label wideEdge) = "a label that is too wide"%string /\
  labelText (m_dummyLabel wideEdge) = "..."%string /\
  labelHasFocus (m_label wideEdge) = false /\
  overlapsNodes (m_label wideEdge) wideEdge = true /\
  overlapsNodes (m_dummyLabel wideEdge) wideEdge = false /\
  labelVisible (m_label wideEdge) = false /\
  labelVisible (m_dummyLabel wideEdge) = true.
Proof.
  destruct wideEdgePlaced_space as [Hol Hod].
  assert (Hl : isEnoughSpaceForLabel wideEdgePlaced = false).
  { unfold isEnoughSpaceForLabel. rewrite isEnoughSpaceFor_in_scene, Hol by reflexivity.
    reflexivity. }
  assert (Hd : isEnoughSpaceForDummyLabel wideEdgePlaced = true).
  { unfold isEnoughSpaceForDummyLabel. rewrite isEnoughSpaceFor_in_scene, Hod by reflexivity.
    reflexivity. }
  assert (Hlabels :
            m_label wideEdge = setVisible false (m_label wideEdgePlaced) /\
            m_dummyLabel wideEdge = setVisible true (m_dummyLabel wideEdgePlaced) /\
            m_sourceNode wideEdge = scenarioSource /\
            m_targetNode wideEdge = scenarioTarget /\
            m_enableLabel wideEdge = true).
  { rewrite wideEdge_unfold. unfold setLabelVisible.
    change (m_enableLabel wideEdgePlaced) with true. cbv iota.
    rewrite Hl, Hd. repeat split. }
  destruct Hlabels as (Hml & Hmd & Hs & Ht & Hen).
  unfold overlapsNodes, sourceNode, targetNode in *.
  rewrite Hml, Hmd, Hs, Ht, Hen.
  repeat split; assumption.
Qed.

Lemma wideEdge_enough :
  isEnoughSpaceForLabel wideEdge = false /\
  dummyEligible wideEdge = true /\
  timeoutHides wideEdge = true.
Proof.
  destruct wideEdge_facts as (Hen & Hsl & Hsd & Htl & Htd & Hf & Hol & Hod & Hvl & Hvd).
  assert (Hl : isEnoughSpaceForLabel wideEdge = false).
  { unfold isEnoughSpaceForLabel. rewrite isEnoughSpaceFor_in_scene, Hol by exact Hsl.
    reflexivity. }
  assert (Hd : isEnoughSpaceForDummyLabel wideEdge = true).
  { unfold isEnoughSpaceForDummyLabel. rewrite isEnoughSpaceFor_in_scene, Hod by exact Hsd.
    reflexivity. }
  refine (conj Hl (conj _ _)).
  - unfold dummyEligible, dummyLabelTextIsShoterThanLabelText. rewrite Hd, Htl, Htd. reflexivity.
  - unfold timeoutHides. rewrite Hl, Htl, Hf. reflexivity.
Qed.

(** C2 as stated fails: on the labelled scenario both text items are eligible
    (each fits, the label's text is not empty and the dummy's text is
    shorter) and only the label is visible; the call
    [setLabelVisible(true, Explicit)] leaves both visible. *)
Lemma explicit_request_shows_both :
  m_enableLabel labelledEdge = true /\
  isEnoughSpaceForLabel labelledEdge = true /\
  isEmpty (labelText (m_label labelledEdge)) = false /\
  dummyEligible labelledEdge = true /\
  bothVisible labelledEdge = false /\
  labelVisible (m_label (run [(true, Explicit)] labelledEdge)) = true /\
  labelVisible (m_dummyLabel (run [(true, Explicit)] labelledEdge)) = true /\
  bothVisible (run [(true, Explicit)] labelledEdge) = true.
Proof.
  destruct labelledEdge_facts as (Hen & Hsl & Hsd & Htl & Htd & Hf & Hol & Hod & Hvl & Hvd).
  destruct labelledEdge_enough as (Hl & Hd & He & Hh).
  assert (Hrun : run [(true, Explicit)] labelledEdge
                 = with_labels (setVisible true (m_label labelledEdge))
                               (setVisible true (m_dummyLabel labelledEdge)) labelledEdge).
  { cbn [run]. unfold step, setLabelVisible. cbn [fst snd]. rewrite Hen. reflexivity. }
  rewrite Hrun. unfold bothVisible. rewrite Htl, Hvl, Hvd.
  repeat split; assumption.
Qed.

(** [label_and_dummy_exclusive] on the labelled scenario, for a sequence of
    calls of all four reasons. *)
Lemma label_and_dummy_exclusive_witness :
  bothVisible labelledEdge = false /\
  bothVisible
    (run [(true, AvailableSpaceChanged); (true, Focused); (false, Timeout); (false, Explicit);
          (true, Timeout); (false, Focused)] labelledEdge) = false.
Proof.
  assert (H : bothVisible labelledEdge = false).
  { unfold bothVisible.
    destruct labelledEdge_facts as (_ & _ & _ & _ & _ & _ & _ & _ & -> & ->). reflexivity. }
  split; [ exact H | ].
  exact (label_and_dummy_exclusive
           [(true, AvailableSpaceChanged); (true, Focused); (false, Timeout); (false, Explicit);
            (true, Timeout); (false, Focused)] labelledEdge H eq_refl).
Defined.

Lemma emptiedEdge_facts :
  m_enableLabel emptiedEdge = true /\
  labelInScene (m_label emptiedEdge) = true /\
  labelInScene (m_dummyLabel emptiedEdge) = true /\
  labelText (m_label emptiedEdge) = EmptyString /\
  labelText (m_dummyLabel emptiedEdge) = "..."%string /\
  labelVisible (m_label emptiedEdge) = true /\
  timeoutHides emptiedEdge = true /\
  dummyEligible emptiedEdge = false.
Proof.
  destruct labelledEdge_facts as (Hen & Hsl & Hsd & Htl & Htd & Hf & Hol & Hod & Hvl & Hvd).
  refine (conj Hen (conj Hsl (conj Hsd (conj eq_refl (conj Htd (conj Hvl (conj _ _))))))).
  - unfold timeoutHides, emptiedEdge. cbn [m_label with_labels labelText labelHasFocus isEmpty].
    rewrite Hf. reflexivity.
  - unfold dummyEligible, dummyLabelTextIsShoterThanLabelText, emptiedEdge.
    cbn [m_label m_dummyLabel with_labels labelText]. rewrite Htd.
    apply andb_false_iff. right. reflexivity.
Qed.

(** [available_space_changed_state] on the three scenarios: the label that
    fits and reads "hello" becomes [Visible]; for the label that is too wide
    the dummy label stands in; and with no text nothing is shown. *)
Lemma available_space_changed_state_witness :
  labelVisibilityState (setLabelVisible false AvailableSpaceChanged labelledEdge)
  = Some StateVisible /\
  labelVisibilityState (setLabelVisible true AvailableSpaceChanged wideEdge)
  = Some StateDummyVisible /\
  labelVisibilityState (setLabelVisible true AvailableSpaceChanged emptiedEdge)
  = Some StateHidden.
Proof.
  destruct labelledEdge_facts as (Hen & Hsl & Hsd & Htl & Htd & Hf & Hol & Hod & Hvl & Hvd).
  destruct wideEdge_facts as (Wen & Wsl & Wsd & Wtl & Wtd & Wf & Wol & Wod & Wvl & Wvd).
  destruct emptiedEdge_facts as (Een & Esl & Esd & Etl & Etd & _).
  refine (conj _ (conj _ _)).
  - rewrite (available_space_changed_state false labelledEdge Hen Hsl Hsd).
    rewrite Hol, Htl. reflexivity.
  - rewrite (available_space_changed_state true wideEdge Wen Wsl Wsd).
    rewrite Wol, Wod, Wtl, Wtd. reflexivity.
  - rewrite (available_space_changed_state true emptiedEdge Een Esl Esd).
    rewrite Etl, Etd. cbn [isEmpty String.length Nat.eqb negb].
    rewrite !andb_false_r. reflexivity.
Defined.

Lemma editedWideEdge_facts :
  m_enableLabel editedWideEdge = true /\
  labelInScene (m_label editedWideEdge) = true /\
  labelInScene (m_dummyLabel editedWideEdge) = true /\
  labelText (m_label editedWideEdge) = "a label that is too wide"%string /\
  labelHasFocus (m_label editedWideEdge) = true /\
  labelVisible (m_label editedWideEdge) = true /\
  labelVisible (m_dummyLabel editedWideEdge) = false /\
  overlapsNodes (m_label editedWideEdge) editedWideEdge = true.
Proof.
  destruct wideEdge_facts as (Wen & Wsl & Wsd & Wtl & Wtd & Wf & Wol & Wod & Wvl & Wvd).
  assert (Hh : hoverEnterEvent wideEdge
               = with_labels (detach (setVisible true (m_label wideEdge)))
                             (setVisible false (m_dummyLabel wideEdge))
                             (with_timer (timer_stop (m_labelVisibilityTimer wideEdge)) wideEdge)).
  { unfold hoverEnterEvent, setLabelVisible.
    change (m_enableLabel (with_timer (timer_stop (m_labelVisibilityTimer wideEdge)) wideEdge))
      with (m_enableLabel wideEdge).
    rewrite Wen. reflexivity. }
  unfold editedWideEdge. cbv zeta. rewrite Hh.
  unfold overlapsNodes in *.
  cbn [m_label m_dummyLabel m_enableLabel with_labels with_timer focusIn detach setVisible
       labelText labelVisible labelInScene labelHasFocus sceneBoundingRect labelPos
       labelBoundingRect sourceNode targetNode m_sourceNode m_targetNode] in *.
  repeat split; assumption.
Qed.

(** [timeout_transition] on four scenarios.  The timer started at time 500
    expires at 2500.  While the label that is too wide is edited, it has the
    focus and is visible: the transition changes nothing, although the label
    overlaps a node.  The label with text and room is left visible; the
    visible label without text is hidden and the dummy label, whose text is
    not shorter than the empty text, stays hidden; for the label that is too
    wide and has no focus the dummy label is shown. *)
Lemma timeout_transition_witness :
  expiry (m_labelVisibilityTimer (hoverLeaveEvent 500 (initLabelVisibilityTimer wideEdge)))
  = Some 2500%Z /\
  (labelHasFocus (m_label editedWideEdge) = true /\
   overlapsNodes (m_label editedWideEdge) editedWideEdge = true /\
   setLabelVisible false Timeout editedWideEdge = editedWideEdge /\
   labelVisibilityState (setLabelVisible false Timeout editedWideEdge) = Some StateVisible) /\
  (labelVisibilityState labelledEdge = Some StateVisible /\
   setLabelVisible false Timeout labelledEdge = labelledEdge) /\
  (labelVisible (m_label emptiedEdge) = true /\
   labelVisibilityState (setLabelVisible false Timeout emptiedEdge) = Some StateHidden) /\
  labelVisibilityState (setLabelVisible false Timeout wideEdge) = Some StateDummyVisible.
Proof.
  destruct labelledEdge_facts as (Hen & Hsl & Hsd & Htl & Htd & Hf & Hol & Hod & Hvl & Hvd).
  destruct emptiedEdge_facts as (Een & Esl & Esd & Etl & Etd & Ev & _ & _).
  destruct wideEdge_facts as (Wen & Wsl & Wsd & Wtl & Wtd & Wf & Wol & Wod & Wvl & Wvd).
  destruct editedWideEdge_facts as (Fen & Fsl & Fsd & Ftl & Ff & Fvl & Fvd & Fol).
  destruct (timeout_transition wideEdge Wen Wsl Wsd) as (Htimer & Hdummy & _).
  destruct (timeout_transition editedWideEdge Fen Fsl Fsd) as (_ & _ & _ & _ & Hfocus & _).
  destruct (timeout_transition labelledEdge Hen Hsl Hsd) as (_ & _ & _ & _ & _ & Hroom & _).
  destruct (timeout_transition emptiedEdge Een Esl Esd) as (_ & _ & Hhidden & _).
  refine (conj _ (conj (conj Ff (conj Fol (conj (Hfocus Ff) _))) (conj (conj _ _) (conj (conj Ev _) _)))).
  - exact (proj2 (Htimer 500%Z)).
  - rewrite (Hfocus Ff). unfold labelVisibilityState. rewrite Fvl, Fvd. reflexivity.
  - unfold labelVisibilityState. rewrite Hvl, Hvd. reflexivity.
  - apply Hroom; [ rewrite Htl; discriminate | exact Hol ].
  - apply Hhidden.
    + split; [ left; exact Etl | ].
      unfold emptiedEdge. cbn [m_label with_labels labelHasFocus]. exact Hf.
    + rewrite Etl, Etd. apply andb_false_iff. right. reflexivity.
  - apply Hdummy.
    + split; [ right; split; [ rewrite Wtl; discriminate | exact Wol ] | exact Wf ].
    + rewrite Wod, Wtl, Wtd. reflexivity.
Defined.

(** C4 as stated fails in two of its cases.  On the labelled scenario the
    label has a text and room and no focus, so the condition for hiding does
    not hold, and the dummy label is eligible: the transition leaves the label
    visible and does not fall back to the dummy label.  On the wide scenario
    the condition for hiding holds (the text is not empty, the label overlaps
    a node and has no focus): the transition leads to [DummyVisible], not to
    [Hidden], since the dummy label is eligible. *)
Lemma timeout_outcome_differs :
  (labelText (m_label labelledEdge) = "hello"%string /\
   overlapsNodes (m_label labelledEdge) labelledEdge = false /\
   labelHasFocus (m_label labelledEdge) = false /\
   dummyEligible labelledEdge = true /\
   labelVisibilityState labelledEdge = Some StateVisible /\
   labelVisibilityState (setLabelVisible false Timeout labelledEdge) = Some StateVisible /\
   labelVisibilityState (setLabelVisible false Timeout labelledEdge)
   <> Some StateDummyVisible) /\
  (labelText (m_label wideEdge) = "a label that is too wide"%string /\
   overlapsNodes (m_label wideEdge) wideEdge = true /\
   labelHasFocus (m_label wideEdge) = false /\
   dummyEligible wideEdge = true /\
   labelVisibilityState (setLabelVisible false Timeout wideEdge) = Some StateDummyVisible /\
   labelVisibilityState (setLabelVisible false Timeout wideEdge) <> Some StateHidden).
Proof.
  destruct labelledEdge_facts as (Hen & Hsl & Hsd & Htl & Htd & Hf & Hol & Hod & Hvl & Hvd).
  destruct labelledEdge_enough as (_ & _ & He & Hh).
  destruct wideEdge_facts as (Wen & Wsl & Wsd & Wtl & Wtd & Wf & Wol & Wod & Wvl & Wvd).
  destruct wideEdge_enough as (_ & We & Wh).
  assert (L : setLabelVisible false Timeout labelledEdge = labelledEdge).
  { unfold setLabelVisible. rewrite Hen, Hh. reflexivity. }
  assert (Ls : labelVisibilityState labelledEdge = Some StateVisible).
  { unfold labelVisibilityState. rewrite Hvl, Hvd. reflexivity. }
  assert (W : labelVisibilityState (setLabelVisible false Timeout wideEdge)
              = Some StateDummyVisible).
  { unfold setLabelVisible. rewrite Wen, Wh. unfold labelVisibilityState.
    cbn [m_label m_dummyLabel with_labels setVisible labelVisible negb].
    fold (dummyEligible wideEdge). rewrite We. reflexivity. }
  split.
  - rewrite L, Ls. repeat split; try assumption. discriminate.
  - rewrite W. repeat split; try assumption. discriminate.
Qed.

(** [pulse_restart_iff_relative_position_changed] on the scenario, as
    [updateLine] reaches [updateDots]: the source end (10,0) relative to the
    source node at (0,0) differs from the recorded (0,0), so the animation is
    started; moving node and end point together afterwards starts nothing. *)
Lemma pulse_restart_witness :
  let e := lineSet scenarioNearest scenarioEdge in
  animStarts (m_sourceDotSizeAnimation (updateDots e)) = 1%nat /\
  m_sourceDotSizeAnimation
    (updateDots
       (withGeometry (movedBy (mkPoint 7 3) (sourceNode (updateDots e))) scenarioTarget
                     (mkLine (p1 (line (m_line (updateDots e))) + mkPoint 7 3)%pt (mkPoint 89 0))
                     (updateDots e)))
  = m_sourceDotSizeAnimation (updateDots e).
Proof.
  cbv zeta.
  pose proof (pulse_restart_iff_relative_position_changed
                (lineSet scenarioNearest scenarioEdge) eq_refl) as H.
  cbv zeta in H. destruct H as (Hs & _ & _ & _ & Hmove & _).
  split.
  - change 1%nat with (S (animStarts (m_sourceDotSizeAnimation (lineSet scenarioNearest scenarioEdge)))).
    apply Hs.
    unfold relativeSourcePos. rewrite lineSet_line, scenario_line.
    intros Heq. apply (f_equal px) in Heq. cbn in Heq. lra.
  - exact (Hmove (mkPoint 7 3) scenarioTarget (mkPoint 89 0)).
Defined.

(** ** Degenerate geometry

    In the embedding a null direction vector stays the null vector and a null
    segment has angle 0; what the line and the arrowhead then are. *)

(** Property X13: when the nearest edge point of the target is the target's
    own position, the direction vector cannot be normalised and stays the
    null vector: the target end of the segment is then that position itself,
    whatever the edge width and the corner radius are. *)
Lemma null_direction_keeps_anchor
    (getNearestEdgePoints : Node -> Node -> EdgePoint * EdgePoint) (e : Edge) :
  nodePos (targetNode e) = targetAnchor getNearestEdgePoints e ->
  targetDirection getNearestEdgePoints e = mkVec 0 0 /\
  p2 (line (m_line (updateLine getNearestEdgePoints e))) = targetAnchor getNearestEdgePoints e.
Proof.
  intros H.
  assert (Hd : targetDirection getNearestEdgePoints e = mkVec 0 0).
  { unfold targetDirection. rewrite H. unfold QVector2D_of, to_float. cbn [psub px py].
    replace (px (targetAnchor getNearestEdgePoints e) - px (targetAnchor getNearestEdgePoints e))
      with 0 by ring.
    replace (py (targetAnchor getNearestEdgePoints e) - py (targetAnchor getNearestEdgePoints e))
      with 0 by ring.
    apply normalize_null. unfold lengthSquared; simpl; ring. }
  split; [ exact Hd | ].
  destruct (updateLine_ends getNearestEdgePoints e) as [_ H2]. cbv zeta in H2.
  rewrite H2, Hd. apply point_ext; cbn; ring.
Qed.


(** [null_direction_keeps_anchor] on the scenario edge, with the target's
    nearest edge point at the target's position (100,0). *)
Lemma null_direction_keeps_anchor_witness :
  p2 (line (m_line (updateLine centreNearest scenarioEdge))) = mkPoint 100 0.
Proof.
  destruct (null_direction_keeps_anchor centreNearest scenarioEdge) as (_ & H).
  - unfold targetAnchor. apply point_ext; cbn; lra.
  - rewrite H. unfold targetAnchor. apply point_ext; cbn; lra.
Defined.

(** ** Arrowheads in the modes [Double] and [Hidden] *)

Lemma arrowheads_components (e : Edge) (bl br el er : LineItem) :
  arrowheads e = (bl, br, el, er) ->
  m_arrowheadBeginLeft e = bl /\ m_arrowheadBeginRight e = br /\
  m_arrowheadEndLeft e = el /\ m_arrowheadEndRight e = er.
Proof. unfold arrowheads. intros [= -> -> -> ->]. repeat split. Qed.

(** What [updateArrowhead] leaves in arrow mode [Double]. *)
Lemma updateArrowhead_double (e : Edge) :
  arrowMode (style (m_edgeModel e)) = Double ->
  let m := m_edgeModel e in
  let l := line (m_line e) in
  let p := mkPen (edgeWidth (style m)) false in
  let size := arrowSize (style m) in
  let pointBegin := if reversed m then p1 l else p2 l in
  let pointEnd := if reversed m then p2 l else p1 l in
  let angleBegin := if reversed m then - line_angle l + 180 else - line_angle l in
  let angleEnd := if reversed m then - line_angle l else - line_angle l + 180 in
  arrowheads (updateArrowhead e)
  = (wingItem p pointBegin (angleBegin + arrowOpening) size,
     wingItem p pointBegin (angleBegin - arrowOpening) size,
     wingItem p pointEnd (angleEnd + arrowOpening) size,
     wingItem p pointEnd (angleEnd - arrowOpening) size).
Proof.
  intros Hmode. cbv zeta. rewrite updateArrowhead_arrowheads.
  unfold arrowheadsFor. destruct (arrowheads e) as [[[bl br] el] er].
  rewrite Hmode. reflexivity.
Qed.

(** Property X1: in arrow mode [Double] all four wings are shown.  The two
    begin wings start at the begin end of the segment ([p2], or [p1] when
    reversed), the two end wings at the other end; each wing has the length
    [|arrowSize|], and the end wings point in the directions of the begin
    wings turned by 180 degrees. *)
Theorem double_arrowhead_wings (e : Edge) :
  arrowMode (style (m_edgeModel e)) = Double ->
  let l := line (m_line e) in
  let rev := reversed (m_edgeModel e) in
  let size := arrowSize (style (m_edgeModel e)) in
  let pointBegin := if rev then p1 l else p2 l in
  let pointEnd := if rev then p2 l else p1 l in
  let theta := if rev then - line_angle l + 180 else - line_angle l in
  let e' := updateArrowhead e in
  shownWings e' = (true, true, true, true) /\
  p1 (line (m_arrowheadBeginLeft e')) = pointBegin /\
  p1 (line (m_arrowheadBeginRight e')) = pointBegin /\
  p1 (line (m_arrowheadEndLeft e')) = pointEnd /\
  p1 (line (m_arrowheadEndRight e')) = pointEnd /\
  line_length (line (m_arrowheadBeginLeft e')) = Rabs size /\
  line_length (line (m_arrowheadBeginRight e')) = Rabs size /\
  line_length (line (m_arrowheadEndLeft e')) = Rabs size /\
  line_length (line (m_arrowheadEndRight e')) = Rabs size /\
  p2 (line (m_arrowheadBeginLeft e'))
  = wingTip pointBegin (qDegreesToRadians (theta + 150)) size /\
  p2 (line (m_arrowheadBeginRight e'))
  = wingTip pointBegin (qDegreesToRadians (theta - 150)) size /\
  p2 (line (m_arrowheadEndLeft e'))
  = wingTip pointEnd (qDegreesToRadians (theta + 150) + PI) size /\
  p2 (line (m_arrowheadEndRight e'))
  = wingTip pointEnd (qDegreesToRadians (theta - 150) + PI) size.
Proof.
  intros Hmode l rev size pointBegin pointEnd theta e'.
  pose proof (updateArrowhead_double e Hmode) as H. cbv zeta in H.
  apply arrowheads_components in H. fold e' l size in H.
  destruct H as (HBL & HBR & HEL & HER).
  unfold shownWings. rewrite HBL, HBR, HEL, HER.
  unfold wingItem, line_length. cbn [line shown p1 p2].
  fold rev. fold pointBegin pointEnd.
  refine (conj _ (conj _ (conj _ (conj _ (conj _ (conj _ (conj _ (conj _ (conj _
           (conj _ (conj _ (conj _ _)))))))))))); try reflexivity; try apply wingTip_dist.
  - unfold theta, arrowOpening, wingTip. destruct rev.
    + replace (qDegreesToRadians (- line_angle l + 150))
        with (qDegreesToRadians (- line_angle l + 180 + 150) + PI - 2 * PI)
        by (unfold qDegreesToRadians; field).
      rewrite cos_minus_2PI, sin_minus_2PI. reflexivity.
    + replace (qDegreesToRadians (- line_angle l + 180 + 150))
        with (qDegreesToRadians (- line_angle l + 150) + PI)
        by (unfold qDegreesToRadians; field).
      reflexivity.
  - unfold theta, arrowOpening, wingTip. destruct rev.
    + replace (qDegreesToRadians (- line_angle l - 150))
        with (qDegreesToRadians (- line_angle l + 180 - 150) + PI - 2 * PI)
        by (unfold qDegreesToRadians; field).
      rewrite cos_minus_2PI, sin_minus_2PI. reflexivity.
    + replace (qDegreesToRadians (- line_angle l + 180 - 150))
        with (qDegreesToRadians (- line_angle l - 150) + PI)
        by (unfold qDegreesToRadians; field).
      reflexivity.
Qed.

(** [double_arrowhead_wings] on the scenario edge in arrow mode [Double],
    with its segment from (10,0) to (89,0). *)
Lemma double_arrowhead_wings_witness :
  arrowMode (style (m_edgeModel doubleEdge)) = Double /\
  shownWings (updateArrowhead doubleEdge) = (true, true, true, true) /\
  p1 (line (m_arrowheadBeginLeft (updateArrowhead doubleEdge))) = mkPoint 89 0 /\
  p1 (line (m_arrowheadEndLeft (updateArrowhead doubleEdge))) = mkPoint 10 0.
Proof.
  split; [ reflexivity | ].
  pose proof (double_arrowhead_wings doubleEdge eq_refl) as H. cbv zeta in H.
  destruct H as (Hs & HB & _ & HE & _).
  split; [ exact Hs | split; [ exact HB | exact HE ] ].
Defined.

(** Property X2: in arrow mode [Double] reversing the edge only exchanges the
    begin pair of wings with the end pair: the same four wings are drawn. *)
Theorem double_arrowhead_reversal_swaps_ends (r : bool) (e : Edge) :
  arrowMode (style (m_edgeModel e)) = Double ->
  let a := setReversed r e in
  let b := setReversed (negb r) e in
  m_arrowheadBeginLeft b = m_arrowheadEndLeft a /\
  m_arrowheadBeginRight b = m_arrowheadEndRight a /\
  m_arrowheadEndLeft b = m_arrowheadBeginLeft a /\
  m_arrowheadEndRight b = m_arrowheadBeginRight a /\
  m_line b = m_line a.
Proof.
  intros Hmode a b.
  assert (Ha : arrowheads a
               = arrowheadsFor (mkEdgeModel r (style (m_edgeModel e)) (text (m_edgeModel e)))
                               (line (m_line e)) (arrowheads e)).
  { unfold a, setReversed. cbv zeta. rewrite updateArrowhead_arrowheads. reflexivity. }
  assert (Hb : arrowheads b
               = arrowheadsFor (mkEdgeModel (negb r) (style (m_edgeModel e)) (text (m_edgeModel e)))
                               (line (m_line e)) (arrowheads e)).
  { unfold b, setReversed. cbv zeta. rewrite updateArrowhead_arrowheads. reflexivity. }
  assert (Hla : m_line a = m_line e).
  { unfold a, setReversed. cbv zeta.
    match goal with |- m_line (updateArrowhead ?x) = _ =>
      destruct (updateArrowhead_frame x) as (_ & _ & _ & -> & _) end. reflexivity. }
  assert (Hlb : m_line b = m_line e).
  { unfold b, setReversed. cbv zeta.
    match goal with |- m_line (updateArrowhead ?x) = _ =>
      destruct (updateArrowhead_frame x) as (_ & _ & _ & -> & _) end. reflexivity. }
  clearbody a b.
  unfold arrowheadsFor in Ha, Hb. cbn [style reversed] in Ha, Hb.
  destruct (arrowheads e) as [[[bl br] el] er].
  rewrite Hmode in Ha, Hb.
  apply arrowheads_components in Ha. apply arrowheads_components in Hb.
  destruct Ha as (A1 & A2 & A3 & A4). destruct Hb as (B1 & B2 & B3 & B4).
  rewrite A1, A2, A3, A4, B1, B2, B3, B4, Hla, Hlb.
  destruct r; cbn [negb]; repeat split.
Qed.

(** [double_arrowhead_reversal_swaps_ends] on the scenario edge in arrow mode
    [Double]. *)
Lemma double_arrowhead_reversal_swaps_ends_witness :
  m_arrowheadBeginLeft (setReversed true doubleEdge)
  = m_arrowheadEndLeft (setReversed false doubleEdge) /\
  m_arrowheadEndRight (setReversed true doubleEdge)
  = m_arrowheadBeginRight (setReversed false doubleEdge).
Proof.
  pose proof (double_arrowhead_reversal_swaps_ends false doubleEdge eq_refl) as H.
  cbv zeta in H. cbn [negb] in H.
  destruct H as (H1 & _ & _ & H4 & _).
  split; [ exact H1 | exact H4 ].
Defined.

(** Property X3: the outcome of [setReversed] does not depend on the
    reversals before it: the model, the segment and the four wing items are
    those of a single call with the last flag. *)
Theorem setReversed_last_call_wins (r r' : bool) (e : Edge) :
  setReversed r (setReversed r' e) = setReversed r e.
Proof.
  unfold setReversed, updateArrowhead. cbv zeta.
  cbn [m_edgeModel with_edgeModel setArrowHeadPen with_arrowheads style arrowMode text].
  destruct (arrowMode (style (m_edgeModel e))) eqn:Hmode.
  - cbn [updateSingleArrowhead m_edgeModel with_edgeModel setArrowHeadPen with_arrowheads
         style arrowMode text]. rewrite ?Hmode. reflexivity.
  - cbn [updateDoubleArrowhead m_edgeModel with_edgeModel setArrowHeadPen with_arrowheads
         style arrowMode text]. rewrite ?Hmode. reflexivity.
  - cbn [updateHiddenArrowhead m_edgeModel with_edgeModel setArrowHeadPen with_arrowheads
         style arrowMode text]. rewrite ?Hmode. reflexivity.
Qed.

(** ** Pens *)

Lemma arrowheadsFor_pens (m : EdgeModel) (l : QLineF)
    (old : LineItem * LineItem * LineItem * LineItem) :
  let '(bl, br, el, er) := arrowheadsFor m l old in
  let p := mkPen (edgeWidth (style m)) false in
  pen bl = p /\ pen br = p /\ pen el = p /\ pen er = p.
Proof.
  destruct old as [[[bl br] el] er]. unfold arrowheadsFor.
  destruct (arrowMode (style m)); repeat split.
Qed.

Lemma arrowheadsFor_shown (m : EdgeModel) (l : QLineF)
    (old : LineItem * LineItem * LineItem * LineItem) :
  let '(bl, br, el, er) := arrowheadsFor m l old in
  (shown bl, shown br, shown el, shown er)
  = match arrowMode (style m) with
    | Single => (true, true, false, false)
    | Double => (true, true, true, true)
    | Hidden => (false, false, false, false)
    end.
Proof.
  destruct old as [[[bl br] el] er]. unfold arrowheadsFor.
  destruct (arrowMode (style m)); reflexivity.
Qed.

Section MoreLineFacts.

Variable getNearestEdgePoints : Node -> Node -> EdgePoint * EdgePoint.

(** The wing items after [updateLine], from the state before. *)
Lemma updateLine_arrowheadsFor (e : Edge) :
  arrowheads (updateLine getNearestEdgePoints e)
  = arrowheadsFor (m_edgeModel e) (computeLine getNearestEdgePoints e) (arrowheads e).
Proof.
  destruct (updateLine_arrowheads getNearestEdgePoints e) as (B1 & B2 & B3 & B4).
  transitivity (arrowheads (updateArrowhead (labelSet getNearestEdgePoints e))).
  { unfold arrowheads. rewrite B1, B2, B3, B4. reflexivity. }
  rewrite updateArrowhead_arrowheads.
  assert (Hold : arrowheads (labelSet getNearestEdgePoints e) = arrowheads e).
  { destruct (labelSet_frame getNearestEdgePoints e)
      as (_ & _ & _ & _ & _ & _ & C1 & C2 & C3 & C4).
    unfold arrowheads. rewrite C1, C2, C3, C4. reflexivity. }
  rewrite Hold.
  destruct (labelSet_frame getNearestEdgePoints e) as (-> & _ & _ & -> & _).
  rewrite lineSet_line. reflexivity.
Qed.

Lemma updateLine_lineItem (e : Edge) :
  m_line (updateLine getNearestEdgePoints e)
  = mkLineItem (computeLine getNearestEdgePoints e) (buildPen false e) (shown (m_line e)).
Proof.
  rewrite updateLine_m_line. unfold lineSet; cbv zeta. cbn [m_line with_line].
  unfold setLine, setPen. cbn [line pen shown]. reflexivity.
Qed.

(** Property X4: after [updateLine] the segment is drawn with a pen of the
    edge's width that is dashed exactly when the style says so, and each of
    the four wings with a pen of the same width that is never dashed. *)
Theorem arrowhead_pens_never_dashed (e : Edge) :
  let e' := updateLine getNearestEdgePoints e in
  let st := style (m_edgeModel e) in
  pen (m_line e') = mkPen (edgeWidth st) (dashedLine st) /\
  wingPens e' = (mkPen (edgeWidth st) false, mkPen (edgeWidth st) false,
                 mkPen (edgeWidth st) false, mkPen (edgeWidth st) false).
Proof.
  intros e' st. split.
  - unfold e'. rewrite updateLine_lineItem. reflexivity.
  - pose proof (updateLine_arrowheadsFor e) as H. fold e' in H.
    pose proof (arrowheadsFor_pens (m_edgeModel e) (computeLine getNearestEdgePoints e)
                                   (arrowheads e)) as Hp.
    destruct (arrowheadsFor (m_edgeModel e) (computeLine getNearestEdgePoints e) (arrowheads e))
      as [[[bl br] el] er].
    apply arrowheads_components in H. destruct H as (H1 & H2 & H3 & H4).
    unfold wingPens. rewrite H1, H2, H3, H4.
    cbv zeta in Hp. destruct Hp as (-> & -> & -> & ->). reflexivity.
Qed.

End MoreLineFacts.

(** ** Hovering and the label's timer *)

Lemma timerEvent_inactive (t : Z) (e : Edge) :
  expiry (m_labelVisibilityTimer e) = None -> timerEvent t e = e.
Proof. intros H. unfold timerEvent. rewrite H. reflexivity. Qed.

Lemma hoverEnterEvent_timer (e : Edge) :
  m_labelVisibilityTimer (hoverEnterEvent e) = timer_stop (m_labelVisibilityTimer e).
Proof.
  unfold hoverEnterEvent.
  destruct (setLabelVisible_frame true Focused
              (with_timer (timer_stop (m_labelVisibilityTimer e)) e))
    as (_ & _ & _ & _ & _ & _ & _ & _ & _ & _ & _ & _ & _ & _ & ->).
  reflexivity.
Qed.

(** Property X5: a hover-enter cancels the hide that a hover-leave has
    scheduled: afterwards the timer is inactive and no passing of time
    changes the edge, which is in the state a hover-enter alone would have
    left.  If the edge has a label, the label is then visible and detached
    from the edge, and the dummy label is hidden.  A second hover-leave
    replaces the deadline of the first. *)
Theorem hover_enter_cancels_pending_hide (now : Z) (e : Edge) :
  let e' := hoverEnterEvent (hoverLeaveEvent now e) in
  e' = hoverEnterEvent e /\
  expiry (m_labelVisibilityTimer e') = None /\
  (forall t : Z, timerEvent t e' = e') /\
  (m_enableLabel e = true ->
   labelVisible (m_label e') = true /\ labelVisible (m_dummyLabel e') = false /\
   labelParentIsEdge (m_label e') = false) /\
  (forall later : Z, hoverLeaveEvent later (hoverLeaveEvent now e) = hoverLeaveEvent later e).
Proof.
  intros e'.
  assert (He' : e' = hoverEnterEvent e) by reflexivity.
  assert (Hexp : expiry (m_labelVisibilityTimer e') = None).
  { rewrite He', hoverEnterEvent_timer. reflexivity. }
  refine (conj He' (conj Hexp (conj _ (conj _ _)))).
  - intros t. apply timerEvent_inactive. exact Hexp.
  - intros Hen. rewrite He'. unfold hoverEnterEvent, setLabelVisible.
    cbn [m_enableLabel with_timer]. rewrite Hen. repeat split.
  - intros later. reflexivity.
Qed.

(** Property X6: the label's timer is a single-shot timer: once it has fired
    after a hover-leave it is inactive, and the edge stays as the timeout
    left it until the next hover-leave. *)
Theorem timeout_fires_once (now t1 t2 : Z) (e : Edge) :
  singleShot (m_labelVisibilityTimer e) = true ->
  (now + interval (m_labelVisibilityTimer e) <= t1)%Z ->
  let fired := timerEvent t1 (hoverLeaveEvent now e) in
  expiry (m_labelVisibilityTimer fired) = None /\
  timerEvent t2 fired = fired.
Proof.
  intros Hss Hdue fired.
  assert (Hexp : expiry (m_labelVisibilityTimer fired) = None).
  { unfold fired, timerEvent, hoverLeaveEvent.
    cbn [m_labelVisibilityTimer with_timer timer_start expiry singleShot interval].
    rewrite Hss. apply Z.leb_le in Hdue. rewrite Hdue.
    match goal with |- context [ setLabelVisible ?v ?r ?x ] =>
      destruct (setLabelVisible_frame v r x)
        as (_ & _ & _ & _ & _ & _ & _ & _ & _ & _ & _ & _ & _ & _ & ->) end.
    reflexivity. }
  split; [ exact Hexp | apply timerEvent_inactive; exact Hexp ].
Qed.

(** [timeout_fires_once] on the scenario edge, whose timer the constructor
    has set up: a hover-leave at 500, the clock at 2500 and at 9000. *)
Lemma timeout_fires_once_witness :
  let fired := timerEvent 2500 (hoverLeaveEvent 500 scenarioEdge) in
  expiry (m_labelVisibilityTimer fired) = None /\ timerEvent 9000 fired = fired.
Proof.
  cbv zeta.
  apply (timeout_fires_once 500 2500 9000 scenarioEdge).
  - reflexivity.
  - vm_compute. discriminate.
Defined.

(** ** The label on the segment *)

Lemma setLabelVisible_labels v r e :
  let e' := setLabelVisible v r e in
  labelPos (m_label e') = labelPos (m_label e) /\
  labelBoundingRect (m_label e') = labelBoundingRect (m_label e) /\
  labelText (m_label e') = labelText (m_label e) /\
  labelPos (m_dummyLabel e') = labelPos (m_dummyLabel e) /\
  labelBoundingRect (m_dummyLabel e') = labelBoundingRect (m_dummyLabel e) /\
  labelText (m_dummyLabel e') = labelText (m_dummyLabel e) /\
  m_sourceDot e' = m_sourceDot e /\ m_targetDot e' = m_targetDot e.
Proof.
  unfold setLabelVisible.
  destruct (m_enableLabel e) eqn:?, r, v; simpl;
    try destruct (timeoutHides e); simpl; repeat split; auto.
Qed.

Lemma updateLabel_placement r e :
  m_enableLabel e = true ->
  let e' := updateLabel r e in
  labelPos (m_label e') = labelPosFor (line (m_line e)) (m_label e) /\
  labelBoundingRect (m_label e') = labelBoundingRect (m_label e) /\
  labelPos (m_dummyLabel e') = labelPosFor (line (m_line e)) (m_dummyLabel e) /\
  labelBoundingRect (m_dummyLabel e') = labelBoundingRect (m_dummyLabel e).
Proof.
  intros Hen. unfold updateLabel. rewrite Hen. cbv zeta.
  destruct r.
  - repeat split.
  - match goal with |- context [ setLabelVisible ?v ?r ?x ] =>
      destruct (setLabelVisible_labels v r x) as (-> & -> & _ & -> & -> & _) end.
    repeat split.
Qed.



Lemma with_transformOriginPoint_dots p e :
  m_sourceDot (with_transformOriginPoint p e) = m_sourceDot e /\
  m_targetDot (with_transformOriginPoint p e) = m_targetDot e /\
  transformOriginPoint (with_transformOriginPoint p e) = p.
Proof. repeat split. Qed.

Lemma labelCentre_placed (l : QLineF) (t t' : EdgeTextEdit) :
  labelPos t' = labelPosFor l t ->
  labelBoundingRect t' = labelBoundingRect t ->
  labelCentre t' = line_center l.
Proof.
  intros Hp Hr. unfold labelCentre, line_center. rewrite Hp, Hr. unfold labelPosFor.
  apply point_ext; cbn; lra.
Qed.

Section LabelFacts.

Variable getNearestEdgePoints : Node -> Node -> EdgePoint * EdgePoint.

Lemma updateLine_labels (e : Edge) :
  m_label (updateLine getNearestEdgePoints e) = m_label (labelSet getNearestEdgePoints e) /\
  m_dummyLabel (updateLine getNearestEdgePoints e)
  = m_dummyLabel (labelSet getNearestEdgePoints e).
Proof.
  rewrite updateLine_unfold.
  destruct (with_transformOriginPoint_frame
              (line_center (line (m_line (updateArrowhead (labelSet getNearestEdgePoints e)))))
              (updateArrowhead (labelSet getNearestEdgePoints e)))
    as (_ & _ & _ & _ & _ & _ & -> & -> & _).
  destruct (updateArrowhead_frame (labelSet getNearestEdgePoints e))
    as (_ & _ & _ & _ & _ & _ & -> & -> & _).
  split; reflexivity.
Qed.

Lemma labelSet_placement (e : Edge) :
  m_enableLabel e = true ->
  labelPos (m_label (labelSet getNearestEdgePoints e))
  = labelPosFor (computeLine getNearestEdgePoints e) (m_label e) /\
  labelBoundingRect (m_label (labelSet getNearestEdgePoints e)) = labelBoundingRect (m_label e) /\
  labelPos (m_dummyLabel (labelSet getNearestEdgePoints e))
  = labelPosFor (computeLine getNearestEdgePoints e) (m_dummyLabel e) /\
  labelBoundingRect (m_dummyLabel (labelSet getNearestEdgePoints e))
  = labelBoundingRect (m_dummyLabel e).
Proof.
  intros Hen. unfold labelSet.
  destruct (updateDots_frame (lineSet getNearestEdgePoints e))
    as (_ & _ & _ & Hline & Hen0 & _ & Hl & Hd & _).
  cbv zeta in Hline, Hen0, Hl, Hd.
  assert (Hen1 : m_enableLabel (updateDots (lineSet getNearestEdgePoints e)) = true).
  { rewrite Hen0. exact Hen. }
  destruct (updateLabel_placement EdgeGeometryChanged _ Hen1) as (P1 & P2 & P3 & P4).
  cbv zeta in P1, P2, P3, P4.
  rewrite P1, P2, P3, P4, Hline, Hl, Hd, lineSet_line.
  repeat split.
Qed.

Lemma updateLine_origin (e : Edge) :
  transformOriginPoint (updateLine getNearestEdgePoints e)
  = line_center (computeLine getNearestEdgePoints e).
Proof.
  rewrite updateLine_unfold.
  destruct (with_transformOriginPoint_dots
              (line_center (line (m_line (updateArrowhead (labelSet getNearestEdgePoints e)))))
              (updateArrowhead (labelSet getNearestEdgePoints e))) as (_ & _ & ->).
  destruct (updateArrowhead_frame (labelSet getNearestEdgePoints e)) as (_ & _ & _ & -> & _).
  destruct (labelSet_frame getNearestEdgePoints e) as (_ & _ & _ & -> & _).
  rewrite lineSet_line. reflexivity.
Qed.

Lemma updateLine_label_centres (e : Edge) :
  m_enableLabel e = true ->
  labelCentre (m_label (updateLine getNearestEdgePoints e))
  = line_center (computeLine getNearestEdgePoints e) /\
  labelCentre (m_dummyLabel (updateLine getNearestEdgePoints e))
  = line_center (computeLine getNearestEdgePoints e) /\
  labelBoundingRect (m_label (updateLine getNearestEdgePoints e))
  = labelBoundingRect (m_label e) /\
  labelBoundingRect (m_dummyLabel (updateLine getNearestEdgePoints e))
  = labelBoundingRect (m_dummyLabel e).
Proof.
  intros Hen.
  destruct (updateLine_labels e) as (-> & ->).
  destruct (labelSet_placement e Hen) as (P1 & P2 & P3 & P4).
  refine (conj _ (conj _ (conj P2 P4))).
  - apply (labelCentre_placed _ (m_label e)); assumption.
  - apply (labelCentre_placed _ (m_dummyLabel e)); assumption.
Qed.

(** Property X7: after [updateLine] on an edge with a label, the label and
    the dummy label are both centred on the new segment: the position of
    each, plus half its size, is the midpoint of the segment, which is also
    the origin [updateLine] sets for the scale animations.  The sizes of the
    two text items are not changed. *)
Theorem labels_centred_on_segment (e : Edge) :
  m_enableLabel e = true ->
  let e' := updateLine getNearestEdgePoints e in
  labelCentre (m_label e') = line_center (line (m_line e')) /\
  labelCentre (m_dummyLabel e') = line_center (line (m_line e')) /\
  transformOriginPoint e' = line_center (line (m_line e')) /\
  labelBoundingRect (m_label e') = labelBoundingRect (m_label e) /\
  labelBoundingRect (m_dummyLabel e') = labelBoundingRect (m_dummyLabel e).
Proof.
  intros Hen e'.
  destruct (updateLine_label_centres e Hen) as (C1 & C2 & C3 & C4).
  pose proof (updateLine_origin e) as Ho.
  pose proof (updateLine_line getNearestEdgePoints e) as Hl.
  fold e' in C1, C2, C3, C4, Ho, Hl. clearbody e'.
  rewrite Hl. repeat split; assumption.
Qed.

End LabelFacts.

(** [labels_centred_on_segment] on the scenario edge, whose segment runs
    from (10,0) to (89,0): both text items are centred on (49.5, 0). *)
Lemma labels_centred_on_segment_witness :
  labelCentre (m_label (updateLine scenarioNearest scenarioEdge)) = mkPoint 49.5 0 /\
  labelCentre (m_dummyLabel (updateLine scenarioNearest scenarioEdge)) = mkPoint 49.5 0.
Proof.
  destruct (labels_centred_on_segment scenarioNearest scenarioEdge eq_refl)
    as (Hl & Hd & _).
  rewrite Hl, Hd, updateLine_line, scenario_line.
  unfold line_center. cbn [p1 p2 px py].
  split; apply point_ext; cbn [px py]; lra.
Defined.

(** ** The dots at the two ends *)



Section DotFacts.

Variable getNearestEdgePoints : Node -> Node -> EdgePoint * EdgePoint.







End DotFacts.

(** ** The setters *)

Lemma arrowheadsFor_begin_lengths (m : EdgeModel) (l : QLineF)
    (old : LineItem * LineItem * LineItem * LineItem) :
  arrowMode (style m) <> Hidden ->
  let '(bl, br, el, er) := arrowheadsFor m l old in
  line_length (line bl) = Rabs (arrowSize (style m)) /\
  line_length (line br) = Rabs (arrowSize (style m)).
Proof.
  intros Hmode. destruct old as [[[bl br] el] er]. unfold arrowheadsFor.
  destruct (arrowMode (style m)); try contradiction;
    unfold wingItem, line_length; cbn [line p1 p2]; split; apply wingTip_dist.
Qed.

Lemma arrowheadsFor_end_lengths (m : EdgeModel) (l : QLineF)
    (old : LineItem * LineItem * LineItem * LineItem) :
  arrowMode (style m) = Double ->
  let '(bl, br, el, er) := arrowheadsFor m l old in
  line_length (line el) = Rabs (arrowSize (style m)) /\
  line_length (line er) = Rabs (arrowSize (style m)).
Proof.
  intros Hmode. destruct old as [[[bl br] el] er]. unfold arrowheadsFor.
  rewrite Hmode. unfold wingItem, line_length; cbn [line p1 p2]; split; apply wingTip_dist.
Qed.

Lemma arrowheadsFor_kept_lines (m : EdgeModel) (l : QLineF)
    (bl br el er : LineItem) :
  let '(bl', br', el', er') := arrowheadsFor m l (bl, br, el, er) in
  (arrowMode (style m) = Hidden ->
   (line bl', line br', line el', line er') = (line bl, line br, line el, line er)) /\
  (arrowMode (style m) = Single -> line el' = line el /\ line er' = line er).
Proof.
  unfold arrowheadsFor.
  destruct (arrowMode (style m)); split; intros H; try discriminate H;
    try reflexivity; split; reflexivity.
Qed.

Section SetterFacts.

Variable getNearestEdgePoints : Node -> Node -> EdgePoint * EdgePoint.

(** The segment depends on the model only through the edge width. *)
Lemma computeLine_model (m : EdgeModel) (e : Edge) :
  edgeWidth (style m) = edgeWidth (style (m_edgeModel e)) ->
  computeLine getNearestEdgePoints (with_edgeModel m e) = computeLine getNearestEdgePoints e.
Proof.
  intros Hw.
  unfold computeLine, sourceAnchor, targetAnchor, sourceDirection,
    targetDirection, sourceAnchor, targetAnchor, sourceNode, targetNode.
  cbn [m_edgeModel m_sourceNode m_targetNode with_edgeModel]. rewrite Hw. reflexivity.
Qed.

Lemma with_edgeModel_frame (m : EdgeModel) (e : Edge) :
  m_edgeModel (with_edgeModel m e) = m /\
  m_line (with_edgeModel m e) = m_line e /\
  arrowheads (with_edgeModel m e) = arrowheads e /\
  m_sourceNode (with_edgeModel m e) = m_sourceNode e /\
  m_targetNode (with_edgeModel m e) = m_targetNode e.
Proof. repeat split. Qed.

Lemma updateLine_with_model_line (m : EdgeModel) (e : Edge) :
  edgeWidth (style m) = edgeWidth (style (m_edgeModel e)) ->
  dashedLine (style m) = dashedLine (style (m_edgeModel e)) ->
  m_line (updateLine getNearestEdgePoints (with_edgeModel m e))
  = m_line (updateLine getNearestEdgePoints e).
Proof.
  intros Hw Hd. rewrite !updateLine_lineItem, (computeLine_model m e Hw).
  unfold buildPen. destruct (with_edgeModel_frame m e) as (-> & -> & _).
  rewrite Hw, Hd. reflexivity.
Qed.

Lemma updateLine_with_model_arrowheads (m : EdgeModel) (e : Edge) :
  edgeWidth (style m) = edgeWidth (style (m_edgeModel e)) ->
  arrowheads (updateLine getNearestEdgePoints (with_edgeModel m e))
  = arrowheadsFor m (computeLine getNearestEdgePoints e) (arrowheads e).
Proof.
  intros Hw. rewrite updateLine_arrowheadsFor, (computeLine_model m e Hw).
  destruct (with_edgeModel_frame m e) as (-> & _ & -> & _). reflexivity.
Qed.

Lemma setArrowSize_facts (a : R) (e : Edge) :
  let m := mkEdgeModel (reversed (m_edgeModel e))
             (mkStyle (arrowMode (style (m_edgeModel e))) a
                      (dashedLine (style (m_edgeModel e))) (edgeWidth (style (m_edgeModel e))))
             (text (m_edgeModel e)) in
  m_edgeModel (setArrowSize getNearestEdgePoints a e) = m /\
  m_line (setArrowSize getNearestEdgePoints a e) = m_line (updateLine getNearestEdgePoints e) /\
  arrowheads (setArrowSize getNearestEdgePoints a e)
  = arrowheadsFor m (computeLine getNearestEdgePoints e) (arrowheads e).
Proof.
  cbv zeta. unfold setArrowSize. cbv zeta.
  refine (conj _ (conj _ _)).
  - destruct (updateLine_inputs getNearestEdgePoints
                (with_edgeModel
                   (mkEdgeModel (reversed (m_edgeModel e))
                      (mkStyle (arrowMode (style (m_edgeModel e))) a
                         (dashedLine (style (m_edgeModel e)))
                         (edgeWidth (style (m_edgeModel e))))
                      (text (m_edgeModel e))) e)) as (-> & _).
    reflexivity.
  - apply updateLine_with_model_line; reflexivity.
  - apply updateLine_with_model_arrowheads; reflexivity.
Qed.

(** Property X9: [setArrowSize] stores the size and redraws: the segment
    item is the one [updateLine] alone would have left (the arrow size does
    not enter the segment), and unless the arrow mode is [Hidden] the two
    begin wings have the length [|arrowSize|], in the mode [Double] the two
    end wings too. *)
Theorem setArrowSize_resizes_wings_only (a : R) (e : Edge) :
  let e' := setArrowSize getNearestEdgePoints a e in
  let mode := arrowMode (style (m_edgeModel e)) in
  arrowSize (style (m_edgeModel e')) = a /\
  arrowMode (style (m_edgeModel e')) = mode /\
  m_line e' = m_line (updateLine getNearestEdgePoints e) /\
  (mode <> Hidden ->
   line_length (line (m_arrowheadBeginLeft e')) = Rabs a /\
   line_length (line (m_arrowheadBeginRight e')) = Rabs a) /\
  (mode = Double ->
   line_length (line (m_arrowheadEndLeft e')) = Rabs a /\
   line_length (line (m_arrowheadEndRight e')) = Rabs a).
Proof.
  intros e' mode.
  destruct (setArrowSize_facts a e) as (Hm & Hl & Ha). cbv zeta in Hm, Ha.
  fold e' in Hm, Hl, Ha. clearbody e'.
  set (m := mkEdgeModel (reversed (m_edgeModel e))
              (mkStyle (arrowMode (style (m_edgeModel e))) a
                       (dashedLine (style (m_edgeModel e))) (edgeWidth (style (m_edgeModel e))))
              (text (m_edgeModel e))) in *.
  pose proof (arrowheadsFor_begin_lengths m (computeLine getNearestEdgePoints e) (arrowheads e))
    as Hb.
  pose proof (arrowheadsFor_end_lengths m (computeLine getNearestEdgePoints e) (arrowheads e))
    as He.
  destruct (arrowheadsFor m (computeLine getNearestEdgePoints e) (arrowheads e))
    as [[[bl br] el] er].
  apply arrowheads_components in Ha. destruct Ha as (-> & -> & -> & ->).
  rewrite Hm. refine (conj eq_refl (conj eq_refl (conj Hl (conj _ _)))).
  - intros Hmode. apply Hb. exact Hmode.
  - intros Hmode. apply He. exact Hmode.
Qed.

Lemma setEdgeWidth_facts (w : R) (e : Edge) :
  let m := mkEdgeModel (reversed (m_edgeModel e))
             (mkStyle (arrowMode (style (m_edgeModel e))) (arrowSize (style (m_edgeModel e)))
                      (dashedLine (style (m_edgeModel e))) w)
             (text (m_edgeModel e)) in
  m_edgeModel (setEdgeWidth getNearestEdgePoints w e) = m /\
  m_line (setEdgeWidth getNearestEdgePoints w e)
  = mkLineItem (computeLine getNearestEdgePoints (with_edgeModel m e))
               (mkPen w (dashedLine (style (m_edgeModel e)))) (shown (m_line e)) /\
  wingPens (setEdgeWidth getNearestEdgePoints w e)
  = (mkPen w false, mkPen w false, mkPen w false, mkPen w false).
Proof.
  cbv zeta. unfold setEdgeWidth. cbv zeta.
  set (m := mkEdgeModel (reversed (m_edgeModel e))
              (mkStyle (arrowMode (style (m_edgeModel e))) (arrowSize (style (m_edgeModel e)))
                       (dashedLine (style (m_edgeModel e))) w)
              (text (m_edgeModel e))).
  refine (conj _ (conj _ _)).
  - destruct (updateLine_inputs getNearestEdgePoints (with_edgeModel m e)) as (-> & _).
    reflexivity.
  - rewrite updateLine_lineItem. reflexivity.
  - pose proof (updateLine_arrowheadsFor getNearestEdgePoints (with_edgeModel m e)) as H.
    pose proof (arrowheadsFor_pens (m_edgeModel (with_edgeModel m e))
                  (computeLine getNearestEdgePoints (with_edgeModel m e))
                  (arrowheads (with_edgeModel m e))) as Hp.
    destruct (arrowheadsFor (m_edgeModel (with_edgeModel m e))
                (computeLine getNearestEdgePoints (with_edgeModel m e))
                (arrowheads (with_edgeModel m e))) as [[[bl br] el] er].
    apply arrowheads_components in H. destruct H as (H1 & H2 & H3 & H4).
    unfold wingPens. rewrite H1, H2, H3, H4.
    cbv zeta in Hp. destruct Hp as (-> & -> & -> & ->). reflexivity.
Qed.

(** The segment for another edge width. *)
Lemma computeLine_width (m : EdgeModel) (e : Edge) :
  p1 (computeLine getNearestEdgePoints (with_edgeModel m e))
  = p1 (computeLine getNearestEdgePoints e) /\
  p2 (computeLine getNearestEdgePoints (with_edgeModel m e))
  = (p2 (computeLine getNearestEdgePoints e)
     - toPointF (vscale (targetDirection getNearestEdgePoints e)
                        (edgeWidth (style m) - edgeWidth (style (m_edgeModel e))))
       * widthScale)%pt.
Proof.
  unfold computeLine, sourceAnchor, targetAnchor, sourceDirection,
    targetDirection, sourceAnchor, targetAnchor, sourceNode, targetNode, to_float.
  cbn [m_edgeModel m_sourceNode m_targetNode with_edgeModel p1 p2].
  split; [ reflexivity | ].
  apply point_ext; cbn [px py padd psub pscale toPointF vscale vx vy]; ring.
Qed.

(** Property X10: [setEdgeWidth] stores the width and redraws with it: the
    segment and the four wings get pens of that width.  The source end of the
    segment stays where it was computed before; the target end moves along
    the target's direction vector by half the change of the width. *)
Theorem setEdgeWidth_moves_target_end_only (w : R) (e : Edge) :
  let e' := setEdgeWidth getNearestEdgePoints w e in
  let before := computeLine getNearestEdgePoints e in
  edgeWidth (style (m_edgeModel e')) = w /\
  penWidth (pen (m_line e')) = w /\
  wingPens e' = (mkPen w false, mkPen w false, mkPen w false, mkPen w false) /\
  p1 (line (m_line e')) = p1 before /\
  p2 (line (m_line e'))
  = (p2 before
     - toPointF (vscale (targetDirection getNearestEdgePoints e)
                        (w - edgeWidth (style (m_edgeModel e))))
       * widthScale)%pt.
Proof.
  intros e' before.
  destruct (setEdgeWidth_facts w e) as (Hm & Hl & Hp). cbv zeta in Hm, Hl.
  fold e' in Hm, Hl, Hp. clearbody e'.
  rewrite Hm, Hl. cbn [line pen penWidth style edgeWidth].
  match goal with |- context [ computeLine _ (with_edgeModel ?m e) ] =>
    destruct (computeLine_width m e) as (H1 & H2) end.
  cbn [style edgeWidth] in H2.
  refine (conj eq_refl (conj eq_refl (conj Hp (conj H1 H2)))).
Qed.

(** Property X11: outside test mode [setArrowMode] stores the mode and
    redraws: which wings are shown depends on the mode alone (the begin pair
    in [Single], all four in [Double], none in [Hidden]); the segment item is
    the one [updateLine] alone would have left; wings that are hidden keep
    the lines they had.  In test mode only the model is changed: the segment
    and the four wing items stay as they were. *)
Theorem setArrowMode_shows_wings_by_mode (mode : ArrowMode) (e : Edge) :
  let e' := setArrowMode getNearestEdgePoints false mode e in
  let t := setArrowMode getNearestEdgePoints true mode e in
  arrowMode (style (m_edgeModel e')) = mode /\
  shownWings e' = match mode with
                  | Single => (true, true, false, false)
                  | Double => (true, true, true, true)
                  | Hidden => (false, false, false, false)
                  end /\
  m_line e' = m_line (updateLine getNearestEdgePoints e) /\
  (mode = Hidden -> wingLines e' = wingLines e) /\
  (mode = Single ->
   line (m_arrowheadEndLeft e') = line (m_arrowheadEndLeft e) /\
   line (m_arrowheadEndRight e') = line (m_arrowheadEndRight e)) /\
  arrowMode (style (m_edgeModel t)) = mode /\
  m_line t = m_line e /\ arrowheads t = arrowheads e.
Proof.
  intros e' t.
  set (m := mkEdgeModel (reversed (m_edgeModel e))
              (mkStyle mode (arrowSize (style (m_edgeModel e)))
                       (dashedLine (style (m_edgeModel e))) (edgeWidth (style (m_edgeModel e))))
              (text (m_edgeModel e))).
  assert (He' : e' = updateLine getNearestEdgePoints (with_edgeModel m e)) by reflexivity.
  assert (Hm : m_edgeModel e' = m).
  { rewrite He'. destruct (updateLine_inputs getNearestEdgePoints (with_edgeModel m e))
      as (-> & _). reflexivity. }
  assert (Hl : m_line e' = m_line (updateLine getNearestEdgePoints e)).
  { rewrite He'. apply updateLine_with_model_line; reflexivity. }
  assert (Ha : arrowheads e'
               = arrowheadsFor m (computeLine getNearestEdgePoints e) (arrowheads e)).
  { rewrite He'. apply updateLine_with_model_arrowheads; reflexivity. }
  clearbody e'.
  refine (conj _ (conj _ (conj Hl (conj _ (conj _ (conj eq_refl (conj eq_refl eq_refl))))))).
  - rewrite Hm. reflexivity.
  - pose proof (arrowheadsFor_shown m (computeLine getNearestEdgePoints e) (arrowheads e)) as Hs.
    destruct (arrowheadsFor m (computeLine getNearestEdgePoints e) (arrowheads e))
      as [[[bl br] el] er].
    apply arrowheads_components in Ha. destruct Ha as (H1 & H2 & H3 & H4).
    unfold shownWings. rewrite H1, H2, H3, H4. exact Hs.
  - intros Hmode.
    pose proof (arrowheadsFor_kept_lines m (computeLine getNearestEdgePoints e)
                  (m_arrowheadBeginLeft e) (m_arrowheadBeginRight e)
                  (m_arrowheadEndLeft e) (m_arrowheadEndRight e)) as Hk.
    fold (arrowheads e) in Hk.
    destruct (arrowheadsFor m (computeLine getNearestEdgePoints e) (arrowheads e))
      as [[[bl br] el] er].
    apply arrowheads_components in Ha. destruct Ha as (H1 & H2 & H3 & H4).
    unfold wingLines. rewrite H1, H2, H3, H4. apply Hk. exact Hmode.
  - intros Hmode.
    pose proof (arrowheadsFor_kept_lines m (computeLine getNearestEdgePoints e)
                  (m_arrowheadBeginLeft e) (m_arrowheadBeginRight e)
                  (m_arrowheadEndLeft e) (m_arrowheadEndRight e)) as Hk.
    fold (arrowheads e) in Hk.
    destruct (arrowheadsFor m (computeLine getNearestEdgePoints e) (arrowheads e))
      as [[[bl br] el] er].
    apply arrowheads_components in Ha. destruct Ha as (H1 & H2 & H3 & H4).
    rewrite H3, H4. apply Hk. exact Hmode.
Qed.

(** Property X12: outside test mode [setDashedLine] stores the setting and
    redraws: the segment's pen is dashed exactly when the setting is on, the
    pens of the four wings are never dashed, and the segment itself is where
    [updateLine] alone would have put it.  In test mode only the model is
    changed: the segment keeps the pen it had. *)
Theorem setDashedLine_dashes_segment_only (enable : bool) (e : Edge) :
  let e' := setDashedLine getNearestEdgePoints false enable e in
  let t := setDashedLine getNearestEdgePoints true enable e in
  let w := edgeWidth (style (m_edgeModel e)) in
  dashedLine (style (m_edgeModel e')) = enable /\
  pen (m_line e') = mkPen w enable /\
  wingPens e' = (mkPen w false, mkPen w false, mkPen w false, mkPen w false) /\
  line (m_line e') = computeLine getNearestEdgePoints e /\
  dashedLine (style (m_edgeModel t)) = enable /\
  m_line t = m_line e /\ arrowheads t = arrowheads e.
Proof.
  intros e' t w.
  set (m := mkEdgeModel (reversed (m_edgeModel e))
              (mkStyle (arrowMode (style (m_edgeModel e))) (arrowSize (style (m_edgeModel e)))
                       enable (edgeWidth (style (m_edgeModel e))))
              (text (m_edgeModel e))).
  assert (He' : e' = updateLine getNearestEdgePoints (with_edgeModel m e)) by reflexivity.
  assert (Hm : m_edgeModel e' = m).
  { rewrite He'. destruct (updateLine_inputs getNearestEdgePoints (with_edgeModel m e))
      as (-> & _). reflexivity. }
  assert (Hl : m_line e'
               = mkLineItem (computeLine getNearestEdgePoints e) (mkPen w enable)
                            (shown (m_line e))).
  { rewrite He', updateLine_lineItem, (computeLine_model m e eq_refl). reflexivity. }
  assert (Ha : arrowheads e'
               = arrowheadsFor m (computeLine getNearestEdgePoints e) (arrowheads e)).
  { rewrite He'. apply updateLine_with_model_arrowheads; reflexivity. }
  clearbody e'.
  refine (conj _ (conj _ (conj _ (conj _ (conj eq_refl (conj eq_refl eq_refl)))))).
  - rewrite Hm. reflexivity.
  - rewrite Hl. reflexivity.
  - pose proof (arrowheadsFor_pens m (computeLine getNearestEdgePoints e) (arrowheads e)) as Hp.
    destruct (arrowheadsFor m (computeLine getNearestEdgePoints e) (arrowheads e))
      as [[[bl br] el] er].
    apply arrowheads_components in Ha. destruct Ha as (H1 & H2 & H3 & H4).
    unfold wingPens. rewrite H1, H2, H3, H4.
    cbv zeta in Hp. destruct Hp as (-> & -> & -> & ->). reflexivity.
  - rewrite Hl. reflexivity.
Qed.

End SetterFacts.

(** ** Label visibility after a recompute *)

Lemma updateLabel_visibility (e : Edge) :
  m_enableLabel e = true ->
  let e' := updateLabel EdgeGeometryChanged e in
  let l := line (m_line e) in
  let shows := fitsOn l (m_label e) (m_sourceNode e) (m_targetNode e)
               && negb (isEmpty (labelText (m_label e))) in
  labelVisible (m_label e') = shows /\
  labelVisible (m_dummyLabel e')
  = negb shows && fitsOn l (m_dummyLabel e) (m_sourceNode e) (m_targetNode e)
    && Nat.ltb (String.length (labelText (m_dummyLabel e))) (String.length (labelText (m_label e))).
Proof.
  intros Hen. cbv zeta. unfold updateLabel. rewrite Hen. cbv zeta.
  unfold setLabelVisible. cbn [m_enableLabel with_labels]. rewrite Hen.
  cbn [m_label m_dummyLabel with_labels setVisible labelVisible].
  unfold isEnoughSpaceForLabel, isEnoughSpaceForDummyLabel, isEnoughSpaceFor,
    dummyLabelTextIsShoterThanLabelText, sceneBoundingRect, sourceNode, targetNode, fitsOn.
  cbn [m_label m_dummyLabel m_sourceNode m_targetNode with_labels setPos labelInScene
       labelBoundingRect labelPos labelText].
  split; reflexivity.
Qed.

Section VisibilityFacts.

Variable getNearestEdgePoints : Node -> Node -> EdgePoint * EdgePoint.

Lemma updateLine_label_visibility (e : Edge) :
  m_enableLabel e = true ->
  let l := computeLine getNearestEdgePoints e in
  let shows := fitsOn l (m_label e) (m_sourceNode e) (m_targetNode e)
               && negb (isEmpty (labelText (m_label e))) in
  labelVisible (m_label (updateLine getNearestEdgePoints e)) = shows /\
  labelVisible (m_dummyLabel (updateLine getNearestEdgePoints e))
  = negb shows && fitsOn l (m_dummyLabel e) (m_sourceNode e) (m_targetNode e)
    && Nat.ltb (String.length (labelText (m_dummyLabel e))) (String.length (labelText (m_label e))).
Proof.
  intros Hen. cbv zeta.
  destruct (updateLine_labels getNearestEdgePoints e) as (-> & ->).
  unfold labelSet.
  destruct (updateDots_frame (lineSet getNearestEdgePoints e))
    as (_ & Hs & Ht & Hline & Hen0 & _ & Hl & Hd & _).
  cbv zeta in Hs, Ht, Hline, Hen0, Hl, Hd.
  assert (Hen1 : m_enableLabel (updateDots (lineSet getNearestEdgePoints e)) = true).
  { rewrite Hen0. exact Hen. }
  destruct (updateLabel_visibility _ Hen1) as (V1 & V2). cbv zeta in V1, V2.
  rewrite V1, V2, Hs, Ht, Hline, Hl, Hd, lineSet_line.
  split; reflexivity.
Qed.

(** Property X22: on an edge with a label, [updateLine] decides the
    visibility of the two text items from the new segment alone, whatever was
    visible before: the label is shown exactly when its text is not empty and,
    centred on the new segment, it is in the scene and clear of both nodes;
    the dummy label is shown exactly when the label is not, the dummy label
    fits in the same sense and its text is shorter than the label's.  With
    the dummy text "..." of the constructor, a label of at most three
    characters is therefore never replaced by the dummy label. *)
Theorem label_visibility_follows_new_segment (e : Edge) :
  m_enableLabel e = true ->
  let e' := updateLine getNearestEdgePoints e in
  let l := computeLine getNearestEdgePoints e in
  let shows := fitsOn l (m_label e) (m_sourceNode e) (m_targetNode e)
               && negb (isEmpty (labelText (m_label e))) in
  labelVisible (m_label e') = shows /\
  labelVisible (m_dummyLabel e')
  = negb shows && fitsOn l (m_dummyLabel e) (m_sourceNode e) (m_targetNode e)
    && Nat.ltb (String.length (labelText (m_dummyLabel e))) (String.length (labelText (m_label e))) /\
  (labelText (m_dummyLabel e) = "..."%string ->
   (String.length (labelText (m_label e)) <= 3)%nat ->
   labelVisible (m_dummyLabel e') = false).
Proof.
  intros Hen e' l shows.
  destruct (updateLine_label_visibility e Hen) as (V1 & V2). cbv zeta in V1, V2.
  fold e' l in V1, V2. fold shows in V1, V2. clearbody e'.
  refine (conj V1 (conj V2 _)).
  intros Hdots Hlen. rewrite V2, Hdots.
  assert (Hlt : Nat.ltb (String.length "...") (String.length (labelText (m_label e))) = false).
  { apply Nat.ltb_ge. exact Hlen. }
  rewrite Hlt. apply andb_false_r.
Qed.

End VisibilityFacts.

Lemma fitsOn_clear (l : QLineF) (t : EdgeTextEdit) (source target : Node) :
  labelInScene t = true ->
  intersects (translated (labelBoundingRect t) (labelPosFor l t))
             (nodeSceneBoundingRect source) = false ->
  intersects (translated (labelBoundingRect t) (labelPosFor l t))
             (nodeSceneBoundingRect target) = false ->
  fitsOn l t source target = true.
Proof. intros Hs H1 H2. unfold fitsOn. cbv zeta. rewrite Hs, H1, H2. reflexivity. Qed.

(** On the segment of the scenario the label "hello" and the dummy label
    keep clear of both nodes, and the label that is 90 wide does not. *)
Lemma scenario_fits :
  let l := mkLine (mkPoint 10 0) (mkPoint 89 0) in
  fitsOn l (m_label labelledInput) scenarioSource scenarioTarget = true /\
  fitsOn l (m_dummyLabel wideInput) scenarioSource scenarioTarget = true /\
  fitsOn l (m_label wideInput) scenarioSource scenarioTarget = false.
Proof.
  cbv zeta. refine (conj _ (conj _ _)).
  - apply fitsOn_clear; [ reflexivity | | ]; apply intersects_disjoint_x; cbn; lra.
  - apply fitsOn_clear; [ reflexivity | | ]; apply intersects_disjoint_x; cbn; lra.
  - unfold fitsOn. cbv zeta.
    assert (H : intersects (translated (labelBoundingRect (m_label wideInput))
                              (labelPosFor (mkLine (mkPoint 10 0) (mkPoint 89 0))
                                           (m_label wideInput)))
                           (nodeSceneBoundingRect scenarioSource) = true).
    { unfold intersects. apply andb_true_iff. split; apply span_overlap; cbn; lra. }
    rewrite H. apply andb_false_iff. left. apply andb_false_iff. right. reflexivity.
Qed.

(** [label_visibility_follows_new_segment] on the scenario, from states in
    which both text items are visible.  With the label "hello", which fits
    on the segment from (10,0) to (89,0), [updateLine] leaves the label
    visible and hides the dummy label; with the label that is too wide it
    hides the label and leaves the dummy label visible. *)
Lemma label_visibility_follows_new_segment_witness :
  (labelVisible (m_label labelledInput) = true /\
   labelVisible (m_dummyLabel labelledInput) = true /\
   labelVisible (m_label (updateLine scenarioNearest labelledInput)) = true /\
   labelVisible (m_dummyLabel (updateLine scenarioNearest labelledInput)) = false) /\
  (labelVisible (m_label wideInput) = true /\
   labelVisible (m_dummyLabel wideInput) = true /\
   labelVisible (m_label (updateLine scenarioNearest wideInput)) = false /\
   labelVisible (m_dummyLabel (updateLine scenarioNearest wideInput)) = true).
Proof.
  destruct scenario_fits as (Fl & Fd & Fw). cbv zeta in Fl, Fd, Fw.
  assert (Ll : computeLine scenarioNearest labelledInput = mkLine (mkPoint 10 0) (mkPoint 89 0)).
  { rewrite <- scenario_line. apply computeLine_inputs; reflexivity. }
  assert (Lw : computeLine scenarioNearest wideInput = mkLine (mkPoint 10 0) (mkPoint 89 0)).
  { rewrite <- scenario_line. apply computeLine_inputs; reflexivity. }
  destruct (label_visibility_follows_new_segment scenarioNearest labelledInput eq_refl)
    as (V1 & V2 & _).
  destruct (label_visibility_follows_new_segment scenarioNearest wideInput eq_refl)
    as (W1 & W2 & _).
  cbv zeta in V1, V2, W1, W2.
  rewrite Ll in V1, V2. rewrite Lw in W1, W2.
  change (m_sourceNode labelledInput) with scenarioSource in V1, V2.
  change (m_targetNode labelledInput) with scenarioTarget in V1, V2.
  change (m_sourceNode wideInput) with scenarioSource in W1, W2.
  change (m_targetNode wideInput) with scenarioTarget in W1, W2.
  rewrite Fl in V1, V2. rewrite Fw, Fd in W2. rewrite Fw in W1.
  split.
  - refine (conj eq_refl (conj eq_refl (conj _ _))).
    + rewrite V1. reflexivity.
    + rewrite V2. reflexivity.
  - refine (conj eq_refl (conj eq_refl (conj _ _))).
    + rewrite W1. reflexivity.
    + rewrite W2. reflexivity.
Defined.

(** ** Facts about the serializer *)

Module SerializerFacts.

Import Floats Serializer.

Local Close Scope R_scope.
Local Open Scope string_scope.
Local Open Scope list_scope.
Local Open Scope Z_scope.

Lemma parse_print (d : Decimal.int) :
  exists d', DecimalString.NilZero.int_of_string (DecimalString.NilZero.string_of_int d) = Some d'
             /\ Z.of_int d' = Z.of_int d.
Proof.
  destruct d as [u | u]; destruct u;
    try (eexists; split; [ apply DecimalString.NilZero.isi; discriminate | reflexivity ]);
    eexists; split; reflexivity.
Qed.

(** Reading back a printed [int]. *)
Lemma toInt_number (z : Z) : is_int z = true -> toInt (number z) = z.
Proof.
  intros Hz. unfold toInt, number.
  destruct (parse_print (Z.to_int z)) as (d' & -> & Hd').
  rewrite Hd', DecimalZ.of_to, Hz. reflexivity.
Qed.

Lemma getAttr_setAttr_same (k v : string) (l : list (string * string)) :
  getAttr k (setAttr k v l) = Some v.
Proof.
  induction l as [ | [k' v'] l IH ]; simpl.
  - rewrite String.eqb_refl. reflexivity.
  - destruct (String.eqb k' k) eqn:E; simpl; rewrite E; [ reflexivity | exact IH ].
Qed.

Lemma getAttr_setAttr_other (k k' v : string) (l : list (string * string)) :
  k <> k' -> getAttr k (setAttr k' v l) = getAttr k l.
Proof.
  intros Hne. induction l as [ | [k0 v0] l IH ]; simpl.
  - destruct (String.eqb k' k) eqn:E; [ | reflexivity ].
    apply String.eqb_eq in E. congruence.
  - destruct (String.eqb k0 k') eqn:E; simpl.
    + apply String.eqb_eq in E. subst k0.
      destruct (String.eqb k' k) eqn:E'; [ | reflexivity ].
      apply String.eqb_eq in E'. congruence.
    + destruct (String.eqb k0 k); [ reflexivity | exact IH ].
Qed.

(** ** Exact arithmetic *)

Lemma exact_truncate_bounds_nonneg (q : Q) :
  (0 <= q)%Q -> (inject_Z (exact_truncate q) <= q /\ q < inject_Z (exact_truncate q) + 1)%Q.
Proof.
  destruct q as [a b]. unfold exact_truncate, Qle, Qlt, inject_Z; simpl.
  intros Ha. rewrite Z.mul_1_r in Ha.
  rewrite Z.quot_div_nonneg by lia.
  pose proof (Z.div_mod a (Zpos b) ltac:(lia)) as Hdm.
  pose proof (Z.mod_pos_bound a (Zpos b) ltac:(lia)) as Hb.
  split; nia.
Qed.

Lemma exact_truncate_opp (q : Q) : exact_truncate (- q) = - exact_truncate q.
Proof. destruct q as [a b]. unfold exact_truncate; simpl. apply Z.quot_opp_l. lia. Qed.

Lemma exact_truncate_bounds_nonpos (q : Q) :
  (q <= 0)%Q -> (q <= inject_Z (exact_truncate q) /\ inject_Z (exact_truncate q) - 1 < q)%Q.
Proof.
  intros Hq.
  destruct (exact_truncate_bounds_nonneg (- q)) as [H1 H2]; [ lra | ].
  rewrite exact_truncate_opp, inject_Z_opp in H1, H2. split; lra.
Qed.

Lemma exact_restored_scaled (x : Q) :
  (exact_restored x == inject_Z (exact_truncate (x * (1000 # 1))) * (1 # 1000))%Q.
Proof. unfold exact_restored, Qdiv. reflexivity. Qed.

(** In exact arithmetic a coordinate is restored exactly when it is an
    integer multiple of 1/1000, and only then. *)
Lemma exact_restored_iff (x : Q) :
  (exact_restored x == x)%Q <-> exists k : Z, (x == inject_Z k * (1 # 1000))%Q.
Proof.
  split.
  - intros H. exists (exact_truncate (x * (1000 # 1))).
    rewrite <- exact_restored_scaled. symmetry. exact H.
  - intros [k Hk]. rewrite exact_restored_scaled.
    assert (Ht : exact_truncate (x * (1000 # 1)) = k).
    { destruct x as [a b]. unfold exact_truncate; simpl.
      unfold Qeq, inject_Z in Hk; simpl in Hk.
      rewrite Pos.mul_1_r.
      assert (Ha : a * 1000 = k * Zpos b) by lia.
      rewrite Ha. apply Z.quot_mul. lia. }
    rewrite Ht. symmetry. exact Hk.
Qed.

(** Otherwise it is moved toward zero by less than 1/1000. *)
Lemma exact_restored_toward_zero (x : Q) :
  ((0 <= x -> exact_restored x <= x /\ x < exact_restored x + (1 # 1000)) /\
   (x <= 0 -> x <= exact_restored x /\ exact_restored x - (1 # 1000) < x))%Q.
Proof.
  split; intros Hx.
  - destruct (exact_truncate_bounds_nonneg (x * (1000 # 1))) as [H1 H2]; [ lra | ].
    rewrite exact_restored_scaled. set (t := exact_truncate (x * (1000 # 1))) in *.
    split; lra.
  - destruct (exact_truncate_bounds_nonpos (x * (1000 # 1))) as [H1 H2]; [ lra | ].
    rewrite exact_restored_scaled. set (t := exact_truncate (x * (1000 # 1))) in *.
    split; lra.
Qed.

(** ** The casts *)

Lemma double_to_int_Some (f : float) (z : Z) :
  double_to_int f = Some z -> z = truncate f /\ is_int z = true.
Proof.
  unfold double_to_int.
  destruct (is_finite f && is_int (truncate f)) eqn:E; [ | discriminate ].
  intros [= <-]. apply andb_true_iff in E as [_ E]. split; [ reflexivity | exact E ].
Qed.

Lemma castable_true (n : NodeBase) :
  castable n = true ->
  double_to_int (location_x n * SCALE)%float = Some (truncate (location_x n * SCALE)%float) /\
  double_to_int (location_y n * SCALE)%float = Some (truncate (location_y n * SCALE)%float) /\
  is_int (truncate (location_x n * SCALE)%float) = true /\
  is_int (truncate (location_y n * SCALE)%float) = true.
Proof.
  unfold castable.
  destruct (double_to_int (location_x n * SCALE)%float) as [x | ] eqn:Ex; [ | discriminate ].
  destruct (double_to_int (location_y n * SCALE)%float) as [y | ] eqn:Ey; [ | discriminate ].
  intros _.
  destruct (double_to_int_Some _ _ Ex) as [-> Hx].
  destruct (double_to_int_Some _ _ Ey) as [-> Hy].
  repeat split; assumption.
Qed.

Section RoundTrip.

Variables DESIGN APPLICATION_VERSION NODE INDEX X Y TEXT : string.
Variable CONFIG_APPLICATION_VERSION : string.

Hypothesis INDEX_X : INDEX <> X.
Hypothesis INDEX_Y : INDEX <> Y.
Hypothesis X_Y : X <> Y.

Lemma writeNode_defined (n : NodeBase) :
  castable n = true ->
  writeNode NODE INDEX X Y TEXT n
  = Some (ElementNode NODE
            [(INDEX, number (index n));
             (X, number (truncate (location_x n * SCALE)%float));
             (Y, number (truncate (location_y n * SCALE)%float))]
            [ElementNode TEXT [] [TextNode (nodeText n)]]).
Proof.
  intros H. destruct (castable_true n H) as (Hx & Hy & _).
  unfold writeNode. rewrite Hx, Hy.
  unfold createElement, setAttribute, appendChild. cbn [setAttr app].
  destruct (String.eqb INDEX X) eqn:E1; [ apply String.eqb_eq in E1; contradiction | ].
  cbn [setAttr].
  destruct (String.eqb INDEX Y) eqn:E2; [ apply String.eqb_eq in E2; contradiction | ].
  destruct (String.eqb X Y) eqn:E3; [ apply String.eqb_eq in E3; contradiction | ].
  reflexivity.
Qed.

Lemma writeNode_undefined (n : NodeBase) :
  castable n = false -> writeNode NODE INDEX X Y TEXT n = None.
Proof.
  unfold castable, writeNode. intros H.
  destruct (double_to_int (location_x n * SCALE)%float); [ | reflexivity ].
  destruct (double_to_int (location_y n * SCALE)%float); [ discriminate | reflexivity ].
Qed.

Lemma readNode_writeNode (n : NodeBase) (el : QDomNode) :
  is_int (index n) = true ->
  writeNode NODE INDEX X Y TEXT n = Some el ->
  readNode INDEX X Y TEXT el = restoredNode n /\
  isElement el = true /\ nodeName el = NODE.
Proof.
  intros Hi Hw.
  destruct (castable n) eqn:Hc; [ | rewrite writeNode_undefined in Hw by exact Hc; discriminate ].
  rewrite writeNode_defined in Hw by exact Hc. injection Hw as <-.
  destruct (castable_true n Hc) as (_ & _ & Hx & Hy).
  split; [ | split; reflexivity ].
  unfold readNode, restoredNode, restored, attribute. cbn [getAttr childNodes].
  rewrite String.eqb_refl.
  destruct (String.eqb INDEX X) eqn:E1; [ apply String.eqb_eq in E1; contradiction | ].
  destruct (String.eqb INDEX Y) eqn:E2; [ apply String.eqb_eq in E2; contradiction | ].
  destruct (String.eqb X Y) eqn:E3; [ apply String.eqb_eq in E3; contradiction | ].
  rewrite !String.eqb_refl.
  rewrite !toInt_number by assumption.
  cbn [readText isElement nodeName andb]. rewrite String.eqb_refl.
  reflexivity.
Qed.

Lemma readNodes_app (cs1 cs2 : list QDomNode) (g : list NodeBase) :
  readNodes NODE INDEX X Y TEXT (cs1 ++ cs2)%list g
  = readNodes NODE INDEX X Y TEXT cs2 (readNodes NODE INDEX X Y TEXT cs1 g).
Proof.
  revert g. induction cs1 as [ | c cs1 IH ]; intros g; simpl.
  - reflexivity.
  - destruct (isElement c && String.eqb (nodeName c) NODE); apply IH.
Qed.

(** [writeNodes] appends one element per node, in order, to the children of
    the root and leaves the rest of the root alone. *)
Lemma writeNodes_children (nodes : list NodeBase) :
  forall (t : string) (attrs : list (string * string)) (cs : list QDomNode) (root' : QDomNode),
    Forall (fun n => is_int (index n) = true) nodes ->
    writeNodes NODE INDEX X Y TEXT nodes (ElementNode t attrs cs) = Some root' ->
    exists cs', root' = ElementNode t attrs (cs ++ cs') /\
                forall g, readNodes NODE INDEX X Y TEXT cs' g = (g ++ map restoredNode nodes)%list.
Proof.
  induction nodes as [ | n nodes IH ]; intros t attrs cs root' Hints Hw.
  - simpl in Hw. injection Hw as <-. exists []. rewrite app_nil_r. split; [ reflexivity | ].
    intros g. simpl. rewrite app_nil_r. reflexivity.
  - inversion Hints as [ | ? ? Hn Hrest ]; subst.
    cbn [writeNodes] in Hw.
    destruct (writeNode NODE INDEX X Y TEXT n) as [el | ] eqn:Hel; [ | discriminate ].
    destruct (readNode_writeNode n el Hn Hel) as (Hread & Hise & Hname).
    cbn [appendChild] in Hw.
    destruct (IH t attrs (cs ++ [el]) root' Hrest Hw) as (cs' & -> & Hcs').
    exists (el :: cs'). split.
    + rewrite <- app_assoc. reflexivity.
    + intros g. cbn [readNodes]. rewrite Hise, Hname, String.eqb_refl. cbn [andb].
      rewrite Hcs', Hread, <- app_assoc. reflexivity.
Qed.

Lemma writeNodes_defined (nodes : list NodeBase) (root : QDomNode) :
  forallb castable nodes = true ->
  exists root', writeNodes NODE INDEX X Y TEXT nodes root = Some root'.
Proof.
  revert root. induction nodes as [ | n nodes IH ]; intros root H.
  - exists root. reflexivity.
  - cbn [forallb] in H. apply andb_true_iff in H as [Hn Hrest].
    cbn [writeNodes]. rewrite (writeNode_defined n Hn). apply IH. exact Hrest.
Qed.

Lemma writeNodes_undefined (nodes : list NodeBase) (root : QDomNode) :
  forallb castable nodes = false ->
  writeNodes NODE INDEX X Y TEXT nodes root = None.
Proof.
  revert root. induction nodes as [ | n nodes IH ]; intros root H.
  - discriminate.
  - cbn [forallb] in H. cbn [writeNodes].
    destruct (castable n) eqn:Hn.
    + rewrite (writeNode_defined n Hn). apply IH. exact H.
    + rewrite (writeNode_undefined n Hn). reflexivity.
Qed.

End RoundTrip.

End SerializerFacts.

(** ** The round trip *)

Module SerializerClaims.

Import Floats Serializer SerializerFacts.

Local Close Scope R_scope.
Local Open Scope string_scope.
Local Open Scope list_scope.
Local Open Scope Z_scope.

(** The claim C10 (as amended).  Let the keywords for the index and the two
    coordinates be pairwise different and the indices be [int]s.  If the
    casts of all scaled coordinates are defined, [toXml] yields a document
    from which [fromXml] reads the nodes in the same order, each with its
    index and its text and with each coordinate [x] replaced by
    [(double)(int)(x * 1000) / 1000], evaluated in double arithmetic (and the
    version [toXml] wrote); if a cast is not defined, so is [toXml].  The
    doubles 0.5, 3, -2.5 and 0.001 are restored exactly; the double 1.001,
    which [fromXml] reads from 1001, is not: its product with 1000 is below
    1001, so that it is restored as 1. *)
Theorem serializer_round_trip
    (DESIGN APPLICATION_VERSION NODE INDEX X Y TEXT CONFIG_APPLICATION_VERSION : string)
    (m : MindMapData) :
  INDEX <> X -> INDEX <> Y -> X <> Y ->
  Forall (fun n => is_int (index n) = true) (graph m) ->
  (forallb castable (graph m) = true ->
   exists doc,
     toXml DESIGN APPLICATION_VERSION NODE INDEX X Y TEXT CONFIG_APPLICATION_VERSION m = Some doc /\
     fromXml APPLICATION_VERSION NODE INDEX X Y TEXT doc
     = mkMindMapData CONFIG_APPLICATION_VERSION (map restoredNode (graph m))) /\
  (forallb castable (graph m) = false ->
   toXml DESIGN APPLICATION_VERSION NODE INDEX X Y TEXT CONFIG_APPLICATION_VERSION m = None) /\
  (forall n,
      index (restoredNode n) = index n /\
      nodeText (restoredNode n) = nodeText n /\
      location_x (restoredNode n)
      = (int_to_double (truncate (location_x n * SCALE)) / SCALE)%float /\
      location_y (restoredNode n)
      = (int_to_double (truncate (location_y n * SCALE)) / SCALE)%float) /\
  (restored 0.5 = 0.5 /\ restored 3 = 3 /\ restored (-2.5) = (-2.5) /\
   restored (thousandths 1) = thousandths 1)%float /\
  ((thousandths 1001 * SCALE <? 1001) = true /\
   restored (thousandths 1001) = 1 /\
   (restored (thousandths 1001) =? thousandths 1001) = false)%float.
Proof.
  intros HIX HIY HXY Hints.
  refine (conj _ (conj _ (conj _ (conj _ _)))).
  - intros Hc. unfold toXml.
    destruct (writeNodes_defined NODE INDEX X Y TEXT HIX HIY HXY (graph m)
                (setAttribute APPLICATION_VERSION CONFIG_APPLICATION_VERSION
                              (createElement DESIGN)) Hc) as [root' Hw].
    rewrite Hw. exists (Some root'). split; [ reflexivity | ].
    unfold createElement, setAttribute in Hw. cbn [setAttr] in Hw.
    destruct (writeNodes_children NODE INDEX X Y TEXT HIX HIY HXY (graph m) _ _ _ _ Hints Hw)
      as (cs' & -> & Hread).
    unfold fromXml, attribute. cbn [getAttr childNodes app].
    rewrite String.eqb_refl, Hread. reflexivity.
  - intros Hc. unfold toXml.
    rewrite (writeNodes_undefined NODE INDEX X Y TEXT HIX HIY HXY (graph m) _ Hc).
    reflexivity.
  - intros n. repeat split.
  - vm_compute. repeat split.
  - vm_compute. repeat split.
Qed.

(** [serializer_round_trip] on the sample, with the keywords "design",
    "version", "node", "index", "x", "y" and "text": 1.2345 comes back as
    1.234 and -2.0009 as -2; the last node comes back with 1 for 1.001. *)
Lemma serializer_round_trip_witness :
  exists doc,
    toXml "design" "version" "node" "index" "x" "y" "text" "1.4.0" sampleMindMap = Some doc /\
    fromXml "version" "node" "index" "x" "y" "text" doc
    = mkMindMapData "1.4.0"
        [ mkNodeBase 0 (thousandths 1234) (-2)%float "Root";
          mkNodeBase 1 3%float (thousandths 1) "";
          mkNodeBase 7 (-2.5)%float 0%float "Idea";
          mkNodeBase 8 1%float 0.5%float "Drift" ].
Proof.
  assert (Hints : Forall (fun n => is_int (index n) = true) (graph sampleMindMap)).
  { repeat constructor. }
  destruct (serializer_round_trip
              "design" "version" "node" "index" "x" "y" "text" "1.4.0" sampleMindMap
              ltac:(discriminate) ltac:(discriminate) ltac:(discriminate) Hints)
    as (Hok & _).
  destruct (Hok ltac:(vm_compute; reflexivity)) as (doc & Hdoc & Hread).
  exists doc. split; [ exact Hdoc | ].
  rewrite Hread. vm_compute. reflexivity.
Defined.

(** C10 as stated fails.  The node below lies at (1.001, 0.001), both doubles
    as [fromXml] itself reads them from 1001 and 1.  The first coordinate is
    the double nearest to 1001/1000, yet the round trip changes it to 1: the
    double stands for a number below 1001/1000.  The second coordinate is
    restored exactly, yet the number the double stands for is not an integer
    multiple of 1/1000: in exact arithmetic it would not be restored (see
    [exact_restored_iff]). *)
Lemma thousandths_not_restored :
  option_map (fromXml "version" "node" "index" "x" "y" "text")
             (toXml "design" "version" "node" "index" "x" "y" "text" "1.4.0"
                    (mkMindMapData "1.4.0"
                       [ mkNodeBase 0 (thousandths 1001) (thousandths 1) "" ]))
  = Some (mkMindMapData "1.4.0" [ mkNodeBase 0 1%float (thousandths 1) "" ]) /\
  (1 =? thousandths 1001)%float = false /\
  Qeq_bool (value (thousandths 1001)) (1001 # 1000) = false /\
  Qle_bool (1001 # 1000) (value (thousandths 1001)) = false /\
  Qeq_bool (exact_restored (value (thousandths 1))) (value (thousandths 1)) = false.
Proof.
  vm_compute. repeat split.
Qed.

End SerializerClaims.

(** ** Reading a document *)

Module SerializerReading.

Import Floats Serializer.

Local Close Scope R_scope.
Local Open Scope string_scope.
Local Open Scope list_scope.
Local Open Scope Z_scope.

Section Reading.

Variables APPLICATION_VERSION NODE INDEX X Y TEXT : string.

Lemma readNodes_filter (cs : list QDomNode) (g : list NodeBase) :
  readNodes NODE INDEX X Y TEXT cs g
  = g ++ map (readNode INDEX X Y TEXT) (filter (isElementNamed NODE) cs).
Proof.
  revert g. induction cs as [ | c cs IH ]; intros g.
  - cbn. rewrite app_nil_r. reflexivity.
  - cbn [readNodes filter]. unfold isElementNamed at 1.
    destruct (isElement c && String.eqb (nodeName c) NODE).
    + rewrite IH. cbn [map]. rewrite <- app_assoc. reflexivity.
    + apply IH.
Qed.

(** Property X14: [fromXml] reads the version attribute of the root, or
    "UNDEFINED" when it is missing or the document is empty, and one node for
    each child of the root that is an element named [NODE], in document
    order; every other child (text, elements of other names) is skipped. *)
Theorem fromXml_reads_node_elements_in_order (document : QDomDocument) :
  fromXml APPLICATION_VERSION NODE INDEX X Y TEXT document
  = match document with
    | Some root =>
        mkMindMapData
          (match root with
           | ElementNode _ attrs _ =>
               match getAttr APPLICATION_VERSION attrs with
               | Some v => v
               | None => "UNDEFINED"
               end
           | TextNode _ => "UNDEFINED"
           end)
          (map (readNode INDEX X Y TEXT) (filter (isElementNamed NODE) (childNodes root)))
    | None => mkMindMapData "UNDEFINED" []
    end.
Proof.
  destruct document as [ root | ]; [ | reflexivity ].
  unfold fromXml. rewrite readNodes_filter. cbn [app].
  destruct root; reflexivity.
Qed.

Lemma readText_no_text_element (cs : list QDomNode) (current : string) :
  forallb (fun c => negb (isElementNamed TEXT c)) cs = true ->
  readText TEXT cs current = current.
Proof.
  revert current. induction cs as [ | c cs IH ]; intros current H.
  - reflexivity.
  - cbn [forallb] in H. apply andb_true_iff in H as [Hc H].
    apply negb_true_iff in Hc. unfold isElementNamed in Hc.
    cbn [readText]. rewrite Hc. apply IH. exact H.
Qed.

Lemma readText_app (cs1 cs2 : list QDomNode) (current : string) :
  readText TEXT (cs1 ++ cs2) current = readText TEXT cs2 (readText TEXT cs1 current).
Proof.
  revert current. induction cs1 as [ | c cs1 IH ]; intros current.
  - reflexivity.
  - cbn [app readText]. destruct (isElement c && String.eqb (nodeName c) TEXT); apply IH.
Qed.

Lemma firstText_skips_elements (es rest : list QDomNode) :
  forallb isElement es = true -> firstText (es ++ rest) = firstText rest.
Proof.
  induction es as [ | c es IH ]; intros H.
  - reflexivity.
  - cbn [forallb] in H. apply andb_true_iff in H as [Hc H].
    destruct c; [ | discriminate Hc ]. cbn [app firstText]. apply IH. exact H.
Qed.

(** Property X15: a node element without an index attribute is read with
    the index -1, without an x or y attribute with the coordinate 0, and
    without a child element named [TEXT] with the empty text. *)
Theorem readNode_defaults (tag : string) (attrs : list (string * string))
    (children : list QDomNode) :
  let n := readNode INDEX X Y TEXT (ElementNode tag attrs children) in
  (getAttr INDEX attrs = None -> index n = -1) /\
  (getAttr X attrs = None -> location_x n = 0%float) /\
  (getAttr Y attrs = None -> location_y n = 0%float) /\
  (forallb (fun c => negb (isElementNamed TEXT c)) children = true -> nodeText n = "").
Proof.
  cbv zeta. unfold readNode, attribute. cbn [index location_x location_y nodeText childNodes].
  refine (conj _ (conj _ (conj _ _))).
  - intros ->. reflexivity.
  - intros ->. reflexivity.
  - intros ->. reflexivity.
  - intros H. rewrite readText_no_text_element by exact H. reflexivity.
Qed.

(** Property X16: the text of a node is taken from the last child element
    named [TEXT]: it is the content of the first text node among that
    element's children, and the empty text when that element has no text
    node.  Earlier [TEXT] elements do not count. *)
Theorem readNode_text_of_last_text_element (tag : string) (attrs attrs' : list (string * string))
    (before after textChildren : list QDomNode) :
  forallb (fun c => negb (isElementNamed TEXT c)) after = true ->
  let n := readNode INDEX X Y TEXT
             (ElementNode tag attrs (before ++ ElementNode TEXT attrs' textChildren :: after)) in
  nodeText n = firstText textChildren /\
  (forall (es rest : list QDomNode) (d : string),
      textChildren = es ++ TextNode d :: rest -> forallb isElement es = true ->
      nodeText n = d) /\
  (forallb isElement textChildren = true -> nodeText n = "").
Proof.
  intros Hafter n.
  assert (Hn : nodeText n = firstText textChildren).
  { unfold n, readNode. cbn [nodeText childNodes].
    rewrite readText_app. cbn [readText isElement nodeName andb].
    rewrite String.eqb_refl.
    rewrite readText_no_text_element by exact Hafter. reflexivity. }
  clearbody n. refine (conj Hn (conj _ _)).
  - intros es rest d -> Hes. rewrite Hn, firstText_skips_elements by exact Hes. reflexivity.
  - intros Hall. rewrite Hn.
    rewrite <- (app_nil_r textChildren), firstText_skips_elements by exact Hall. reflexivity.
Qed.

End Reading.

(** [readNode_text_of_last_text_element] on the first of the sample
    children: of its two text elements the second counts, and in it the first
    text node. *)
Lemma readNode_text_of_last_text_element_witness :
  nodeText (readNode "index" "x" "y" "text" (hd (TextNode "") sampleChildren)) = "second".
Proof.
  destruct (readNode_text_of_last_text_element "index" "x" "y" "text" "node"
              [("index", "4"); ("x", "1500"); ("y", "-250")] []
              [ElementNode "text" [] [TextNode "first"]]
              [ElementNode "image" [] []]
              [ElementNode "b" [] []; TextNode "second"; TextNode "third"] eq_refl)
    as (_ & H & _).
  exact (H [ElementNode "b" [] []] [TextNode "third"] "second" eq_refl eq_refl).
Defined.

End SerializerReading.

(** ** Writing a document *)

Module SerializerWriting.

Import Floats Serializer SerializerFacts.

Local Close Scope R_scope.
Local Open Scope string_scope.
Local Open Scope list_scope.
Local Open Scope Z_scope.

Section Writing.

Variables DESIGN APPLICATION_VERSION NODE INDEX X Y TEXT : string.
Variable CONFIG_APPLICATION_VERSION : string.

Hypothesis INDEX_X : INDEX <> X.
Hypothesis INDEX_Y : INDEX <> Y.
Hypothesis X_Y : X <> Y.

Lemma writeNodes_elements (nodes : list NodeBase) :
  forall (t : string) (attrs : list (string * string)) (cs : list QDomNode),
    forallb castable nodes = true ->
    writeNodes NODE INDEX X Y TEXT nodes (ElementNode t attrs cs)
    = Some (ElementNode t attrs (cs ++ map (nodeElement NODE INDEX X Y TEXT) nodes)).
Proof.
  induction nodes as [ | n nodes IH ]; intros t attrs cs H.
  - cbn. rewrite app_nil_r. reflexivity.
  - cbn [forallb] in H. apply andb_true_iff in H as [Hn Hrest].
    cbn [writeNodes].
    rewrite (writeNode_defined NODE INDEX X Y TEXT INDEX_X INDEX_Y X_Y n Hn).
    cbn [appendChild]. rewrite (IH t attrs _ Hrest).
    cbn [map]. rewrite <- app_assoc. reflexivity.
Qed.

(** Property X23: when the three attribute names differ and every scaled
    coordinate can be cast, the document of [toXml] is a root element named
    [DESIGN] whose only attribute is the version of the application (the
    version stored in the mind map is not written) and whose children are,
    in the order of the graph, one element per node: named [NODE], with the
    index and the two truncated scaled coordinates as decimal numerals in its
    attributes and one child element named [TEXT] that holds the node's
    text. *)
Theorem toXml_document (m : MindMapData) :
  forallb castable (graph m) = true ->
  toXml DESIGN APPLICATION_VERSION NODE INDEX X Y TEXT CONFIG_APPLICATION_VERSION m
  = Some (Some (ElementNode DESIGN
                  [(APPLICATION_VERSION, CONFIG_APPLICATION_VERSION)]
                  (map (nodeElement NODE INDEX X Y TEXT) (graph m)))).
Proof.
  intros H. unfold toXml, createElement, setAttribute. cbn [setAttr].
  rewrite (writeNodes_elements (graph m) _ _ _ H). reflexivity.
Qed.

End Writing.

(** [toXml_document] on the sample mind map: the attributes of its first
    node are 0, 1234 and -2000. *)
Lemma toXml_document_witness :
  toXml "design" "version" "node" "index" "x" "y" "text" "1.4.0" sampleMindMap
  = Some (Some (ElementNode "design" [("version", "1.4.0")]
                  (map (nodeElement "node" "index" "x" "y" "text") (graph sampleMindMap)))) /\
  hd_error (map (nodeElement "node" "index" "x" "y" "text") (graph sampleMindMap))
  = Some (ElementNode "node" [("index", "0"); ("x", "1234"); ("y", "-2000")]
            [ElementNode "text" [] [TextNode "Root"]]).
Proof.
  split.
  - apply (toXml_document "design" "version" "node" "index" "x" "y" "text" "1.4.0").
    + discriminate.
    + discriminate.
    + discriminate.
    + vm_compute. reflexivity.
  - vm_compute. reflexivity.
Defined.

End SerializerWriting.

(** * Facts about the grid *)

Module GridFacts.

Import Grid.

(** ** Rounding *)

Lemma Rabs_le_bounds (x a : R) : Rabs x <= a -> - a <= x <= a.
Proof.
  intros H. pose proof (Rle_abs x) as H1. pose proof (Rle_abs (- x)) as H2.
  rewrite Rabs_Ropp in H2. lra.
Qed.

Lemma Int_part_IZR_half (k : Z) : Int_part (IZR k + / 2) = k.
Proof. symmetry. apply Int_part_spec. lra. Qed.

Lemma round_near (x : R) : Rabs (round x - x) <= / 2.
Proof.
  unfold round. destruct (Rle_dec 0 x) as [H | H].
  - destruct (base_Int_part (x + / 2)) as [H1 H2].
    apply Rabs_le. lra.
  - destruct (base_Int_part (- x + / 2)) as [H1 H2].
    apply Rabs_le. lra.
Qed.

Lemma round_opp (x : R) : round (- x) = - round x.
Proof.
  unfold round.
  destruct (Rle_dec 0 x) as [H | H], (Rle_dec 0 (- x)) as [H' | H'].
  - assert (x = 0) by lra. subst x.
    replace (- 0 + / 2) with (0 + / 2) by ring.
    change 0 with (IZR 0). rewrite Int_part_IZR_half. simpl. ring.
  - rewrite Ropp_involutive. reflexivity.
  - rewrite Ropp_involutive. ring.
  - lra.
Qed.

(** ** Snapping *)

Lemma snap_coordinate (x s : R) :
  s <> 0 -> round (x / s) * s - x = (round (x / s) - x / s) * s.
Proof. intros Hs. field. exact Hs. Qed.

Lemma snap_coordinate_near (x s : R) :
  s <> 0 -> Rabs (round (x / s) * s - x) <= Rabs s / 2.
Proof.
  intros Hs. rewrite snap_coordinate by exact Hs. rewrite Rabs_mult.
  pose proof (round_near (x / s)) as Hn. pose proof (Rabs_pos s) as Hp.
  nra.
Qed.

Lemma size_nonzero (g : Grid) : m_size g <> 0%Z -> IZR (m_size g) <> 0.
Proof. intros H. apply not_0_IZR. exact H. Qed.

Lemma snapToGrid_unfold (g : Grid) (p : QPointF) :
  m_size g <> 0%Z ->
  snapToGrid g p = mkPoint (round (px p / IZR (m_size g)) * IZR (m_size g))
                           (round (py p / IZR (m_size g)) * IZR (m_size g)).
Proof.
  intros H. unfold snapToGrid. apply Z.eqb_neq in H. rewrite H. reflexivity.
Qed.


Lemma snapToGrid_near (g : Grid) (p : QPointF) :
  m_size g <> 0%Z ->
  Rabs (px (snapToGrid g p) - px p) <= Rabs (IZR (m_size g)) / 2 /\
  Rabs (py (snapToGrid g p) - py p) <= Rabs (IZR (m_size g)) / 2.
Proof.
  intros Hs. pose proof (size_nonzero g Hs) as Hs'.
  rewrite (snapToGrid_unfold g p Hs). cbn [px py].
  split; apply snap_coordinate_near; exact Hs'.
Qed.

(** Property X19: the sign of the size does not matter to [snapToGrid], and snapping
    commutes with the reflection of the point at the origin (halfway cases
    are rounded away from zero on both sides). *)
Theorem snapToGrid_symmetric (g : Grid) (p : QPointF) :
  snapToGrid (setSize (- m_size g) g) p = snapToGrid g p /\
  snapToGrid g (mkPoint (- px p) (- py p))
  = mkPoint (- px (snapToGrid g p)) (- py (snapToGrid g p)).
Proof.
  destruct (Z.eq_dec (m_size g) 0) as [H0 | Hs].
  - unfold snapToGrid, setSize. cbn [m_size]. rewrite H0. cbn. split; reflexivity.
  - pose proof (size_nonzero g Hs) as Hs'. split.
    + assert (Hn : m_size (setSize (- m_size g) g) <> 0%Z) by (cbn [setSize m_size]; lia).
      rewrite (snapToGrid_unfold _ p Hn), (snapToGrid_unfold g p Hs).
      cbn [setSize m_size]. rewrite opp_IZR.
      replace (px p / - IZR (m_size g)) with (- (px p / IZR (m_size g))) by (field; exact Hs').
      replace (py p / - IZR (m_size g)) with (- (py p / IZR (m_size g))) by (field; exact Hs').
      rewrite !round_opp. f_equal; ring.
    + rewrite (snapToGrid_unfold g _ Hs), (snapToGrid_unfold g p Hs). cbn [px py].
      replace (- px p / IZR (m_size g)) with (- (px p / IZR (m_size g))) by (field; exact Hs').
      replace (- py p / IZR (m_size g)) with (- (py p / IZR (m_size g))) by (field; exact Hs').
      rewrite !round_opp. f_equal; ring.
Qed.

(** ** The lines *)

Lemma verticalLines_negative (size : Z) (r : QRectF) (fuel : nat) :
  (size < 0)%Z ->
  forall (x : R) (acc : list QLineF),
    x < rect_right r -> verticalLines fuel size r x acc = None.
Proof.
  intros Hs. assert (Hs' : IZR size < 0) by (apply IZR_lt; exact Hs).
  induction fuel as [ | fuel IH ]; intros x acc Hx;
    cbn [verticalLines]; rewrite (proj2 (Rlt_b_true _ _) Hx); [ reflexivity | ].
  apply IH. lra.
Qed.

Lemma horizontalLines_negative (size : Z) (r : QRectF) (fuel : nat) :
  (size < 0)%Z ->
  forall (y : R) (acc : list QLineF),
    y < rect_bottom r -> horizontalLines fuel size r y acc = None.
Proof.
  intros Hs. assert (Hs' : IZR size < 0) by (apply IZR_lt; exact Hs).
  induction fuel as [ | fuel IH ]; intros y acc Hy;
    cbn [horizontalLines]; rewrite (proj2 (Rlt_b_true _ _) Hy); [ reflexivity | ].
  apply IH. lra.
Qed.

Lemma verticalLines_none (size : Z) (r : QRectF) (fuel : nat) (x : R) (acc : list QLineF) :
  rect_right r <= x -> verticalLines fuel size r x acc = Some acc.
Proof.
  intros Hx. destruct fuel; cbn [verticalLines];
    rewrite (proj2 (Rlt_b_false _ _) Hx); reflexivity.
Qed.

Lemma horizontalLines_none (size : Z) (r : QRectF) (fuel : nat) (y : R) (acc : list QLineF) :
  rect_bottom r <= y -> horizontalLines fuel size r y acc = Some acc.
Proof.
  intros Hy. destruct fuel; cbn [horizontalLines];
    rewrite (proj2 (Rlt_b_false _ _) Hy); reflexivity.
Qed.

(** Property X21: [setSize] takes any [int].  For a negative size [calculateLines] does
    not come to its end as soon as one loop is entered, that is, when the
    snapped left border is before the right border or the snapped top border
    is before the bottom border: no bound on the iterations is enough, since
    the position moves away from the far border.  Only if neither loop is
    entered does it return, with no lines. *)
Theorem calculateLines_negative_size (sceneRect : QRectF) (g : Grid) :
  (m_size g < 0)%Z ->
  let start := snapToGrid g (mkPoint (rect_left sceneRect) (rect_top sceneRect)) in
  (px start < rect_right sceneRect \/ py start < rect_bottom sceneRect ->
   forall fuel : nat, calculateLines fuel sceneRect g = None) /\
  (rect_right sceneRect <= px start -> rect_bottom sceneRect <= py start ->
   forall fuel : nat, calculateLines fuel sceneRect g = Some (mkGrid (m_size g) [])).
Proof.
  intros Hneg start.
  assert (Hne : (m_size g =? 0)%Z = false) by (apply Z.eqb_neq; lia).
  split.
  - intros Hor fuel. unfold calculateLines. rewrite Hne. cbn [negb]. cbv zeta. fold start.
    destruct (Rlt_dec (px start) (rect_right sceneRect)) as [Hx | Hx].
    + rewrite (verticalLines_negative _ _ fuel Hneg _ _ Hx). reflexivity.
    + rewrite verticalLines_none by lra.
      destruct Hor as [Hx' | Hy]; [ lra | ].
      rewrite (horizontalLines_negative _ _ fuel Hneg _ _ Hy). reflexivity.
  - intros Hx Hy fuel. unfold calculateLines. rewrite Hne. cbn [negb]. cbv zeta. fold start.
    rewrite verticalLines_none by exact Hx.
    rewrite horizontalLines_none by exact Hy. reflexivity.
Qed.

(** [calculateLines_negative_size] for the size -10 and the rectangle from
    (0, 0) to (25, 15): a thousand iterations are not enough. *)
Lemma calculateLines_negative_size_witness :
  calculateLines 1000 (mkRect 0 0 25 15) (mkGrid (-10) []) = None.
Proof.
  destruct (calculateLines_negative_size (mkRect 0 0 25 15) (mkGrid (-10) [])) as [H _].
  - cbn [m_size]. lia.
  - apply H. left.
    destruct (snapToGrid_near (mkGrid (-10) []) (mkPoint 0 0)) as [Hx _].
    + cbn [m_size]. discriminate.
    + cbn [m_size px rect_left rect_top rx ry] in *.
      unfold rect_left, rect_top, rect_right in *. cbn [rx ry rw] in *.
      apply Rabs_le_bounds in Hx.
      assert (Ha : Rabs (-10) = 10) by (rewrite Rabs_left; lra).
      rewrite Ha in Hx. lra.
Defined.

End GridFacts.

(** * Facts and claims: the arithmetic of the edge, bit for bit *)

Module BinaryFacts.

Import Floats Binary.

Local Close Scope R_scope.
Local Open Scope float_scope.

(** ** Zeros in binary64 arithmetic *)

















(** ** Offsets along a direction vector *)







(** ** The target end of the segment *)




(** ** The corner nudge *)




(** ** The dots *)



End BinaryFacts.

(** * Degenerate geometry: what is defined, and where NaN appears *)

Module DegenerateFacts.

Import Floats.



End DegenerateFacts.

(** * Facts about the grid, bit for bit *)

Module BinaryGridFacts.

Import Floats BinaryGrid.

Local Close Scope R_scope.
Local Open Scope float_scope.

(** [round] on some numbers: halfway cases go away from zero, and the sign
    of a zero is kept. *)
Lemma round_examples :
  round 2.5 = 3 /\ round (-2.5) = -3 /\ round 2.4999999999999996 = 2 /\
  round 0.5 = 1 /\ round 0.49999999999999994 = 0 /\ round (-0.3) = -0 /\
  round 1.4 = 1 /\ round (-1.6) = -2 /\ round 9007199254740992 = 9007199254740992 /\
  round 4503599627370495.5 = 4503599627370496.
Proof. vm_compute. repeat split. Qed.

(** In the usual range the lines are those of the real numbers: for the size
    10 and the rectangle from (-4,3) to (21,18) there are vertical lines at
    0, 10 and 20 and horizontal ones at 0 and 10. *)
Lemma calculateLines_example :
  calculateLines 10 (mkRect (-4) 3 25 15) (mkGrid 10 [])
  = Some (mkGrid 10 [ lineOf (-0) 3 (-0) 18; lineOf 10 3 10 18; lineOf 20 3 20 18;
                      lineOf (-4) 0 21 0; lineOf (-4) 10 21 10 ]).
Proof. vm_compute. reflexivity. Qed.

Lemma verticalLines_stall (size : Z) (r : QRectF) (x : float) :
  (x <? rect_right r) = true -> x + Serializer.int_to_double size = x ->
  forall (fuel : nat) (acc : list Binary.QLineF), verticalLines fuel size r x acc = None.
Proof.
  intros Hx Hs. induction fuel as [ | fuel IH ]; intros acc; cbn [verticalLines]; rewrite Hx.
  - reflexivity.
  - rewrite Hs. apply IH.
Qed.

Lemma horizontalLines_stall (size : Z) (r : QRectF) (y : float) :
  (y <? rect_bottom r) = true -> y + Serializer.int_to_double size = y ->
  forall (fuel : nat) (acc : list Binary.QLineF), horizontalLines fuel size r y acc = None.
Proof.
  intros Hy Hs. induction fuel as [ | fuel IH ]; intros acc; cbn [horizontalLines]; rewrite Hy.
  - reflexivity.
  - rewrite Hs. apply IH.
Qed.

(** Property X24: [calculateLines] does not come to its end, whatever the
    sign of the size, when adding the size to the snapped left border gives
    the snapped left border again and that border is before the right
    border: no bound on the iterations is enough, since the position of the
    loop never changes.  The same holds for the loop of the horizontal lines
    if the loop of the vertical lines is not entered. *)
Theorem calculateLines_stalls (sceneRect : QRectF) (g : Grid) :
  m_size g <> 0%Z ->
  let s := Serializer.int_to_double (m_size g) in
  let start := snapToGrid g (Binary.mkPoint (rect_left sceneRect) (rect_top sceneRect)) in
  ((Binary.px start <? rect_right sceneRect) = true /\ Binary.px start + s = Binary.px start) \/
  ((Binary.px start <? rect_right sceneRect) = false /\
   (Binary.py start <? rect_bottom sceneRect) = true /\ Binary.py start + s = Binary.py start) ->
  forall fuel : nat, calculateLines fuel sceneRect g = None.
Proof.
  intros Hne s start H fuel. unfold calculateLines.
  apply Z.eqb_neq in Hne. rewrite Hne. cbn [negb]. cbv zeta. fold start.
  destruct H as [ [Hx Hs] | (Hx & Hy & Hs) ].
  - rewrite (verticalLines_stall _ _ _ Hx Hs). reflexivity.
  - assert (Hv : verticalLines fuel (m_size g) sceneRect (Binary.px start) [] = Some []).
    { destruct fuel; cbn [verticalLines]; rewrite Hx; reflexivity. }
    rewrite Hv, (horizontalLines_stall _ _ _ Hy Hs). reflexivity.
Qed.

(** [calculateLines_stalls] for the size 1 and the rectangle from
    (9007199254740992, 0), which is 2 wide and 1 high: the left border is a
    grid point, the right border lies 2 beyond it, and adding 1 to
    9007199254740992 gives 9007199254740992; a thousand iterations are not
    enough. *)
Lemma calculateLines_stalls_witness :
  (9007199254740992 <? rect_right (mkRect 9007199254740992 0 2 1)) = true /\
  9007199254740992 + 1 = 9007199254740992 /\
  calculateLines 1000 (mkRect 9007199254740992 0 2 1) (mkGrid 1 []) = None.
Proof.
  refine (conj eq_refl (conj eq_refl _)).
  apply (calculateLines_stalls (mkRect 9007199254740992 0 2 1) (mkGrid 1 [])).
  - cbn [m_size]. discriminate.
  - left. vm_compute. split; reflexivity.
Defined.

End BinaryGridFacts.
